(** * Incremental WebDAV synchronisation: index store, remote-delta detector
      and sync driver

    A shallow embedding of
      - [FileIndexStore], [DirMtimeStore], [SyncProgressStore]
        (src/storage/file-index.ts),
      - [RemoteDeltaDetectorService] (the remote-delta detector service),
      - [IncrementalWebDAVFileSystem] (the incremental sync driver),
      - the callers and callees next to them: [getWebDAVEndpoint] and
        [getWebDAVBasePath] (consts.ts), [parsePropfindResponse] of the
        detector, the dispatch of [NutstoreFileSystem] (fs/nutstore.ts) and
        the index status of the settings page,
    followed by the properties of the specification that concern them, and
    by further properties of the same code.

    Conventions of the embedding.
      - Paths are [string]s.  The sources index strings by UTF-16 code unit;
        here a string is a sequence of bytes, which agrees on ASCII paths.
      - JavaScript numbers that hold timestamps and sizes are [Z]; counters
        are [nat].  [NaN] is outside the embedding.
      - A localforage instance is a finite map from keys to records
        ([gmap string _]); its iteration order is the order of
        [map_to_list], an arbitrary but fixed enumeration.
      - Asynchronous code is a state-and-error monad [M] over a [World] that
        holds the three persistent stores, the log of PROPFIND requests and
        the log of progress notifications.  [Promise.all] over a chunk runs
        its members one after another, in array order.
      - Recursion over the remote tree takes a [fuel] argument; running out
        of it raises [FuelExhausted], which no handler of the sources
        catches.
      - The XML parser that [propfind] runs on an answer is a library of
        the plugin: an answer enters as the parsed document ([Responses]),
        with an element that may be missing as an [XmlValue].  What
        [propfind] resolves to is what [parsePropfindResponse] makes of the
        answer ([propfindAnswer]); the environment holds that composition
        as [remote].
      - [Date.now()] is the reading [now] of the environment, the same all
        along one operation.  Calls to the logger and the rate limiter
        around [propfind] are left out: they change neither the stores nor
        what is requested. *)

From Stdlib Require Import ZArith Ascii String List Lia Bool.
From stdpp Require Import base option list gmap fin_maps strings pretty.

Local Open Scope string_scope.
Local Open Scope Z_scope.
Local Open Scope list_scope.

(* ===================================================================== *)
(** ** String primitives used by the sources *)
(* ===================================================================== *)

Module Js.

Definition slash : ascii := "/"%char.

(** [s.startsWith(p)] *)
Definition startsWith (s p : string) : bool := String.prefix p s.

(** [s.endsWith(p)] *)
Definition endsWith (s p : string) : bool :=
  String.prefix (String.rev p) (String.rev s).

(** [s.slice(i, j)] for [0 <= i <= j] *)
Definition slice (s : string) (i j : nat) : string :=
  String.substring i (j - i) s.

(** [s.slice(i)] *)
Definition sliceFrom (s : string) (i : nat) : string :=
  String.substring i (String.length s - i) s.

(** [s.slice(0, -1)] *)
Definition dropLast (s : string) : string :=
  String.substring 0 (String.length s - 1) s.

(** [s.replace(pat, '')] with a string pattern: the first occurrence of
    [pat] is removed, and [s] is returned as it is when there is none. *)
Fixpoint removeFirst (pat s : string) : string :=
  if String.prefix pat s then sliceFrom s (String.length pat)
  else match s with
       | EmptyString => EmptyString
       | String c rest => String c (removeFirst pat rest)
       end.

(** [x || 0] on a number. *)
Definition orZero (x : Z) : Z := if Z.eqb x 0 then 0 else x.

Definition isSlashAt (s : string) (i : nat) : bool :=
  match String.get i s with
  | Some c => if Ascii.eqb c slash then true else false
  | None => false
  end.

(** The backwards loop of [dirname] (path-browserify, the POSIX [dirname]
    of Node): [for (i = path.length - 1; i >= 1; --i)], which stops at
    the first slash that follows a character other than a slash. *)
Fixpoint dirnameScan (path : string) (i : nat) (matchedSlash : bool)
  : option nat :=
  match i with
  | O => None
  | S j =>
      if isSlashAt path i then
        if matchedSlash then dirnameScan path j true else Some i
      else dirnameScan path j false
  end.

(** [dirname(path)] of path-browserify. *)
Definition dirname (path : string) : string :=
  if Nat.eqb (String.length path) 0 then "."
  else
    let hasRoot := isSlashAt path 0 in
    match dirnameScan path (String.length path - 1) true with
    | None => if hasRoot then "/" else "."
    | Some e =>
        if hasRoot && Nat.eqb e 1 then "//" else slice path 0 e
    end.

(** [array.slice(i, j)] *)
Definition arraySlice {T} (array : list T) (i j : nat) : list T :=
  take (j - i) (drop i array).

End Js.

(** [Map] of JavaScript: keys keep the position of their first insertion,
    a later [set] of the same key replaces the value in place. *)
Module JsMap.

Definition t (V : Type) : Type := list (string * V).

Fixpoint set {V} (k : string) (v : V) (m : t V) : t V :=
  match m with
  | [] => [(k, v)]
  | (k', v') :: rest =>
      if String.eqb k k' then (k, v) :: rest else (k', v') :: set k v rest
  end.

Fixpoint get {V} (k : string) (m : t V) : option V :=
  match m with
  | [] => None
  | (k', v') :: rest => if String.eqb k k' then Some v' else get k rest
  end.

Definition has {V} (k : string) (m : t V) : bool :=
  match get k m with Some _ => true | None => false end.

(** [new Map(pairs)] *)
Definition ofList {V} (pairs : list (string * V)) : t V :=
  fold_left (fun m kv => set (fst kv) (snd kv) m) pairs [].

End JsMap.

(** [Set] of JavaScript over strings, in insertion order. *)
Module JsSet.

Definition add (k : string) (s : list string) : list string :=
  if existsb (String.eqb k) s then s else s ++ [k].

End JsSet.

(* ===================================================================== *)
(** ** Data model *)
(* ===================================================================== *)

(** [StatModel]: the record exchanged with the remote adapter and with the
    callers.  [size] is present on files only; the sources never read it on
    a directory. *)
Module StatModel.
Record t := mk
  { path : string;
    basename : string;
    isDir : bool;
    isDeleted : bool;
    mtime : Z;
    size : Z }.
End StatModel.

Module FileIndexEntry.
Record t := mk
  { path : string;
    basename : string;
    isDir : bool;
    mtime : Z;
    size : Z;
    etag : option string;
    contentHash : option string;
    lastSynced : Z;
    parentPath : string }.
End FileIndexEntry.

Module DirMtimeEntry.
Record t := mk
  { path : string;
    mtime : Z;
    lastChecked : Z;
    childCount : nat }.
End DirMtimeEntry.

Inductive Phase := scanning | comparing | syncing | updating.

Module SyncProgress.
Record t := mk
  { sessionId : string;
    startTime : Z;
    phase : Phase;
    processedCount : nat;
    totalCount : nat;
    currentPath : string;
    pendingTasks : list string;
    completedTasks : list string;
    failedTasks : list string }.
End SyncProgress.

Inductive ChangeType := added | modified | deleted.

Module RemoteChange.
Record t := mk
  { path : string;
    type : ChangeType;
    stat : option StatModel.t }.
End RemoteChange.

Module DeltaDetectionResult.
Record t := mk
  { changes : list RemoteChange.t;
    needFullScan : bool;
    scannedDirs : nat;
    changedDirs : nat }.
End DeltaDetectionResult.

Inductive Depth := Depth0 | Depth1.

(** The three namespaced stores of one namespace. *)
Record Store := mkStore
  { fileIndex : gmap string FileIndexEntry.t;
    dirMtimeStore : gmap string DirMtimeEntry.t;
    progressStore : option SyncProgress.t }.

(** What an operation can read and change: the stores, and two logs that
    make its outbound calls observable. *)
Record World := mkWorld
  { store : Store;
    requests : list (string * Depth);
    progressCalls : list (string * nat * nat) }.

(** What surrounds the core: the remote adapter, the clock, the settings and
    the helpers of the embedding plugin that the driver calls. *)
Record Env := mkEnv
  { (** what [propfind(path, depth)] resolves to: the answer of the server
        run through [parsePropfindResponse] (see [propfindAnswer]); [None]
        when the request rejects *)
    remote : string -> Depth -> option (list StatModel.t);
    (** [Date.now()] *)
    now : Z;
    remoteBaseDir : string;
    (** [options.concurrency], when given *)
    concurrencyOption : option nat;
    (** [decode] of html-entities *)
    decodeHtmlEntity : string -> string;
    (** [stdRemotePath] of utils/std-remote-path *)
    stdRemotePath : string -> string;
    (** [isSub(base, path)] of utils/is-sub *)
    isSub : string -> string -> bool;
    (** [needIncludeFromGlobRules(path, inclusion, exclusions)] with the
        rules of the current settings *)
    needInclude : string -> bool;
    (** [completeLossDir(stats, filteredStats)] of fs/utils *)
    completeLossDir :
      list StatModel.t -> list StatModel.t -> list StatModel.t }.

(* ===================================================================== *)
(** ** The monad of asynchronous operations *)
(* ===================================================================== *)

Inductive error := TransportError | FuelExhausted.

Inductive outcome (A : Type) :=
| Ret (a : A)
| Throw (e : error).
Arguments Ret {A} a.
Arguments Throw {A} e.

Definition M (A : Type) : Type := World -> outcome A * World.

Definition ret {A} (a : A) : M A := fun w => (Ret a, w).

Definition throw {A} (e : error) : M A := fun w => (Throw e, w).

Definition bind {A B} (m : M A) (k : A -> M B) : M B :=
  fun w =>
    match m w with
    | (Ret a, w') => k a w'
    | (Throw e, w') => (Throw e, w')
    end.

Notation "x <- c ;; k" := (bind c (fun x => k))
  (at level 100, c at next level, right associativity).
Notation "c ;;; k" := (bind c (fun _ => k))
  (at level 100, right associativity).

(** [try { body } catch (e) { handler }].  A rejected request is caught;
    exhaustion of the fuel is not an exception of the sources and
    passes through. *)
Definition tryCatch {A} (body : M A) (handler : M A) : M A :=
  fun w =>
    match body w with
    | (Throw TransportError, w') => handler w'
    | r => r
    end.

Definition gets {A} (f : Store -> A) : M A := fun w => (Ret (f (store w)), w).

Definition modify (f : Store -> Store) : M unit :=
  fun w =>
    (Ret tt,
     {| store := f (store w);
        requests := requests w;
        progressCalls := progressCalls w |}).

(** [for (const x of xs) { await body(x) }] with the loop-carried locals
    [a]. *)
Fixpoint forEach {T A} (xs : list T) (body : T -> A -> M A) (a : A) : M A :=
  match xs with
  | [] => ret a
  | x :: rest => a' <- body x a ;; forEach rest body a'
  end.

(** [chunkArray(array, size)]:
    [for (let i = 0; i < array.length; i += size)
       chunks.push(array.slice(i, i + size))].
    The loop runs at most [array.length] times when [size >= 1]. *)
Fixpoint chunkArrayFrom {T} (fuel : nat) (array : list T) (size i : nat)
  : list (list T) :=
  match fuel with
  | O => []
  | S fuel' =>
      if Nat.ltb i (length array)
      then Js.arraySlice array i (i + size)
             :: chunkArrayFrom fuel' array size (i + size)
      else []
  end.

Definition chunkArray {T} (array : list T) (size : nat) : list (list T) :=
  chunkArrayFrom (length array) array size 0.

(* ===================================================================== *)
(** ** localforage *)
(* ===================================================================== *)

Module LocalForage.

(** What an iterator callback hands back to [iterate]: [undefined], or any
    other value. *)
Inductive IterResult := Undefined | Defined.

Fixpoint iteratePairs {V A}
    (iterator : V -> string -> A -> A * IterResult)
    (pairs : list (string * V)) (a : A) : A :=
  match pairs with
  | [] => a
  | (key, value) :: rest =>
      match iterator value key a with
      | (a', Undefined) => iteratePairs iterator rest a'
      | (a', Defined) => a'
      end
  end.

(** [db.iterate(iterator)]: the iterator is called on the pairs of the
    store, in the store's order, until it returns something other than
    [undefined]; the iteration then stops at once.  [A] holds the locals
    that the iterator captures. *)
Definition iterate {V A} (db : gmap string V)
    (iterator : V -> string -> A -> A * IterResult) (a : A) : A :=
  iteratePairs iterator (map_to_list db) a.

(** [db.setItem(key, value)], [db.removeItem(key)], [db.getItem(key)],
    [db.length()], [db.clear()] *)
Definition setItem {V} (key : string) (value : V) (db : gmap string V) :=
  <[key := value]> db.
Definition removeItem {V} (key : string) (db : gmap string V) :=
  delete key db.
Definition getItem {V} (key : string) (db : gmap string V) : option V :=
  db !! key.
Definition length {V} (db : gmap string V) : nat := size db.
Definition clear {V} (db : gmap string V) : gmap string V := ∅.

End LocalForage.

Definition onFileIndex
    (f : gmap string FileIndexEntry.t -> gmap string FileIndexEntry.t)
    (s : Store) : Store :=
  {| fileIndex := f (fileIndex s);
     dirMtimeStore := dirMtimeStore s;
     progressStore := progressStore s |}.

Definition onDirMtime
    (f : gmap string DirMtimeEntry.t -> gmap string DirMtimeEntry.t)
    (s : Store) : Store :=
  {| fileIndex := fileIndex s;
     dirMtimeStore := f (dirMtimeStore s);
     progressStore := progressStore s |}.

Definition onProgressStore
    (f : option SyncProgress.t -> option SyncProgress.t) (s : Store) : Store :=
  {| fileIndex := fileIndex s;
     dirMtimeStore := dirMtimeStore s;
     progressStore := f (progressStore s) |}.

(* ===================================================================== *)
(** ** FileIndexStore *)
(* ===================================================================== *)

Module FileIndexStore.

Definition BATCH_SIZE : nat := 1000.

Definition get (path : string) : M (option FileIndexEntry.t) :=
  gets (fun s => LocalForage.getItem path (fileIndex s)).

Definition set (entry : FileIndexEntry.t) : M unit :=
  modify (onFileIndex
            (LocalForage.setItem (FileIndexEntry.path entry) entry)).

Definition delete (path : string) : M unit :=
  modify (onFileIndex (LocalForage.removeItem path)).

(** [batchSet]: batches of [BATCH_SIZE], each batch a [Promise.all] of
    [setItem(entry.path, entry)]. *)
Definition batchSet (entries : list FileIndexEntry.t) : M unit :=
  forEach (chunkArray entries BATCH_SIZE)
    (fun batch _ => forEach batch (fun entry _ => set entry) tt) tt.

Definition batchDelete (paths : list string) : M unit :=
  forEach (chunkArray paths BATCH_SIZE)
    (fun batch _ => forEach batch (fun path _ => delete path) tt) tt.

(** The iterator of [getByParent]; its locals are [results], [count] and
    [skipped].  It returns [undefined] on every path, also where the
    source means to stop. *)
Definition getByParentIterator (parentPath : string) (offset limit : nat)
    (value : FileIndexEntry.t) (key : string)
    (locals : list FileIndexEntry.t * nat * nat)
  : (list FileIndexEntry.t * nat * nat) * LocalForage.IterResult :=
  let '(results, count, skipped) := locals in
  if String.eqb (FileIndexEntry.parentPath value) parentPath then
    let '(results, count, skipped) :=
      if Nat.ltb skipped offset then (results, count, S skipped)
      else if Nat.ltb count limit then (results ++ [value], S count, skipped)
      else (results, count, skipped) in
    if Nat.leb limit count
    then ((results, count, skipped), LocalForage.Undefined)
    else ((results, count, skipped), LocalForage.Undefined)
  else ((results, count, skipped), LocalForage.Undefined).

Definition getByParentIn (db : gmap string FileIndexEntry.t)
    (parentPath : string) (offset limit : nat) : list FileIndexEntry.t :=
  fst (fst (LocalForage.iterate db
              (getByParentIterator parentPath offset limit) ([], O, O))).

(** [getByParent(parentPath, offset = 0, limit = 1000)] *)
Definition getByParent (parentPath : string) (offset limit : nat)
  : M (list FileIndexEntry.t) :=
  gets (fun s => getByParentIn (fileIndex s) parentPath offset limit).

Definition getByPrefix (prefix : string) : M (list FileIndexEntry.t) :=
  let normalizedPrefix :=
    if Js.endsWith prefix "/" then prefix else prefix +:+ "/" in
  gets (fun s =>
    LocalForage.iterate (fileIndex s)
      (fun value key results =>
         if String.eqb key prefix || Js.startsWith key normalizedPrefix
         then (results ++ [value], LocalForage.Undefined)
         else (results, LocalForage.Undefined)) []).

Definition getModifiedAfter (timestamp : Z) : M (list FileIndexEntry.t) :=
  gets (fun s =>
    LocalForage.iterate (fileIndex s)
      (fun value key results =>
         if Z.ltb timestamp (FileIndexEntry.mtime value)
         then (results ++ [value], LocalForage.Undefined)
         else (results, LocalForage.Undefined)) []).

(** The iterator that [iterateAll] hands to [db.iterate] is an [async]
    function.  Calling it runs [callback] on the entry and yields a
    Promise: whatever the body returns, also the [undefined] of its
    [shouldContinue === false] branch, what [db.iterate] receives is the
    Promise, which is not [undefined]. *)
Definition iterateAllIterator {A}
    (callback : FileIndexEntry.t -> A -> A * option bool)
    (value : FileIndexEntry.t) (key : string) (locals : A)
  : A * LocalForage.IterResult :=
  let '(locals', shouldContinue) := callback value locals in
  match shouldContinue with
  | Some false => (locals', LocalForage.Defined)
  | _ => (locals', LocalForage.Defined)
  end.

(** [iterateAll(callback)]; [callback] returns [boolean | void], and [A]
    holds the locals it captures. *)
Definition iterateAll {A}
    (callback : FileIndexEntry.t -> A -> A * option bool) (locals : A)
  : M A :=
  gets (fun s =>
    LocalForage.iterate (fileIndex s) (iterateAllIterator callback) locals).

Definition count : M nat :=
  gets (fun s => LocalForage.length (fileIndex s)).

Definition getAllDirsIn (db : gmap string FileIndexEntry.t) : list string :=
  LocalForage.iterate db
    (fun value key dirs =>
       if FileIndexEntry.isDir value
       then (dirs ++ [FileIndexEntry.path value], LocalForage.Undefined)
       else (dirs, LocalForage.Undefined)) [].

Definition getAllDirs : M (list string) :=
  gets (fun s => getAllDirsIn (fileIndex s)).

Definition clear : M unit := modify (onFileIndex LocalForage.clear).

Definition getAllPaths : M (list string) :=
  gets (fun s =>
    LocalForage.iterate (fileIndex s)
      (fun value key paths => (JsSet.add key paths, LocalForage.Undefined))
      []).

End FileIndexStore.

(* ===================================================================== *)
(** ** DirMtimeStore and SyncProgressStore *)
(* ===================================================================== *)

Module DirMtimeStore.

Definition get (path : string) : M (option DirMtimeEntry.t) :=
  gets (fun s => LocalForage.getItem path (dirMtimeStore s)).

Definition set (entry : DirMtimeEntry.t) : M unit :=
  modify (onDirMtime (LocalForage.setItem (DirMtimeEntry.path entry) entry)).

Definition batchSet (entries : list DirMtimeEntry.t) : M unit :=
  forEach entries (fun entry _ => set entry) tt.

Definition delete (path : string) : M unit :=
  modify (onDirMtime (LocalForage.removeItem path)).

(** [getAll()]: a [Map] filled from the store; the detector reads it with
    [size] and [get] only, so the finite map itself stands for it. *)
Definition getAll : M (gmap string DirMtimeEntry.t) :=
  gets (fun s => dirMtimeStore s).

Definition clear : M unit := modify (onDirMtime LocalForage.clear).

End DirMtimeStore.

Module SyncProgressStore.

Definition get : M (option SyncProgress.t) :=
  gets (fun s => progressStore s).

Definition save (progress : SyncProgress.t) : M unit :=
  modify (onProgressStore (fun _ => Some progress)).

Definition clear : M unit := modify (onProgressStore (fun _ => None)).

End SyncProgressStore.

(* ===================================================================== *)
(** ** RemoteDeltaDetectorService *)
(* ===================================================================== *)

(** The world after one more PROPFIND request. *)
Definition logRequest (path : string) (depth : Depth) (w : World) : World :=
  {| store := store w;
     requests := requests w ++ [(path, depth)];
     progressCalls := progressCalls w |}.

(** The locals that [detectChanges] shares with the recursive calls of
    [detectDirChanges]: the array [changedDirs] and the counter
    [scannedDirs] behind [onScanned]. *)
Record DetectLocals := mkDetectLocals
  { dl_changedDirs : list string;
    dl_scannedDirs : nat }.

(** The locals of [fullScan] that its [onBatch] closure updates. *)
Record ScanLocals := mkScanLocals
  { sl_fileCount : nat;
    sl_dirCount : nat;
    sl_dirMtimes : list DirMtimeEntry.t }.

Section Detector.

Variable env : Env.

(** [options.concurrency || 5] *)
Definition concurrency : nat :=
  match concurrencyOption env with
  | Some (S n) => S n
  | _ => 5%nat
  end.

(** [propfind(path, depth)]: one request, which joins the log, and what it
    resolves to. *)
Definition propfind (path : string) (depth : Depth)
  : M (list StatModel.t) :=
  fun w =>
    match remote env path depth with
    | Some contents => (Ret contents, logRequest path depth w)
    | None => (Throw TransportError, logRequest path depth w)
    end.

Definition statDir (path : string) : M (option Z) :=
  tryCatch
    (result <- propfind path Depth0 ;;
     match result with
     | [] => ret None
     | first :: _ => ret (Some (Js.orZero (StatModel.mtime first)))
     end)
    (ret None).

Definition getSubDirs (path : string) : M (list string) :=
  tryCatch
    (contents <- propfind path Depth1 ;;
     ret (map StatModel.path
            (List.filter
               (fun item =>
                  StatModel.isDir item
                  && negb (String.eqb (StatModel.path item) path))
               contents)))
    (ret []).

Definition listDir (path : string) : M (list StatModel.t) :=
  tryCatch
    (contents <- propfind path Depth1 ;;
     ret (List.filter
            (fun item => negb (String.eqb (StatModel.path item) path))
            contents))
    (ret []).

Definition isModified (cached : FileIndexEntry.t) (remote : StatModel.t)
  : bool :=
  if negb (Bool.eqb (FileIndexEntry.isDir cached) (StatModel.isDir remote))
  then true
  else if negb (StatModel.isDir remote)
          && negb (Z.eqb (FileIndexEntry.mtime cached)
                         (StatModel.mtime remote))
  then true
  else if negb (StatModel.isDir remote)
          && negb (Z.eqb (FileIndexEntry.size cached)
                         (StatModel.size remote))
  then true
  else false.

(** The first loop of [scanDirForChanges], over the entries of
    [remoteMap]. *)
Definition addedAndModified
    (remoteMap : JsMap.t StatModel.t) (cachedMap : JsMap.t FileIndexEntry.t)
  : list RemoteChange.t :=
  fold_left
    (fun changes entry =>
       let '(path, remoteStat) := entry in
       match JsMap.get path cachedMap with
       | None =>
           changes ++ [RemoteChange.mk path added (Some remoteStat)]
       | Some cached =>
           if isModified cached remoteStat
           then changes ++ [RemoteChange.mk path modified (Some remoteStat)]
           else changes
       end)
    remoteMap [].

(** The second loop, over the entries of [cachedMap]. *)
Definition deletedOnes
    (remoteMap : JsMap.t StatModel.t) (cachedMap : JsMap.t FileIndexEntry.t)
    (changes : list RemoteChange.t) : list RemoteChange.t :=
  fold_left
    (fun changes entry =>
       let '(path, cached) := entry in
       if negb (JsMap.has path remoteMap)
       then changes ++ [RemoteChange.mk path deleted None]
       else changes)
    cachedMap changes.

Definition scanDirForChanges (dirPath : string) : M (list RemoteChange.t) :=
  remoteFiles <- listDir dirPath ;;
  let remoteMap :=
    JsMap.ofList (map (fun f => (StatModel.path f, f)) remoteFiles) in
  cachedFiles <- FileIndexStore.getByParent dirPath 0 1000 ;;
  let cachedMap :=
    JsMap.ofList (map (fun f => (FileIndexEntry.path f, f)) cachedFiles) in
  ret (deletedOnes remoteMap cachedMap (addedAndModified remoteMap cachedMap)).

Definition cachedMtimeIs
    (cachedMtimes : gmap string DirMtimeEntry.t) (dirPath : string)
    (current : Z) : bool :=
  match cachedMtimes !! dirPath with
  | Some cached => Z.eqb (DirMtimeEntry.mtime cached) current
  | None => false
  end.

Fixpoint detectDirChanges (fuel : nat) (dirPath : string)
    (cachedMtimes : gmap string DirMtimeEntry.t) (locals : DetectLocals)
  : M DetectLocals :=
  match fuel with
  | O => throw FuelExhausted
  | S fuel' =>
      (* onScanned() *)
      let locals :=
        mkDetectLocals (dl_changedDirs locals) (S (dl_scannedDirs locals)) in
      currentStat <- statDir dirPath ;;
      match currentStat with
      | None =>
          ret (mkDetectLocals (dl_changedDirs locals ++ [dirPath])
                              (dl_scannedDirs locals))
      | Some currentMtime =>
          if cachedMtimeIs cachedMtimes dirPath currentMtime
          then ret locals
          else
            let locals :=
              mkDetectLocals (dl_changedDirs locals ++ [dirPath])
                             (dl_scannedDirs locals) in
            subDirs <- getSubDirs dirPath ;;
            forEach (chunkArray subDirs concurrency)
              (fun chunk locals =>
                 forEach chunk
                   (fun subDir locals =>
                      detectDirChanges fuel' subDir cachedMtimes locals)
                   locals)
              locals
      end
  end.

Definition detectChanges (fuel : nat) : M DeltaDetectionResult.t :=
  cachedDirMtimes <- DirMtimeStore.getAll ;;
  if Nat.eqb (size cachedDirMtimes) 0
  then ret (DeltaDetectionResult.mk [] true 0 0)
  else
    locals <- detectDirChanges fuel (remoteBaseDir env) cachedDirMtimes
                (mkDetectLocals [] 0) ;;
    changes <-
      (if Nat.ltb 0 (length (dl_changedDirs locals))
       then forEach (dl_changedDirs locals)
              (fun dir changes =>
                 dirChanges <- scanDirForChanges dir ;;
                 ret (changes ++ dirChanges))
              []
       else ret []) ;;
    ret (DeltaDetectionResult.mk changes false (dl_scannedDirs locals)
           (length (dl_changedDirs locals))).

(** The entry that [fullScan] writes for a listed resource. *)
Definition scannedEntry (stat : StatModel.t) : FileIndexEntry.t :=
  {| FileIndexEntry.path := StatModel.path stat;
     FileIndexEntry.basename := StatModel.basename stat;
     FileIndexEntry.isDir := StatModel.isDir stat;
     FileIndexEntry.mtime := Js.orZero (StatModel.mtime stat);
     FileIndexEntry.size :=
       if StatModel.isDir stat then 0 else StatModel.size stat;
     FileIndexEntry.etag := None;
     FileIndexEntry.contentHash := None;
     FileIndexEntry.lastSynced := 0;
     FileIndexEntry.parentPath := Js.dirname (StatModel.path stat) |}.

(** The [onBatch] closure of [fullScan]. *)
Definition fullScanBatch (onProgress : option (nat -> string -> M unit))
    (entries : list StatModel.t) (dirPath : string) (dirMtime : Z)
    (locals : ScanLocals) : M ScanLocals :=
  let fileEntries := map scannedEntry entries in
  FileIndexStore.batchSet fileEntries ;;;
  let dirMtimes :=
    sl_dirMtimes locals
      ++ [DirMtimeEntry.mk dirPath dirMtime (now env) (length entries)] in
  let fileCount :=
    (sl_fileCount locals
     + length (List.filter (fun e => negb (StatModel.isDir e)) entries))%nat in
  let dirCount :=
    (sl_dirCount locals
     + length (List.filter (fun e => StatModel.isDir e) entries))%nat in
  match onProgress with
  | Some notify => notify (fileCount + dirCount)%nat dirPath
  | None => ret tt
  end ;;;
  ret (mkScanLocals fileCount dirCount dirMtimes).

Fixpoint scanDirRecursive {L} (fuel : nat) (dirPath : string)
    (onBatch : list StatModel.t -> string -> Z -> L -> M L) (locals : L)
  : M L :=
  match fuel with
  | O => throw FuelExhausted
  | S fuel' =>
      contents <- propfind dirPath Depth1 ;;
      let dirStat :=
        List.find (fun c => String.eqb (StatModel.path c) dirPath) contents in
      let dirMtime :=
        match dirStat with
        | Some c => Js.orZero (StatModel.mtime c)
        | None => 0
        end in
      let items :=
        List.filter
          (fun c => negb (String.eqb (StatModel.path c) dirPath)) contents in
      locals <- onBatch items dirPath dirMtime locals ;;
      let subDirs := List.filter (fun item => StatModel.isDir item) items in
      forEach (chunkArray subDirs concurrency)
        (fun chunk locals =>
           forEach chunk
             (fun subDir locals =>
                scanDirRecursive fuel' (StatModel.path subDir) onBatch locals)
             locals)
        locals
  end.

(** [fullScan(onProgress)]; returns [(fileCount, dirCount)]. *)
Definition fullScan (fuel : nat)
    (onProgress : option (nat -> string -> M unit)) : M (nat * nat) :=
  FileIndexStore.clear ;;;
  DirMtimeStore.clear ;;;
  locals <- scanDirRecursive fuel (remoteBaseDir env)
              (fullScanBatch onProgress) (mkScanLocals 0 0 []) ;;
  DirMtimeStore.batchSet (sl_dirMtimes locals) ;;;
  ret (sl_fileCount locals, sl_dirCount locals).

Definition updateDirMtimeCache (changes : list RemoteChange.t) : M unit :=
  let affectedDirs :=
    fold_left
      (fun dirs change => JsSet.add (Js.dirname (RemoteChange.path change)) dirs)
      changes [] in
  forEach affectedDirs
    (fun dirPath _ =>
       stat <- statDir dirPath ;;
       match stat with
       | Some mtime =>
           DirMtimeStore.set (DirMtimeEntry.mk dirPath mtime (now env) 0)
       | None => ret tt
       end)
    tt.

(** The entry that [updateFileIndex] writes for a change that carries a
    [stat]. *)
Definition changedEntry (path : string) (stat : StatModel.t)
  : FileIndexEntry.t :=
  {| FileIndexEntry.path := path;
     FileIndexEntry.basename := StatModel.basename stat;
     FileIndexEntry.isDir := StatModel.isDir stat;
     FileIndexEntry.mtime := Js.orZero (StatModel.mtime stat);
     FileIndexEntry.size :=
       if StatModel.isDir stat then 0 else StatModel.size stat;
     FileIndexEntry.etag := None;
     FileIndexEntry.contentHash := None;
     FileIndexEntry.lastSynced := now env;
     FileIndexEntry.parentPath := Js.dirname path |}.

(** The loop of [updateFileIndex]; its locals are [toSet] and
    [toDelete]. *)
Definition partitionChanges (changes : list RemoteChange.t)
  : list FileIndexEntry.t * list string :=
  fold_left
    (fun locals change =>
       let '(toSet, toDelete) := locals in
       match RemoteChange.type change with
       | deleted => (toSet, toDelete ++ [RemoteChange.path change])
       | _ =>
           match RemoteChange.stat change with
           | Some stat =>
               (toSet ++ [changedEntry (RemoteChange.path change) stat],
                toDelete)
           | None => (toSet, toDelete)
           end
       end)
    changes ([], []).

Definition updateFileIndex (changes : list RemoteChange.t) : M unit :=
  let '(toSet, toDelete) := partitionChanges changes in
  (if Nat.ltb 0 (length toSet)
   then FileIndexStore.batchSet toSet else ret tt) ;;;
  (if Nat.ltb 0 (length toDelete)
   then FileIndexStore.batchDelete toDelete else ret tt).

(** [getStats()] of the detector; returns [(fileCount, dirCount)]. *)
Definition detectorGetStats : M (nat * nat) :=
  allPaths <- FileIndexStore.getAllDirs ;;
  totalCount <- FileIndexStore.count ;;
  ret ((totalCount - length allPaths)%nat, length allPaths).

End Detector.

(* ===================================================================== *)
(** ** IncrementalWebDAVFileSystem *)
(* ===================================================================== *)

Record IndexStats := mkIndexStats
  { fileCount : nat;
    dirCount : nat;
    hasIndex : bool }.

Section Driver.

Variable env : Env.

(** [options.onProgress(phase, current, total)], observed through the
    log of the world. *)
Definition notifyProgress (phase : string) (current total : nat) : M unit :=
  fun w =>
    (Ret tt,
     {| store := store w;
        requests := requests w;
        progressCalls := progressCalls w ++ [(phase, current, total)] |}).

(** The callback that [getFromIndex] hands to [iterateAll]; its local is
    the array [stats]. *)
Definition getFromIndexCallback (base : string) (entry : FileIndexEntry.t)
    (stats : list StatModel.t) : list StatModel.t * option bool :=
  let path := FileIndexEntry.path entry in
  let path := decodeHtmlEntity env path in
  let path := if Js.endsWith path "/" then Js.dropLast path else path in
  let path := if negb (Js.startsWith path "/") then "/" +:+ path else path in
  if negb (isSub env base path) then (stats, Some true)
  else
    let relativePath := Js.removeFirst (remoteBaseDir env) path in
    let relativePath :=
      if Js.startsWith relativePath "/"
      then Js.sliceFrom relativePath 1 else relativePath in
    if FileIndexEntry.isDir entry then
      (stats ++ [StatModel.mk relativePath (FileIndexEntry.basename entry)
                   true false (FileIndexEntry.mtime entry) 0],
       Some true)
    else
      (stats ++ [StatModel.mk relativePath (FileIndexEntry.basename entry)
                   false false (FileIndexEntry.mtime entry)
                   (FileIndexEntry.size entry)],
       Some true).

Definition getFromIndex : M (list StatModel.t) :=
  let base := stdRemotePath env (remoteBaseDir env) in
  stats <- FileIndexStore.iterateAll (getFromIndexCallback base) [] ;;
  let filteredStats :=
    List.filter (fun item => needInclude env (StatModel.path item)) stats in
  ret (completeLossDir env stats filteredStats).

(** [fullScan()] of the driver. *)
Definition driverFullScan (fuel : nat) : M (list StatModel.t) :=
  let startTime := now env in
  SyncProgressStore.save
    {| SyncProgress.sessionId := "scan_" +:+ pretty startTime;
       SyncProgress.startTime := startTime;
       SyncProgress.phase := scanning;
       SyncProgress.processedCount := 0;
       SyncProgress.totalCount := 0;
       SyncProgress.currentPath := remoteBaseDir env;
       SyncProgress.pendingTasks := [];
       SyncProgress.completedTasks := [];
       SyncProgress.failedTasks := [] |} ;;;
  result <- fullScan env fuel
              (Some (fun scanned currentPath =>
                       notifyProgress "scanning" scanned 0)) ;;
  SyncProgressStore.clear ;;;
  getFromIndex.

Definition applyChanges (changes : list RemoteChange.t) : M unit :=
  updateFileIndex env changes ;;;
  updateDirMtimeCache env changes.

Definition walk (fuel : nat) : M (list StatModel.t) :=
  savedProgress <- SyncProgressStore.get ;;
  indexCount <- FileIndexStore.count ;;
  if Nat.eqb indexCount 0 then driverFullScan fuel
  else
    deltaResult <- detectChanges env fuel ;;
    if DeltaDetectionResult.needFullScan deltaResult
    then driverFullScan fuel
    else if Nat.eqb (length (DeltaDetectionResult.changes deltaResult)) 0
    then getFromIndex
    else
      applyChanges (DeltaDetectionResult.changes deltaResult) ;;;
      getFromIndex.

(** [getStats()] of the driver. *)
Definition getStats : M IndexStats :=
  count <- FileIndexStore.count ;;
  if Nat.eqb count 0 then ret (mkIndexStats 0 0 false)
  else
    stats <- detectorGetStats ;;
    ret (mkIndexStats (fst stats) (snd stats) true).

Definition clearIndex : M unit :=
  FileIndexStore.clear ;;;
  DirMtimeStore.clear ;;;
  SyncProgressStore.clear.

Definition rebuildIndex (fuel : nat) : M unit :=
  clearIndex ;;;
  driverFullScan fuel ;;;
  ret tt.

End Driver.

(* ===================================================================== *)
(** ** The endpoint and the base path of the server (consts.ts) *)
(* ===================================================================== *)

(** [basename] of path-browserify, which shares its backwards scan with
    [dirname]. *)
Module PathBrowserify.

(** The loop of [basename(path)], called without [ext]:
    [for (i = path.length - 1; i >= 0; --i)], with the locals [start],
    [end] and [matchedSlash].  [n] is [i + 1]; the result is [start] and
    [end], where [None] stands for the [-1] of an [end] that was never
    set. *)
Fixpoint basenameScan (path : string) (n : nat) (matchedSlash : bool)
    (e : option nat) : nat * option nat :=
  match n with
  | O => (O, e)
  | S i =>
      if Js.isSlashAt path i then
        if negb matchedSlash then (S i, e)
        else basenameScan path i matchedSlash e
      else
        match e with
        | None => basenameScan path i false (Some (S i))
        | Some _ => basenameScan path i matchedSlash e
        end
  end.

Definition basename (path : string) : string :=
  match basenameScan path (String.length path) true None with
  | (start, Some e) => Js.slice path start e
  | (_, None) => EmptyString
  end.

End PathBrowserify.

(** [s.replace(/\/+$/, '')]: the pattern matches the longest run of slashes
    that ends the string, when there is one, and that match is removed. *)
Fixpoint stripTrailingSlashes (s : string) : string :=
  match s with
  | EmptyString => EmptyString
  | String c rest =>
      let kept := stripTrailingSlashes rest in
      if Ascii.eqb c Js.slash && String.eqb kept EmptyString
      then EmptyString
      else String c kept
  end.

(** [ServerType], and the fields of [NutstoreSettings] that select the
    server (settings/index.ts). *)
Inductive ServerType := NUTSTORE | WEBDAV.

Module NutstoreSettings.
Record t := mk
  { serverType : ServerType;
    webdavServerUrl : string;
    webdavBasePath : string }.
End NutstoreSettings.

(** [serverType === ServerType.WEBDAV] *)
Definition isWebDAV (serverType : ServerType) : bool :=
  match serverType with WEBDAV => true | NUTSTORE => false end.

Section Consts.

(** [NS_DAV_ENDPOINT], fixed when the plugin is built. *)
Variable NS_DAV_ENDPOINT : string.

Definition getWebDAVEndpoint (settings : NutstoreSettings.t) : string :=
  if isWebDAV (NutstoreSettings.serverType settings)
     && negb (String.eqb (NutstoreSettings.webdavServerUrl settings) "")
  then stripTrailingSlashes (NutstoreSettings.webdavServerUrl settings)
  else NS_DAV_ENDPOINT.

End Consts.

Definition getWebDAVBasePath (settings : NutstoreSettings.t) : string :=
  if isWebDAV (NutstoreSettings.serverType settings) then
    let basePath :=
      if String.eqb (NutstoreSettings.webdavBasePath settings) ""
      then "/" else NutstoreSettings.webdavBasePath settings in
    let normalized :=
      if Js.startsWith basePath "/" then basePath else "/" +:+ basePath in
    if negb (String.eqb normalized "/") && Js.endsWith normalized "/"
    then Js.dropLast normalized
    else normalized
  else "/dav".

Definition isNutstoreServer (settings : NutstoreSettings.t) : bool :=
  negb (isWebDAV (NutstoreSettings.serverType settings)).

Definition supportsDeltaAPI (settings : NutstoreSettings.t) : bool :=
  isNutstoreServer settings.

(* ===================================================================== *)
(** ** [parsePropfindResponse] of the detector *)
(* ===================================================================== *)

(** What the XML parser hands over for an element that the sources read
    through optional chaining, such as [props?.resourcetype?.collection]:
    [undefined] when the element is missing, the empty string when it is
    there and has no content (fast-xml-parser gives [''] for [<collection/>],
    with or without attributes, which the parser is not asked to keep), and
    a non-empty string, an object or an array when it has content or comes
    more than once. *)
Inductive XmlValue := Missing | EmptyElement | WithContent.

(** [!!value]: [undefined] and the empty string are falsy. *)
Definition truthy (value : XmlValue) : bool :=
  match value with
  | WithContent => true
  | Missing | EmptyElement => false
  end.

(** One [response] element of a multistatus answer, as the XML parser
    hands it over: [href] is [item.href]; [collection] is
    [props?.resourcetype?.collection]; [getlastmodified] and
    [getcontentlength] are the two properties when they are present and
    not empty. *)
Module PropfindItem.
Record t := mk
  { href : string;
    collection : XmlValue;
    getlastmodified : option string;
    getcontentlength : option string }.
End PropfindItem.

(** [result.multistatus?.response]: absent, one element, or an array. *)
Inductive Responses :=
| NoResponse
| OneResponse (item : PropfindItem.t)
| ManyResponses (items : list PropfindItem.t).

Section ParsePropfind.

(** [decodeURIComponent], [new Date(text).valueOf()] and
    [parseInt(text, 10)]. *)
Variable decodeURIComponent : string -> string.
Variable dateValueOf : string -> Z.
Variable parseInt10 : string -> Z.

(** [this.basePath] of the detector. *)
Variable basePath : string.

(** The path given to the resource at the decoded [href]. *)
Definition itemPath (href : string) : string :=
  let filePath :=
    if String.eqb basePath "/" then href
    else if Js.startsWith href basePath
         then Js.sliceFrom href (String.length basePath)
         else href in
  let filePath :=
    if negb (Js.startsWith filePath "/") then "/" +:+ filePath else filePath in
  if Js.endsWith filePath "/" && negb (String.eqb filePath "/")
  then Js.dropLast filePath
  else filePath.

(** The callback of [items.map]. *)
Definition parsePropfindItem (item : PropfindItem.t) : StatModel.t :=
  let href := decodeURIComponent (PropfindItem.href item) in
  let isDir := truthy (PropfindItem.collection item) in
  let filePath := itemPath href in
  let mtime :=
    match PropfindItem.getlastmodified item with
    | Some text => dateValueOf text
    | None => 0
    end in
  let size :=
    match PropfindItem.getcontentlength item with
    | Some text => parseInt10 text
    | None => 0
    end in
  if isDir then
    {| StatModel.path := filePath;
       StatModel.basename :=
         if String.eqb (PathBrowserify.basename filePath) "" then filePath
         else PathBrowserify.basename filePath;
       StatModel.isDir := true;
       StatModel.isDeleted := false;
       StatModel.mtime := mtime;
       StatModel.size := 0 |}
  else
    {| StatModel.path := filePath;
       StatModel.basename := PathBrowserify.basename filePath;
       StatModel.isDir := false;
       StatModel.isDeleted := false;
       StatModel.mtime := mtime;
       StatModel.size := size |}.

(** [parsePropfindResponse], from the parsed document on. *)
Definition parsePropfindResponse (responses : Responses) : list StatModel.t :=
  match responses with
  | NoResponse => []
  | OneResponse item => [parsePropfindItem item]
  | ManyResponses items => map parsePropfindItem items
  end.

End ParsePropfind.

(** The items of [result.multistatus?.response]. *)
Definition itemsOf (responses : Responses) : list PropfindItem.t :=
  match responses with
  | NoResponse => []
  | OneResponse item => [item]
  | ManyResponses items => items
  end.

(** What [propfind] calls besides the code of the detector: the server
    behind [requestUrl], with the XML parser on its answer, and three
    functions of the language. *)
Record Server := mkServer
  { (** [requestUrl] with the method PROPFIND for [path] and the header
        [Depth: depth], then [parser.parse(response.text)]:
        [result.multistatus?.response] of the answer, [None] when the
        request rejects *)
    requestUrl : string -> Depth -> option Responses;
    (** [decodeURIComponent] *)
    decodeURIComponent : string -> string;
    (** [new Date(text).valueOf()] *)
    dateValueOf : string -> Z;
    (** [parseInt(text, 10)] *)
    parseInt10 : string -> Z }.

(** What [propfind(path, depth)] of a detector with [this.basePath =
    basePath] resolves to against [server]: the answer to the request, run
    through [parsePropfindResponse]. *)
Definition propfindAnswer (server : Server) (basePath : string)
    (path : string) (depth : Depth) : option (list StatModel.t) :=
  match requestUrl server path depth with
  | Some responses =>
      Some (parsePropfindResponse (decodeURIComponent server)
              (dateValueOf server) (parseInt10 server) basePath responses)
  | None => None
  end.

(* ===================================================================== *)
(** ** NutstoreFileSystem (fs/nutstore.ts) *)
(* ===================================================================== *)

Module NutstoreFileSystem.

(** An instance.  [incrementalFS] is set by the constructor; the
    incremental file system is given by the environment it works in.
    [options.settings] is the settings object of the plugin: the instance
    shares it, and every call reads it as it is at the call. *)
Record t := mk { incrementalFS : option Env }.

(** [new NutstoreFileSystem(options)] *)
Definition new (settings : NutstoreSettings.t) (incremental : Env) : t :=
  {| incrementalFS :=
       if isWebDAV (NutstoreSettings.serverType settings)
       then Some incremental else None |}.

Section Methods.

(** [walkWithDeltaMode()] and [walkWithStandardMode()], which call the
    Delta API and the full traversal of the remote. *)
Variable walkWithDeltaMode : M (list StatModel.t).
Variable walkWithStandardMode : M (list StatModel.t).

Variable this : t.

Definition walkWithIncrementalMode (fuel : nat) : M (list StatModel.t) :=
  match incrementalFS this with
  | Some incremental => walk incremental fuel
  | None => walkWithStandardMode
  end.

(** [walk()], with the settings as they are at the call. *)
Definition walk (settings : NutstoreSettings.t) (fuel : nat)
  : M (list StatModel.t) :=
  if supportsDeltaAPI settings then walkWithDeltaMode
  else walkWithIncrementalMode fuel.

End Methods.

Definition getIndexStats (this : t) : M (option IndexStats) :=
  match incrementalFS this with
  | Some _ => stats <- getStats ;; ret (Some stats)
  | None => ret None
  end.

Definition clearIndex (this : t) : M unit :=
  match incrementalFS this with
  | Some _ => clearIndex
  | None => ret tt
  end.

Definition rebuildIndex (this : t) (fuel : nat) : M unit :=
  match incrementalFS this with
  | Some incremental => rebuildIndex incremental fuel
  | None => ret tt
  end.

End NutstoreFileSystem.

(* ===================================================================== *)
(** ** The settings page of the incremental sync (settings) *)
(* ===================================================================== *)

(** The page opens the file index and the directory-mtime cache of the
    namespace it computes from the vault name and the remote directory.
    Here they are the stores of the world, those of the driver: the page
    is taken to be opened on the namespace that the driver uses. *)
Module IncrementalSyncSettings.

(** The [try] block of [displayIndexStatus]: what the status line shows,
    [None] for the text that says there is no index, [(fileCount,
    dirCount)] otherwise. *)
Definition displayIndexStatus : M (option (nat * nat)) :=
  tryCatch
    (count <- FileIndexStore.count ;;
     if Nat.eqb count 0 then ret None
     else
       allDirs <- FileIndexStore.getAllDirs ;;
       let dirCount := length allDirs in
       let fileCount := (count - dirCount)%nat in
       ret (Some (fileCount, dirCount)))
    (ret None).

(** What the button of [displayClearIndex], and the confirmed button of
    [displayRebuildIndex], do to the stores. *)
Definition clearStores : M unit :=
  FileIndexStore.clear ;;;
  DirMtimeStore.clear.

End IncrementalSyncSettings.

(* ===================================================================== *)
(** ** Reading a world *)
(* ===================================================================== *)

Definition emptyStore : Store :=
  {| fileIndex := ∅; dirMtimeStore := ∅; progressStore := None |}.

(** A world with the given stores and empty logs. *)
Definition worldOf (s : Store) : World :=
  {| store := s; requests := []; progressCalls := [] |}.

(** The world with [index] for its file index. *)
Definition withFileIndex (index : gmap string FileIndexEntry.t) (w : World)
  : World :=
  {| store :=
       {| fileIndex := index;
          dirMtimeStore := dirMtimeStore (store w);
          progressStore := progressStore (store w) |};
     requests := requests w;
     progressCalls := progressCalls w |}.

Definition isDepth0 (request : string * Depth) : bool :=
  match snd request with Depth0 => true | Depth1 => false end.

(** The number of depth-0 PROPFIND requests in a log. *)
Definition depth0Count (log : list (string * Depth)) : nat :=
  length (List.filter isDepth0 log).

(* ===================================================================== *)
(** ** What the operations do, in one step *)
(* ===================================================================== *)

(** What [statDir], [getSubDirs] and [listDir] answer, read off the remote
    adapter. *)
Definition statOf (env : Env) (path : string) : option Z :=
  match remote env path Depth0 with
  | Some (first :: _) => Some (Js.orZero (StatModel.mtime first))
  | _ => None
  end.

Definition subDirsOf (env : Env) (path : string) : list string :=
  match remote env path Depth1 with
  | Some contents =>
      map StatModel.path
        (List.filter
           (fun item =>
              StatModel.isDir item
              && negb (String.eqb (StatModel.path item) path))
           contents)
  | None => []
  end.

Definition listDirOf (env : Env) (path : string) : list StatModel.t :=
  match remote env path Depth1 with
  | Some contents =>
      List.filter
        (fun item => negb (String.eqb (StatModel.path item) path)) contents
  | None => []
  end.

(** The mtime that [scanDirRecursive] records for [dirPath] from its
    depth-1 listing: [dirStat?.mtime || 0]. *)
Definition listedMtime (dirPath : string) (contents : list StatModel.t) : Z :=
  match List.find (fun c => String.eqb (StatModel.path c) dirPath) contents with
  | Some c => Js.orZero (StatModel.mtime c)
  | None => 0
  end.

(** The two maps that [scanDirForChanges] compares: the current listing of
    the directory, and its cached listing. *)
Definition remoteMapOf (env : Env) (dirPath : string) : JsMap.t StatModel.t :=
  JsMap.ofList (map (fun f => (StatModel.path f, f)) (listDirOf env dirPath)).

Definition cachedMapOf (index : gmap string FileIndexEntry.t)
    (dirPath : string) : JsMap.t FileIndexEntry.t :=
  JsMap.ofList
    (map (fun f => (FileIndexEntry.path f, f))
       (FileIndexStore.getByParentIn index dirPath 0 1000)).

(** What one iteration of each loop of [scanDirForChanges] pushes. *)
Definition changeOfRemote (cachedMap : JsMap.t FileIndexEntry.t)
    (entry : string * StatModel.t) : list RemoteChange.t :=
  match JsMap.get (fst entry) cachedMap with
  | None => [RemoteChange.mk (fst entry) added (Some (snd entry))]
  | Some cached =>
      if isModified cached (snd entry)
      then [RemoteChange.mk (fst entry) modified (Some (snd entry))]
      else []
  end.

Definition changeOfCached (remoteMap : JsMap.t StatModel.t)
    (entry : string * FileIndexEntry.t) : list RemoteChange.t :=
  if negb (JsMap.has (fst entry) remoteMap)
  then [RemoteChange.mk (fst entry) deleted None]
  else [].

(** What one change contributes to [toSet] and to [toDelete] in
    [updateFileIndex]. *)
Definition entriesToSet (env : Env) (change : RemoteChange.t)
  : list FileIndexEntry.t :=
  match RemoteChange.type change with
  | deleted => []
  | _ =>
      match RemoteChange.stat change with
      | Some stat => [changedEntry env (RemoteChange.path change) stat]
      | None => []
      end
  end.

Definition pathsToDelete (change : RemoteChange.t) : list string :=
  match RemoteChange.type change with
  | deleted => [RemoteChange.path change]
  | _ => []
  end.

(** The index after [setItem(entry.path, entry)] for each of [entries], and
    after [removeItem(path)] for each of [paths], in order. *)
Definition insertAll (entries : list FileIndexEntry.t)
    (index : gmap string FileIndexEntry.t) : gmap string FileIndexEntry.t :=
  fold_left (fun m entry => <[FileIndexEntry.path entry := entry]> m)
    entries index.

Definition deleteAll (paths : list string)
    (index : gmap string FileIndexEntry.t) : gmap string FileIndexEntry.t :=
  fold_left (fun m path => delete path m) paths index.

(** The cache after [setItem(entry.path, entry)] for each of [entries]. *)
Definition insertAllDirMtimes (entries : list DirMtimeEntry.t)
    (cache : gmap string DirMtimeEntry.t) : gmap string DirMtimeEntry.t :=
  fold_left (fun m entry => <[DirMtimeEntry.path entry := entry]> m)
    entries cache.

(* ===================================================================== *)
(** ** Predicates on operations *)
(* ===================================================================== *)

(** [returns m]: [m] ends with a result, from every world. *)
Definition returns {A} (m : M A) : Prop :=
  forall w, exists a w', m w = (Ret a, w').

(** [preserves P m]: when [P] holds of the stores before [m], it holds of
    them after [m], however [m] ends. *)
Definition preserves {A} (P : Store -> Prop) (m : M A) : Prop :=
  forall w, P (store w) -> P (store (snd (m w))).

Create HintDb preserve discriminated.

(** The progress callback of [fullScan], when there is one, does not write
    to the stores. *)
Definition readOnlyProgress (onProgress : option (nat -> string -> M unit))
  : Prop :=
  forall notify scanned currentPath w,
    onProgress = Some notify ->
    store (snd (notify scanned currentPath w)) = store w.

(** Every record of the index carries [lastSynced = t]. *)
Definition allLastSynced (t : Z) (s : Store) : Prop :=
  forall p e, fileIndex s !! p = Some e -> FileIndexEntry.lastSynced e = t.

(* ===================================================================== *)
(** ** Invariant 1 and the conditions on the remote *)
(* ===================================================================== *)

(** Invariant 1 of the data model: the parent of every entry is the root,
    or the path of an entry that is a directory. *)
Definition parentIndexed (root : string)
    (index : gmap string FileIndexEntry.t) (entry : FileIndexEntry.t) : bool :=
  String.eqb (FileIndexEntry.parentPath entry) root
  || match index !! FileIndexEntry.parentPath entry with
     | Some parent => FileIndexEntry.isDir parent
     | None => false
     end.

Definition parentsIndexed (root : string)
    (index : gmap string FileIndexEntry.t) : bool :=
  forallb (fun kv => parentIndexed root index (snd kv)) (map_to_list index).

(** Invariant 1 for one record, as a proposition. *)
Definition parentOk (root : string) (index : gmap string FileIndexEntry.t)
    (entry : FileIndexEntry.t) : Prop :=
  FileIndexEntry.parentPath entry = root
  \/ exists parent,
       index !! FileIndexEntry.parentPath entry = Some parent
       /\ FileIndexEntry.isDir parent = true.

(** The remote tree is well founded: [rank] decreases from a directory to
    the directories that its depth-1 listing names. *)
Definition wellFoundedRemote (env : Env) (rank : string -> nat) : Prop :=
  forall dirPath subDir,
    In subDir (subDirsOf env dirPath) -> (rank subDir < rank dirPath)%nat.

(** The depth-1 listing of [dirPath] names [dirPath] itself, with the mtime
    that the depth-0 answer reports. *)
Definition selfListed (env : Env) (dirPath : string) : Prop :=
  exists self rest contents listed,
    remote env dirPath Depth0 = Some (self :: rest)
    /\ remote env dirPath Depth1 = Some contents
    /\ List.find (fun c => String.eqb (StatModel.path c) dirPath) contents
       = Some listed
    /\ StatModel.mtime listed = StatModel.mtime self.

(** Every resource that a depth-1 listing names besides the directory
    itself has that directory for its [dirname]. *)
Definition listsChildren (env : Env) : Prop :=
  forall dirPath contents item,
    remote env dirPath Depth1 = Some contents ->
    In item contents ->
    StatModel.path item <> dirPath ->
    Js.dirname (StatModel.path item) = dirPath.

(** A depth-1 listing does not name one path with two different sets of
    properties. *)
Definition listsOnce (env : Env) : Prop :=
  forall dirPath contents item1 item2,
    remote env dirPath Depth1 = Some contents ->
    In item1 contents -> In item2 contents ->
    StatModel.path item1 = StatModel.path item2 ->
    item1 = item2.

(** [item] is named at the path [p] by the depth-1 listing of the parent
    of [p]. *)
Definition listedAt (env : Env) (p : string) (item : StatModel.t) : Prop :=
  exists contents,
    remote env (Js.dirname p) Depth1 = Some contents
    /\ In item contents
    /\ StatModel.path item = p
    /\ p <> Js.dirname p.

(** What holds of the index all along a full scan: every record is the one
    the scan writes for a listed resource, and satisfies invariant 1. *)
Definition scanInvariant (env : Env) (index : gmap string FileIndexEntry.t)
  : Prop :=
  forall p entry,
    index !! p = Some entry ->
    (exists item, listedAt env p item /\ entry = scannedEntry item)
    /\ parentOk (remoteBaseDir env) index entry.

(** [dirPath] may be scanned: it is the base directory, or a listed
    directory that the index already holds. *)
Definition scannable (env : Env) (dirPath : string)
    (index : gmap string FileIndexEntry.t) : Prop :=
  dirPath = remoteBaseDir env
  \/ ((exists item, listedAt env dirPath item /\ StatModel.isDir item = true)
      /\ is_Some (index !! dirPath)).

(** The directory-mtime entries [later] extend [earlier] by entries whose
    paths rank below [bound]. *)
Definition extendsBelow (rank : string -> nat) (bound : nat)
    (earlier later : list DirMtimeEntry.t) : Prop :=
  exists more,
    later = earlier ++ more
    /\ Forall (fun e => (rank (DirMtimeEntry.path e) < bound)%nat) more.

(* ===================================================================== *)
(** ** The environment of the scenarios *)
(* ===================================================================== *)

(** The numeral that starts [text], read in base ten. *)
Fixpoint readDecimalFrom (text : string) (value : Z) : Z :=
  match text with
  | EmptyString => value
  | String c rest =>
      let digit := Z.of_nat (nat_of_ascii c) - 48 in
      if (0 <=? digit) && (digit <=? 9)
      then readDecimalFrom rest (10 * value + digit)
      else value
  end.

Definition readDecimal (text : string) : Z := readDecimalFrom text 0.

(** The [response] element that a WebDAV server sends for [resource]: the
    [href] of a collection ends with a slash, its [resourcetype] holds the
    [collection] element, handed over as [markup], and it has no
    [getcontentlength].  The scenarios give timestamps as numbers of
    milliseconds: the server writes the numeral where a real one writes an
    HTTP date, and [dateValueOf] below reads it back. *)
Definition responseOf (markup : XmlValue) (resource : StatModel.t)
  : PropfindItem.t :=
  if StatModel.isDir resource then
    {| PropfindItem.href := StatModel.path resource +:+ "/";
       PropfindItem.collection := markup;
       PropfindItem.getlastmodified := Some (pretty (StatModel.mtime resource));
       PropfindItem.getcontentlength := None |}
  else
    {| PropfindItem.href := StatModel.path resource;
       PropfindItem.collection := Missing;
       PropfindItem.getlastmodified := Some (pretty (StatModel.mtime resource));
       PropfindItem.getcontentlength := Some (pretty (StatModel.size resource)) |}.

(** What the XML parser makes of the [response] elements of a multistatus:
    one element is handed over as it is, several as an array. *)
Definition multistatus (items : list PropfindItem.t) : Responses :=
  match items with
  | [] => NoResponse
  | [item] => OneResponse item
  | _ => ManyResponses items
  end.

(** A WebDAV server that holds the remote tree [tree], given as the list of
    its resources ([isDir] tells the collections).  A depth-0 request
    answers with the resource itself; a depth-1 request answers with the
    resource first and its immediate children after it; a request for a path
    that does not exist rejects.  Paths hold no escape, so that decoding
    leaves them as they are. *)
Definition serverOfTree (markup : XmlValue) (tree : list StatModel.t)
  : Server :=
  {| requestUrl := fun path depth =>
       match List.find (fun r => String.eqb (StatModel.path r) path) tree with
       | None => None
       | Some self =>
           match depth with
           | Depth0 => Some (multistatus [responseOf markup self])
           | Depth1 =>
               Some (multistatus
                       (map (responseOf markup)
                          (self ::
                           List.filter
                             (fun r =>
                                String.eqb (Js.dirname (StatModel.path r)) path)
                             tree)))
           end
       end;
     decodeURIComponent := fun text => text;
     dateValueOf := readDecimal;
     parseInt10 := readDecimal |}.

(** What [propfind] resolves to against a server that holds [tree] and
    answers as RFC 4918 has it, where the [collection] element is declared
    EMPTY, for a detector with the base path [/] (the one of a server that
    is set up without a base path). *)
Definition remoteOfTree (tree : list StatModel.t) (path : string)
    (depth : Depth) : option (list StatModel.t) :=
  propfindAnswer (serverOfTree EmptyElement tree) "/" path depth.

(** Modelled from the spec: [isSub(base, path)], "entries not under
    [remote_base_dir]" are dropped: [path] lies strictly below [base]. *)
Definition isSubModel (base path : string) : bool :=
  Js.startsWith path (if Js.endsWith base "/" then base else base +:+ "/").

(** Modelled from the spec: [completeLossDir(stats, filtered)] "re-adds any
    ancestor directories implied by included files but missing from the
    filtered set". *)
Definition completeLossDirModel (stats filtered : list StatModel.t)
  : list StatModel.t :=
  filtered ++
  List.filter
    (fun d =>
       StatModel.isDir d
       && negb (existsb (fun f => String.eqb (StatModel.path f)
                                             (StatModel.path d)) filtered)
       && existsb (fun f => Js.startsWith (StatModel.path f)
                                          (StatModel.path d +:+ "/")) filtered)
    stats.

(** The environment of the scenarios: base directory [/base], the default
    concurrency, no filter rule (every path is included), paths without
    HTML entities (decoding leaves them as they are) and already in
    standard form. *)
Definition scenarioEnv (tree : list StatModel.t) (clock : Z) : Env :=
  {| remote := remoteOfTree tree;
     now := clock;
     remoteBaseDir := "/base";
     concurrencyOption := Some 5%nat;
     decodeHtmlEntity := fun path => path;
     stdRemotePath := fun path => path;
     isSub := isSubModel;
     needInclude := fun _ => true;
     completeLossDir := completeLossDirModel |}.

(** The same environment against a server that puts content into its
    [collection] elements, which RFC 4918 does not provide for. *)
Definition contentMarkupEnv (tree : list StatModel.t) (clock : Z) : Env :=
  {| remote := propfindAnswer (serverOfTree WithContent tree) "/";
     now := clock;
     remoteBaseDir := "/base";
     concurrencyOption := Some 5%nat;
     decodeHtmlEntity := fun path => path;
     stdRemotePath := fun path => path;
     isSub := isSubModel;
     needInclude := fun _ => true;
     completeLossDir := completeLossDirModel |}.

(** A collection and a file of a remote tree. *)
Definition dirStat (path basename : string) (mtime : Z) : StatModel.t :=
  StatModel.mk path basename true false mtime 0.

Definition fileStat (path basename : string) (mtime size : Z) : StatModel.t :=
  StatModel.mk path basename false false mtime size.

(* ===================================================================== *)
(** ** Worlds and remote trees of the scenarios *)
(* ===================================================================== *)

(** Scenario S1: the remote tree [{/base, /base/a.txt (mtime=100,
    size=10)}]. *)
Definition bootstrapTree : list StatModel.t :=
  [dirStat "/base" "base" 1; fileStat "/base/a.txt" "a.txt" 100 10].

(** The entry of [a.txt] in a listing relative to [/base]. *)
Definition aTxt : StatModel.t := fileStat "a.txt" "a.txt" 100 10.

(** The stores after the first walk of scenario S1. *)
Definition bootstrapStore : Store :=
  store (snd (walk (scenarioEnv bootstrapTree 1000) 10 (worldOf emptyStore))).

(** Scenario S3: after S1, [/base/a.txt] has mtime 200 and size 20, and the
    mtime of [/base] has advanced. *)
Definition modifiedTree : list StatModel.t :=
  [dirStat "/base" "base" 2; fileStat "/base/a.txt" "a.txt" 200 20].

(** Scenario S4: [/base/sub] holds [x], [y] and [z]. *)
Definition nestedTree : list StatModel.t :=
  [dirStat "/base" "base" 1;
   dirStat "/base/sub" "sub" 1;
   fileStat "/base/sub/x" "x" 1 11;
   fileStat "/base/sub/y" "y" 1 12;
   fileStat "/base/sub/z" "z" 1 13].

(** The stores after the walk that populates the index from
    [nestedTree]. *)
Definition nestedStore : Store :=
  store (snd (walk (scenarioEnv nestedTree 1000) 10 (worldOf emptyStore))).

(** The remote tree of S4 after the whole of [/base/sub] is removed: the
    base directory is empty and its mtime has moved on. *)
Definition emptyBaseTree : list StatModel.t := [dirStat "/base" "base" 2].

(** The stores after the walk that follows the removal of [/base/sub]. *)
Definition nestedStoreAfterRemoval : Store :=
  store (snd (walk (scenarioEnv emptyBaseTree 2000) 10 (worldOf nestedStore))).

(** A rank for the tree of scenario S4. *)
Definition nestedRank (path : string) : nat :=
  if String.eqb path "/" then 3%nat
  else if String.eqb path "/base" then 2%nat
  else if String.eqb path "/base/sub" then 1%nat
  else 0%nat.

(** Two empty directories appear under [/base] after scenario S1. *)
Definition grownTree : list StatModel.t :=
  [dirStat "/base" "base" 2;
   fileStat "/base/a.txt" "a.txt" 100 10;
   dirStat "/base/s1" "s1" 2;
   dirStat "/base/s2" "s2" 2].

(** Later the mtime of [/base] moves again while its children stay as they
    are. *)
Definition touchedTree : list StatModel.t :=
  [dirStat "/base" "base" 3;
   fileStat "/base/a.txt" "a.txt" 100 10;
   dirStat "/base/s1" "s1" 2;
   dirStat "/base/s2" "s2" 2].

(** The stores after the walk over [grownTree] that follows S1. *)
Definition grownStore : Store :=
  store (snd (walk (scenarioEnv grownTree 2000) 10 (worldOf bootstrapStore))).

(** The stores after the walk over [touchedTree] that follows it. *)
Definition touchedStore : Store :=
  store (snd (walk (scenarioEnv touchedTree 3000) 10 (worldOf grownStore))).

(** The stores of the same scenarios against a server that puts content
    into its [collection] elements: after the walk that populates the index
    from [nestedTree] and after the walk that follows the removal of
    [/base/sub]; after the walks over [bootstrapTree], [grownTree] and
    [touchedTree]. *)
Definition contentNestedStore : Store :=
  store (snd (walk (contentMarkupEnv nestedTree 1000) 10 (worldOf emptyStore))).

Definition contentNestedStoreAfterRemoval : Store :=
  store (snd (walk (contentMarkupEnv emptyBaseTree 2000) 10
                (worldOf contentNestedStore))).

Definition contentBootstrapStore : Store :=
  store (snd (walk (contentMarkupEnv bootstrapTree 1000) 10
                (worldOf emptyStore))).

Definition contentGrownStore : Store :=
  store (snd (walk (contentMarkupEnv grownTree 2000) 10
                (worldOf contentBootstrapStore))).

Definition contentTouchedStore : Store :=
  store (snd (walk (contentMarkupEnv touchedTree 3000) 10
                (worldOf contentGrownStore))).

(** A cache that breaks the invariants of the data model: the entry
    [/base/ghost/f] names a parent that is not indexed, and the
    directory-mtime cache knows [/base/ghost], which the index does not. *)
Definition orphanStore : Store :=
  {| fileIndex :=
       {[ "/base/ghost/f" :=
            FileIndexEntry.mk "/base/ghost/f" "f" false 7 3 None None 0
              "/base/ghost" ]};
     dirMtimeStore :=
       <[ "/base" := DirMtimeEntry.mk "/base" 1 0 0 ]>
         {[ "/base/ghost" := DirMtimeEntry.mk "/base/ghost" 1 0 1 ]};
     progressStore := None |}.

(** An [added] change that carries no [stat]. *)
Definition changeWithoutStat : RemoteChange.t :=
  RemoteChange.mk "/base/n.txt" added None.

(** Stores whose index holds two files. *)
Definition twoFilesStore : Store :=
  {| fileIndex :=
       <[ "/base/n.txt" :=
            FileIndexEntry.mk "/base/n.txt" "n.txt" false 5 50 None None 0
              "/base" ]>
         {[ "/base/old.txt" :=
              FileIndexEntry.mk "/base/old.txt" "old.txt" false 6 60 None None
                0 "/base" ]};
     dirMtimeStore := {[ "/base" := DirMtimeEntry.mk "/base" 1 0 2 ]};
     progressStore := None |}.

(** Stores whose index holds three files. *)
Definition threeFilesStore : Store :=
  {| fileIndex :=
       <[ "/base/m.txt" :=
            FileIndexEntry.mk "/base/m.txt" "m.txt" false 4 40 None None 0
              "/base" ]> (fileIndex twoFilesStore);
     dirMtimeStore := dirMtimeStore twoFilesStore;
     progressStore := None |}.

(** A callback for [iterateAll] that records the path of every entry it is
    given, asks to continue at its first call and asks to stop, with
    [false], at its second. *)
Definition stopAtSecondVisit (entry : FileIndexEntry.t) (visited : list string)
  : list string * option bool :=
  (visited ++ [FileIndexEntry.path entry],
   Some (Nat.eqb (length visited) 0)).

(* ===================================================================== *)
(** ** The records of an index *)
(* ===================================================================== *)

(** The records of an index, in the order of its iteration. *)
Definition recordsOf (index : gmap string FileIndexEntry.t)
  : list FileIndexEntry.t :=
  map snd (map_to_list index).

(** Those that name [parentPath] as their parent. *)
Definition childrenOf (index : gmap string FileIndexEntry.t)
    (parentPath : string) : list FileIndexEntry.t :=
  List.filter
    (fun value => String.eqb (FileIndexEntry.parentPath value) parentPath)
    (recordsOf index).

Definition dirRecords (index : gmap string FileIndexEntry.t)
  : list FileIndexEntry.t :=
  List.filter FileIndexEntry.isDir (recordsOf index).

Definition fileRecords (index : gmap string FileIndexEntry.t)
  : list FileIndexEntry.t :=
  List.filter (fun value => negb (FileIndexEntry.isDir value)) (recordsOf index).

(** [normalizedPrefix] of [getByPrefix]. *)
Definition normalizedPrefix (prefix : string) : string :=
  if Js.endsWith prefix "/" then prefix else prefix +:+ "/".

(** What every writer of the index gives a record: its key is its path,
    its parent is the [dirname] of the path, a directory has size 0, and
    there is neither an ETag nor a content hash. *)
Definition wellFormedRecord (key : string) (entry : FileIndexEntry.t) : Prop :=
  FileIndexEntry.path entry = key
  /\ FileIndexEntry.parentPath entry = Js.dirname key
  /\ (FileIndexEntry.isDir entry = true -> FileIndexEntry.size entry = 0)
  /\ FileIndexEntry.etag entry = None
  /\ FileIndexEntry.contentHash entry = None.

Definition recordsWellFormed (s : Store) : Prop :=
  forall key entry,
    fileIndex s !! key = Some entry -> wellFormedRecord key entry.

(* ===================================================================== *)
(** ** The detector and the cache, in one step *)
(* ===================================================================== *)

(** The growth of the locals of a detection, and of the request log,
    between two of its states: one depth-0 request for each directory
    counted, no more changed directories than counted ones, and no more
    requests than one for each directory counted and one for each changed
    one. *)
Definition detectionGrows (s1 s2 : DetectLocals * World) : Prop :=
  (depth0Count (requests (snd s2)) + dl_scannedDirs (fst s1)
   = depth0Count (requests (snd s1)) + dl_scannedDirs (fst s2))%nat
  /\ (dl_scannedDirs (fst s1) <= dl_scannedDirs (fst s2))%nat
  /\ (length (dl_changedDirs (fst s1)) <= length (dl_changedDirs (fst s2)))%nat
  /\ (length (dl_changedDirs (fst s2)) + dl_scannedDirs (fst s1)
      <= length (dl_changedDirs (fst s1)) + dl_scannedDirs (fst s2))%nat
  /\ (length (requests (snd s2)) + dl_scannedDirs (fst s1)
      + length (dl_changedDirs (fst s1))
      <= length (requests (snd s1)) + dl_scannedDirs (fst s2)
         + length (dl_changedDirs (fst s2)))%nat.

(** [neverRejects m]: [m] does not end with the error of a rejected
    request. *)
Definition neverRejects {A} (m : M A) : Prop :=
  forall w, fst (m w) <> Throw TransportError.

(** The changes that [scanDirForChanges] pushes for the entries of
    [cachedMap] when the remote listing is empty. *)
Definition deletionsOf (cachedMap : JsMap.t FileIndexEntry.t)
  : list RemoteChange.t :=
  map (fun entry => RemoteChange.mk (fst entry) deleted None) cachedMap.


(** The set [affectedDirs] of [updateDirMtimeCache]. *)
Definition affectedDirsOf (changes : list RemoteChange.t) : list string :=
  fold_left
    (fun dirs change => JsSet.add (Js.dirname (RemoteChange.path change)) dirs)
    changes [].

(** The cache after the second loop of [updateDirMtimeCache] over
    [dirs]. *)
Definition refreshDirMtimes (env : Env) (dirs : list string)
    (cache : gmap string DirMtimeEntry.t) : gmap string DirMtimeEntry.t :=
  fold_left
    (fun m dirPath =>
       match statOf env dirPath with
       | Some mtime =>
           <[dirPath := DirMtimeEntry.mk dirPath mtime (now env) 0]> m
       | None => m
       end)
    dirs cache.

(** The world with [cache] for its directory-mtime cache and [log] for its
    request log. *)
Definition withDirMtimes (cache : gmap string DirMtimeEntry.t)
    (log : list (string * Depth)) (w : World) : World :=
  {| store :=
       {| fileIndex := fileIndex (store w);
          dirMtimeStore := cache;
          progressStore := progressStore (store w) |};
     requests := log;
     progressCalls := progressCalls w |}.

(** A string of slashes. *)
Fixpoint allSlashes (s : string) : bool :=
  match s with
  | EmptyString => true
  | String c rest => Ascii.eqb c Js.slash && allSlashes rest
  end.

(* ===================================================================== *)
(** ** Servers whose collection elements are empty *)
(* ===================================================================== *)

(** The adapter answers for a server whose [collection] elements have no
    content, as RFC 4918 declares them. *)
Definition emptyCollectionElements (env : Env) : Prop :=
  exists server basePath,
    (forall path depth,
        remote env path depth = propfindAnswer server basePath path depth)
    /\ forall path depth responses item,
         requestUrl server path depth = Some responses ->
         In item (itemsOf responses) ->
         PropfindItem.collection item <> WithContent.

(** No answer of the adapter names a directory. *)
Definition noDirectoryListed (env : Env) : Prop :=
  forall path depth contents item,
    remote env path depth = Some contents ->
    In item contents ->
    StatModel.isDir item = false.



(* ===================================================================== *)
(** ** Worlds that differ in the progress record *)
(* ===================================================================== *)

(** Two worlds that differ in the progress record at most. *)
Definition sameButProgress (w1 w2 : World) : Prop :=
  fileIndex (store w1) = fileIndex (store w2)
  /\ dirMtimeStore (store w1) = dirMtimeStore (store w2)
  /\ requests w1 = requests w2
  /\ progressCalls w1 = progressCalls w2.

(** [ignoresProgress m]: what [m] returns, requests, and writes to the
    index and to the cache, does not depend on the progress record. *)
Definition ignoresProgress {A} (m : M A) : Prop :=
  forall w1 w2,
    sameButProgress w1 w2 ->
    fst (m w1) = fst (m w2) /\ sameButProgress (snd (m w1)) (snd (m w2)).

(** The empty stores with the progress record that an interrupted scan of
    [/base] leaves. *)
Definition interruptedStore : Store :=
  {| fileIndex := ∅;
     dirMtimeStore := ∅;
     progressStore :=
       Some {| SyncProgress.sessionId := "scan_1";
               SyncProgress.startTime := 1;
               SyncProgress.phase := scanning;
               SyncProgress.processedCount := 0;
               SyncProgress.totalCount := 0;
               SyncProgress.currentPath := "/base";
               SyncProgress.pendingTasks := [];
               SyncProgress.completedTasks := [];
               SyncProgress.failedTasks := [] |} |}.

(* ===================================================================== *)
(** * Properties *)
(* ===================================================================== *)

(** ** Chunking *)

Lemma chunkArrayFrom_concat {T} (array : list T) (size : nat) :
  (1 <= size)%nat ->
  forall fuel i,
    (length array <= i + fuel)%nat ->
    concat (chunkArrayFrom fuel array size i) = drop i array.
Proof.
  intros Hsize fuel.
  induction fuel as [|fuel IH]; intros i Hlen; simpl.
  - symmetry. apply drop_ge. lia.
  - destruct (Nat.ltb_spec i (length array)) as [Hlt|Hge].
    + simpl. rewrite IH by lia. unfold Js.arraySlice.
      replace (i + size - i)%nat with size by lia.
      rewrite <- (take_drop size (drop i array)) at 2.
      rewrite drop_drop. reflexivity.
    + simpl. symmetry. apply drop_ge. lia.
Qed.

Lemma chunkArray_concat {T} (array : list T) (size : nat) :
  (1 <= size)%nat -> concat (chunkArray array size) = array.
Proof.
  intros Hsize. unfold chunkArray.
  rewrite chunkArrayFrom_concat by lia. apply drop_0.
Qed.


(** ** Reasoning about operations: what they preserve of the stores *)

Section Preservation.

Context (P : Store -> Prop).

Lemma preserves_ret {A} (a : A) : preserves P (ret a).
Proof. intros w H. exact H. Qed.

Lemma preserves_throw {A} (e : error) : preserves P (@throw A e).
Proof. intros w H. exact H. Qed.

Lemma preserves_gets {A} (f : Store -> A) : preserves P (gets f).
Proof. intros w H. exact H. Qed.

Lemma preserves_bind {A B} (m : M A) (k : A -> M B) :
  preserves P m -> (forall a, preserves P (k a)) -> preserves P (bind m k).
Proof.
  intros Hm Hk w H. unfold bind.
  specialize (Hm w H). destruct (m w) as [[a|e] w']; simpl in *.
  - apply Hk. exact Hm.
  - exact Hm.
Qed.

Lemma preserves_tryCatch {A} (body handler : M A) :
  preserves P body -> preserves P handler ->
  preserves P (tryCatch body handler).
Proof.
  intros Hb Hh w H. unfold tryCatch.
  specialize (Hb w H). destruct (body w) as [[a|[|]] w']; simpl in *;
    try exact Hb.
  apply Hh. exact Hb.
Qed.

Lemma preserves_modify (f : Store -> Store) :
  (forall s, P s -> P (f s)) -> preserves P (modify f).
Proof. intros Hf w H. simpl. apply Hf. exact H. Qed.

Lemma preserves_forEach {T A} (xs : list T) (body : T -> A -> M A) :
  (forall x a, In x xs -> preserves P (body x a)) ->
  forall a, preserves P (forEach xs body a).
Proof.
  induction xs as [|x xs IH]; intros Hbody a; simpl.
  - apply preserves_ret.
  - apply preserves_bind.
    + apply Hbody. left. reflexivity.
    + intros a'. apply IH. intros y b Hy. apply Hbody. right. exact Hy.
Qed.

Lemma preserves_if {A} (b : bool) (m1 m2 : M A) :
  preserves P m1 -> preserves P m2 -> preserves P (if b then m1 else m2).
Proof. destruct b; auto. Qed.

Lemma preserves_propfind env path depth :
  preserves P (propfind env path depth).
Proof.
  intros w H. unfold propfind.
  destruct (remote env path depth); exact H.
Qed.

Lemma preserves_notifyProgress phase current total :
  preserves P (notifyProgress phase current total).
Proof. intros w H. exact H. Qed.

End Preservation.

#[export] Hint Resolve preserves_ret preserves_throw preserves_gets
  preserves_propfind preserves_notifyProgress : preserve.

(** Operations that only read the stores. *)

Ltac preserve_step :=
  first
    [ solve [auto with preserve]
    | apply preserves_tryCatch | apply preserves_if
    | apply preserves_bind; [ | intros ? ] ].

Lemma preserves_statDir P env path : preserves P (statDir env path).
Proof.
  unfold statDir. repeat preserve_step.
  destruct a; repeat preserve_step.
Qed.

Lemma preserves_getSubDirs P env path : preserves P (getSubDirs env path).
Proof. unfold getSubDirs. repeat preserve_step. Qed.

Lemma preserves_listDir P env path : preserves P (listDir env path).
Proof. unfold listDir. repeat preserve_step. Qed.

Lemma preserves_scanDirForChanges P env dirPath :
  preserves P (scanDirForChanges env dirPath).
Proof.
  unfold scanDirForChanges, FileIndexStore.getByParent.
  apply preserves_bind; [apply preserves_listDir|intros remoteFiles].
  repeat preserve_step.
Qed.

Lemma preserves_detectDirChanges P env fuel :
  forall dirPath cachedMtimes locals,
    preserves P (detectDirChanges env fuel dirPath cachedMtimes locals).
Proof.
  induction fuel as [|fuel IH]; intros dirPath cachedMtimes locals; simpl.
  - apply preserves_throw.
  - apply preserves_bind; [apply preserves_statDir|intros currentStat].
    destruct currentStat as [currentMtime|]; [|apply preserves_ret].
    destruct (cachedMtimeIs cachedMtimes dirPath currentMtime);
      [apply preserves_ret|].
    apply preserves_bind; [apply preserves_getSubDirs|intros subDirs].
    apply preserves_forEach. intros chunk a _.
    apply preserves_forEach. intros subDir b _. apply IH.
Qed.

Lemma preserves_detectChanges P env fuel :
  preserves P (detectChanges env fuel).
Proof.
  unfold detectChanges, DirMtimeStore.getAll.
  apply preserves_bind; [apply preserves_gets|intros cachedDirMtimes].
  apply preserves_if; [apply preserves_ret|].
  apply preserves_bind; [apply preserves_detectDirChanges|intros locals].
  apply preserves_bind; [|intros changes; apply preserves_ret].
  apply preserves_if; [|apply preserves_ret].
  apply preserves_forEach. intros dir a _.
  apply preserves_bind; [apply preserves_scanDirForChanges|intros dirChanges].
  apply preserves_ret.
Qed.

(* ===================================================================== *)
(** ** The detector only reads the stores *)
(* ===================================================================== *)

(** C8.  [detectChanges] leaves the persistent state as it found it: for
    every environment, every amount of fuel and every starting world, the
    file index, the directory-mtime cache and the sync-progress record after
    [detectChanges] are those before it, whether it returns a result or
    not. *)
Theorem detectChanges_leaves_stores_unchanged :
  forall env fuel w,
    fileIndex (store (snd (detectChanges env fuel w))) = fileIndex (store w)
    /\ dirMtimeStore (store (snd (detectChanges env fuel w)))
       = dirMtimeStore (store w)
    /\ progressStore (store (snd (detectChanges env fuel w)))
       = progressStore (store w).
Proof.
  intros env fuel w.
  assert (H : store (snd (detectChanges env fuel w)) = store w).
  { apply (preserves_detectChanges (fun s => s = store w)). reflexivity. }
  rewrite H. repeat split.
Qed.

(* ===================================================================== *)
(** ** The three readers of the remote *)
(* ===================================================================== *)

Lemma statDir_eq env path w :
  statDir env path w = (Ret (statOf env path), logRequest path Depth0 w).
Proof.
  unfold statDir, tryCatch, bind, propfind, statOf.
  destruct (remote env path Depth0) as [[|first rest]|]; reflexivity.
Qed.

Lemma getSubDirs_eq env path w :
  getSubDirs env path w = (Ret (subDirsOf env path), logRequest path Depth1 w).
Proof.
  unfold getSubDirs, tryCatch, bind, propfind, subDirsOf.
  destruct (remote env path Depth1); reflexivity.
Qed.

Lemma listDir_eq env path w :
  listDir env path w = (Ret (listDirOf env path), logRequest path Depth1 w).
Proof.
  unfold listDir, tryCatch, bind, propfind, listDirOf.
  destruct (remote env path Depth1); reflexivity.
Qed.

Lemma bind_eq {A B} (m : M A) (k : A -> M B) w a w' :
  m w = (Ret a, w') -> bind m k w = k a w'.
Proof. intros H. unfold bind. rewrite H. reflexivity. Qed.

Lemma returns_forEach {T A} (xs : list T) (body : T -> A -> M A) :
  (forall x a, In x xs -> returns (body x a)) ->
  forall a, returns (forEach xs body a).
Proof.
  induction xs as [|x xs IH]; intros Hbody a w; simpl.
  - eexists _, _. reflexivity.
  - destruct (Hbody x a (or_introl eq_refl) w) as (a' & w' & Hx).
    rewrite (bind_eq _ _ _ _ _ Hx).
    apply IH. intros y b Hy. apply Hbody. right. exact Hy.
Qed.

Lemma in_chunkArray {T} (array : list T) (size : nat) chunk x :
  (1 <= size)%nat -> In chunk (chunkArray array size) -> In x chunk ->
  In x array.
Proof.
  intros Hsize Hchunk Hx.
  rewrite <- (chunkArray_concat array size Hsize).
  apply in_concat. exists chunk. split; assumption.
Qed.

Lemma concurrency_pos env : (1 <= concurrency env)%nat.
Proof.
  unfold concurrency. destruct (concurrencyOption env) as [[|n]|]; lia.
Qed.

(** With a well-founded remote tree, fuel above the rank of the directory
    lets [detectDirChanges] run to its end. *)
Lemma detectDirChanges_returns env rank :
  wellFoundedRemote env rank ->
  forall fuel dirPath cachedMtimes locals,
    (rank dirPath < fuel)%nat ->
    returns (detectDirChanges env fuel dirPath cachedMtimes locals).
Proof.
  intros Hwf fuel.
  induction fuel as [|fuel IH]; intros dirPath cachedMtimes locals Hfuel w.
  - lia.
  - simpl. rewrite (bind_eq _ _ _ _ _ (statDir_eq env dirPath w)).
    destruct (statOf env dirPath) as [currentMtime|];
      [|eexists _, _; reflexivity].
    destruct (cachedMtimeIs cachedMtimes dirPath currentMtime);
      [eexists _, _; reflexivity|].
    rewrite (bind_eq _ _ _ _ _ (getSubDirs_eq env dirPath _)).
    apply returns_forEach. intros chunk a Hchunk.
    apply returns_forEach. intros subDir b HsubDir.
    apply IH.
    assert (Hin : In subDir (subDirsOf env dirPath)).
    { eapply in_chunkArray; eauto using concurrency_pos. }
    specialize (Hwf _ _ Hin). lia.
Qed.

Lemma scanDirForChanges_returns env dirPath :
  returns (scanDirForChanges env dirPath).
Proof.
  intros w. unfold scanDirForChanges.
  rewrite (bind_eq _ _ _ _ _ (listDir_eq env dirPath w)).
  eexists _, _. reflexivity.
Qed.

(** [detectChanges] returns a result on every well-founded remote tree,
    given fuel above the rank of the base directory. *)
Lemma detectChanges_returns env rank fuel :
  wellFoundedRemote env rank ->
  (rank (remoteBaseDir env) < fuel)%nat ->
  returns (detectChanges env fuel).
Proof.
  intros Hwf Hfuel w. unfold detectChanges, DirMtimeStore.getAll.
  unfold bind at 1. simpl.
  destruct (Nat.eqb _ 0); [eexists _, _; reflexivity|].
  destruct (detectDirChanges_returns env rank Hwf fuel (remoteBaseDir env)
              (dirMtimeStore (store w)) (mkDetectLocals [] 0) Hfuel w)
    as (locals & w1 & H1).
  rewrite (bind_eq _ _ _ _ _ H1).
  destruct (Nat.ltb 0 (length (dl_changedDirs locals))).
  - assert (Hloop : returns
              (forEach (dl_changedDirs locals)
                 (fun dir changes =>
                    dirChanges <- scanDirForChanges env dir ;;
                    ret (changes ++ dirChanges)) [])).
    { apply returns_forEach. intros dir changes _ w2.
      destruct (scanDirForChanges_returns env dir w2) as (c & w3 & H3).
      rewrite (bind_eq _ _ _ _ _ H3). eexists _, _. reflexivity. }
    destruct (Hloop w1) as (changes & w2 & H2).
    rewrite (bind_eq _ _ _ _ _ H2). eexists _, _. reflexivity.
  - eexists _, _. reflexivity.
Qed.

(* ===================================================================== *)
(** ** When the detector asks for a full scan *)
(* ===================================================================== *)

Lemma forEach_scan_outcome env dirs :
  forall changes w,
    match fst (forEach dirs
                 (fun dir changes =>
                    dirChanges <- scanDirForChanges env dir ;;
                    ret (changes ++ dirChanges)) changes w) with
    | Ret _ => True
    | Throw _ => False
    end.
Proof.
  induction dirs as [|dir dirs IH]; intros changes w; simpl.
  - exact I.
  - destruct (scanDirForChanges_returns env dir w) as (c & w1 & H1).
    unfold bind at 1. unfold bind at 1. rewrite H1. simpl. apply IH.
Qed.

(** C3, as the code has it.  [detectChanges] asks for a full scan exactly
    when the directory-mtime cache is empty: a result it returns has
    [needFullScan = true] if and only if the cache holds no entry, and it
    cannot end without a result on an empty cache.  The cached state is
    never checked against the invariants of the data model. *)
Theorem detectChanges_needFullScan_iff_cache_empty :
  forall env fuel w,
    match fst (detectChanges env fuel w) with
    | Ret result =>
        DeltaDetectionResult.needFullScan result = true
        <-> dirMtimeStore (store w) = ∅
    | Throw _ => dirMtimeStore (store w) <> ∅
    end.
Proof.
  intros env fuel w. unfold detectChanges, DirMtimeStore.getAll.
  unfold bind at 1. simpl.
  destruct (Nat.eqb_spec (size (dirMtimeStore (store w))) 0) as [Hsize|Hsize].
  - simpl. split; [intros _|reflexivity].
    apply map_size_empty_iff. exact Hsize.
  - assert (Hne : dirMtimeStore (store w) <> ∅).
    { intros Hempty. apply Hsize. rewrite Hempty. apply map_size_empty. }
    unfold bind at 1.
    destruct (detectDirChanges env fuel (remoteBaseDir env)
                (dirMtimeStore (store w)) (mkDetectLocals [] 0) w)
      as [[locals|e] w1]; simpl; [|exact Hne].
    unfold bind at 1.
    destruct (Nat.ltb 0 (length (dl_changedDirs locals))).
    + pose proof (forEach_scan_outcome env (dl_changedDirs locals) [] w1) as H.
      destruct (forEach (dl_changedDirs locals) _ [] w1) as [[changes|e] w2];
        simpl in *; [|contradiction].
      split; [discriminate|intros Hempty; contradiction].
    + simpl. split; [discriminate|intros Hempty; contradiction].
Qed.

(** C3, as the claim states it, fails: the cache [orphanStore] breaks
    invariants 1 and 2, the detector reads it, and the result it returns
    has [needFullScan = false]. *)
Lemma detectChanges_ignores_orphan_parent :
  parentsIndexed "/base" (fileIndex orphanStore) = false
  /\ fst (detectChanges (scenarioEnv emptyBaseTree 5000) 10
            (worldOf orphanStore))
     = Ret (DeltaDetectionResult.mk [] false 1 1).
Proof. split; vm_compute; reflexivity. Qed.

(* ===================================================================== *)
(** ** Batched writes to the file index *)
(* ===================================================================== *)

Lemma withFileIndex_same w : withFileIndex (fileIndex (store w)) w = w.
Proof. destruct w as [[? ? ?] ? ?]. reflexivity. Qed.

Lemma forEach_app {T A} (xs ys : list T) (body : T -> A -> M A) a w :
  forEach (xs ++ ys) body a w
  = bind (forEach xs body a) (fun a' => forEach ys body a') w.
Proof.
  revert a w. induction xs as [|x xs IH]; intros a w; simpl.
  - reflexivity.
  - unfold bind in *. destruct (body x a w) as [[a'|e] w']; [|reflexivity].
    apply IH.
Qed.

Lemma forEach_chunks {T} (chunks : list (list T))
    (body : T -> unit -> M unit) w :
  forEach chunks (fun batch _ => forEach batch body tt) tt w
  = forEach (concat chunks) body tt w.
Proof.
  revert w. induction chunks as [|chunk chunks IH]; intros w; simpl.
  - reflexivity.
  - rewrite forEach_app. unfold bind.
    destruct (forEach chunk body tt w) as [[[]|e] w']; [apply IH|reflexivity].
Qed.

Lemma forEach_set entries :
  forall w,
    forEach entries (fun entry _ => FileIndexStore.set entry) tt w
    = (Ret tt, withFileIndex (insertAll entries (fileIndex (store w))) w).
Proof.
  induction entries as [|entry entries IH]; intros w; simpl.
  - unfold ret. rewrite withFileIndex_same. reflexivity.
  - unfold bind, FileIndexStore.set, modify. rewrite IH. reflexivity.
Qed.

Lemma forEach_delete paths :
  forall w,
    forEach paths (fun path _ => FileIndexStore.delete path) tt w
    = (Ret tt, withFileIndex (deleteAll paths (fileIndex (store w))) w).
Proof.
  induction paths as [|path paths IH]; intros w; simpl.
  - unfold ret. rewrite withFileIndex_same. reflexivity.
  - unfold bind, FileIndexStore.delete, modify. rewrite IH. reflexivity.
Qed.

Lemma batchSet_eq entries w :
  FileIndexStore.batchSet entries w
  = (Ret tt, withFileIndex (insertAll entries (fileIndex (store w))) w).
Proof.
  unfold FileIndexStore.batchSet. rewrite forEach_chunks.
  rewrite chunkArray_concat by (unfold FileIndexStore.BATCH_SIZE; lia).
  apply forEach_set.
Qed.

Lemma batchDelete_eq paths w :
  FileIndexStore.batchDelete paths w
  = (Ret tt, withFileIndex (deleteAll paths (fileIndex (store w))) w).
Proof.
  unfold FileIndexStore.batchDelete. rewrite forEach_chunks.
  rewrite chunkArray_concat by (unfold FileIndexStore.BATCH_SIZE; lia).
  apply forEach_delete.
Qed.

Lemma insertAll_app xs ys index :
  insertAll (xs ++ ys) index = insertAll ys (insertAll xs index).
Proof. unfold insertAll. apply fold_left_app. Qed.

Lemma deleteAll_app xs ys index :
  deleteAll (xs ++ ys) index = deleteAll ys (deleteAll xs index).
Proof. unfold deleteAll. apply fold_left_app. Qed.

Lemma insertAll_lookup_other entries :
  forall index p,
    (forall e, In e entries -> FileIndexEntry.path e <> p) ->
    insertAll entries index !! p = index !! p.
Proof.
  induction entries as [|entry entries IH]; intros index p Hp; simpl.
  - reflexivity.
  - change (insertAll entries (<[FileIndexEntry.path entry := entry]> index) !! p
            = index !! p).
    rewrite IH by (intros e He; apply Hp; right; exact He).
    apply lookup_insert_ne. apply Hp. left. reflexivity.
Qed.

Lemma insertAll_lookup_Some entries :
  forall index p e,
    insertAll entries index !! p = Some e ->
    index !! p = Some e \/ (In e entries /\ FileIndexEntry.path e = p).
Proof.
  induction entries as [|entry entries IH]; intros index p e H.
  - left. exact H.
  - change (insertAll entries (<[FileIndexEntry.path entry := entry]> index) !! p
            = Some e) in H.
    destruct (IH _ _ _ H) as [Hin|[Hin Hp]].
    + destruct (decide (FileIndexEntry.path entry = p)) as [Heq|Hne].
      * subst p. rewrite lookup_insert_eq in Hin. inversion Hin; subst.
        right. split; [left; reflexivity|reflexivity].
      * rewrite lookup_insert_ne in Hin by exact Hne. left. exact Hin.
    + right. split; [right; exact Hin|exact Hp].
Qed.

Lemma insertAll_lookup_written entries :
  forall index e,
    In e entries ->
    exists e', insertAll entries index !! FileIndexEntry.path e = Some e'
               /\ In e' entries
               /\ FileIndexEntry.path e' = FileIndexEntry.path e.
Proof.
  induction entries as [|entry entries IH] using rev_ind; intros index e He.
  - destruct He.
  - rewrite insertAll_app. simpl.
    destruct (decide (FileIndexEntry.path entry = FileIndexEntry.path e))
      as [Heq|Hne].
    + exists entry. rewrite <- Heq. rewrite lookup_insert_eq.
      split; [reflexivity|]. split; [|reflexivity].
      apply in_or_app. right. left. reflexivity.
    + rewrite lookup_insert_ne by exact Hne.
      apply in_app_or in He. destruct He as [He|[He|[]]].
      * destruct (IH index e He) as (e' & Hl & Hin & Hp).
        exists e'. split; [exact Hl|]. split; [|exact Hp].
        apply in_or_app. left. exact Hin.
      * subst. contradiction.
Qed.

Lemma deleteAll_lookup_Some paths :
  forall index p e,
    deleteAll paths index !! p = Some e ->
    index !! p = Some e /\ ~ In p paths.
Proof.
  induction paths as [|path paths IH]; intros index p e H.
  - split; [exact H|intros []].
  - change (deleteAll paths (delete path index) !! p = Some e) in H.
    destruct (IH _ _ _ H) as [Hl Hn].
    destruct (decide (path = p)) as [Heq|Hne].
    + subst. rewrite lookup_delete_eq in Hl. discriminate.
    + rewrite lookup_delete_ne in Hl by exact Hne.
      split; [exact Hl|]. intros [Hp|Hp]; [contradiction|exact (Hn Hp)].
Qed.

Lemma deleteAll_lookup_other paths :
  forall index p, ~ In p paths -> deleteAll paths index !! p = index !! p.
Proof.
  induction paths as [|path paths IH]; intros index p Hp.
  - reflexivity.
  - change (deleteAll paths (delete path index) !! p = index !! p).
    rewrite IH by (intros H; apply Hp; right; exact H).
    apply lookup_delete_ne. intros Heq. apply Hp. left. exact Heq.
Qed.

(* ===================================================================== *)
(** ** [updateFileIndex] *)
(* ===================================================================== *)

Lemma partitionChanges_from env changes :
  forall toSet toDelete,
    fold_left
      (fun locals change =>
         let '(toSet, toDelete) := locals in
         match RemoteChange.type change with
         | deleted => (toSet, toDelete ++ [RemoteChange.path change])
         | _ =>
             match RemoteChange.stat change with
             | Some stat =>
                 (toSet ++ [changedEntry env (RemoteChange.path change) stat],
                  toDelete)
             | None => (toSet, toDelete)
             end
         end)
      changes (toSet, toDelete)
    = (toSet ++ flat_map (entriesToSet env) changes,
       toDelete ++ flat_map pathsToDelete changes).
Proof.
  induction changes as [|change changes IH]; intros toSet toDelete; simpl.
  - rewrite !app_nil_r. reflexivity.
  - unfold entriesToSet at 1, pathsToDelete at 1.
    destruct (RemoteChange.type change);
      try destruct (RemoteChange.stat change);
      rewrite IH; simpl; rewrite <- ?app_assoc, ?app_nil_r; reflexivity.
Qed.

Lemma partitionChanges_eq env changes :
  partitionChanges env changes
  = (flat_map (entriesToSet env) changes, flat_map pathsToDelete changes).
Proof. unfold partitionChanges. apply partitionChanges_from. Qed.

(** [updateFileIndex] in one step: the entries to set are written first,
    the paths to delete are removed after them. *)
Lemma updateFileIndex_eq env changes w :
  updateFileIndex env changes w
  = (Ret tt,
     withFileIndex
       (deleteAll (flat_map pathsToDelete changes)
          (insertAll (flat_map (entriesToSet env) changes)
             (fileIndex (store w)))) w).
Proof.
  unfold updateFileIndex. rewrite partitionChanges_eq.
  set (toSet := flat_map (entriesToSet env) changes).
  set (toDelete := flat_map pathsToDelete changes).
  unfold bind.
  assert (H1 : (if Nat.ltb 0 (length toSet)
                then FileIndexStore.batchSet toSet else ret tt) w
               = (Ret tt, withFileIndex (insertAll toSet (fileIndex (store w))) w)).
  { destruct toSet; simpl.
    - unfold ret. rewrite withFileIndex_same. reflexivity.
    - apply batchSet_eq. }
  rewrite H1.
  destruct toDelete; simpl.
  - unfold ret. reflexivity.
  - rewrite batchDelete_eq. reflexivity.
Qed.

Lemma entriesToSet_path env change e :
  In e (entriesToSet env change) ->
  FileIndexEntry.path e = RemoteChange.path change
  /\ FileIndexEntry.lastSynced e = now env
  /\ RemoteChange.type change <> deleted
  /\ exists stat, RemoteChange.stat change = Some stat
                  /\ e = changedEntry env (RemoteChange.path change) stat.
Proof.
  unfold entriesToSet.
  destruct (RemoteChange.type change) eqn:Htype;
    destruct (RemoteChange.stat change) as [stat|] eqn:Hstat;
    simpl; intros H; try contradiction;
    destruct H as [H|[]]; subst e;
    (repeat split; [discriminate|exists stat; split; reflexivity]).
Qed.

Lemma pathsToDelete_path change p :
  In p (pathsToDelete change) ->
  p = RemoteChange.path change /\ RemoteChange.type change = deleted.
Proof.
  unfold pathsToDelete.
  destruct (RemoteChange.type change) eqn:Htype; simpl; intros H;
    try contradiction.
  destruct H as [H|[]]. split; [symmetry; exact H|reflexivity].
Qed.

(** C10.  A change of type [added] or [modified] that carries no [stat] is
    silently ignored by [updateFileIndex]: the call behaves as if the change
    were not in the list, a list that holds nothing else changes nothing
    and returns normally, and when no other change of the list names the
    same path, the index holds for that path what it held before. *)
Theorem updateFileIndex_ignores_change_without_stat :
  forall env before change after w,
    RemoteChange.type change <> deleted ->
    RemoteChange.stat change = None ->
    updateFileIndex env (before ++ change :: after) w
    = updateFileIndex env (before ++ after) w
    /\ updateFileIndex env [change] w = (Ret tt, w)
    /\ ((forall c, In c (before ++ after) ->
                   RemoteChange.path c <> RemoteChange.path change) ->
        fileIndex (store (snd (updateFileIndex env (before ++ change :: after) w)))
          !! RemoteChange.path change
        = fileIndex (store w) !! RemoteChange.path change).
Proof.
  intros env before change after w Htype Hstat.
  assert (Hset : entriesToSet env change = []).
  { unfold entriesToSet. rewrite Hstat. destruct (RemoteChange.type change);
      reflexivity. }
  assert (Hdel : pathsToDelete change = []).
  { unfold pathsToDelete. destruct (RemoteChange.type change);
      [reflexivity|reflexivity|contradiction]. }
  assert (Hsame : updateFileIndex env (before ++ change :: after) w
                  = updateFileIndex env (before ++ after) w).
  { rewrite !updateFileIndex_eq, !flat_map_app. simpl.
    rewrite Hset, Hdel. reflexivity. }
  split; [exact Hsame|]. split.
  - rewrite updateFileIndex_eq. simpl. rewrite Hset, Hdel. simpl.
    unfold insertAll, deleteAll. simpl. rewrite withFileIndex_same.
    reflexivity.
  - intros Hother. rewrite Hsame, updateFileIndex_eq. simpl.
    rewrite deleteAll_lookup_other.
    + apply insertAll_lookup_other. intros e He.
      apply in_flat_map in He. destruct He as (c & Hc & He).
      apply entriesToSet_path in He. destruct He as (Hp & _).
      rewrite Hp. apply Hother. exact Hc.
    + intros Hin. apply in_flat_map in Hin. destruct Hin as (c & Hc & Hp).
      apply pathsToDelete_path in Hp. destruct Hp as (Hp & _).
      apply (Hother c Hc). symmetry. exact Hp.
Qed.

(** C10 at a concrete input: between the deletion of [/base/old.txt] and
    nothing else, an [added] change for [/base/n.txt] without [stat]. *)
Lemma updateFileIndex_ignores_change_without_stat_witness :
  updateFileIndex (scenarioEnv [] 9000)
    ([RemoteChange.mk "/base/old.txt" deleted None] ++ changeWithoutStat :: [])
    (worldOf twoFilesStore)
  = updateFileIndex (scenarioEnv [] 9000)
      ([RemoteChange.mk "/base/old.txt" deleted None] ++ [])
      (worldOf twoFilesStore)
  /\ updateFileIndex (scenarioEnv [] 9000) [changeWithoutStat]
       (worldOf twoFilesStore)
     = (Ret tt, worldOf twoFilesStore)
  /\ ((forall c, In c ([RemoteChange.mk "/base/old.txt" deleted None] ++ []) ->
                 RemoteChange.path c <> RemoteChange.path changeWithoutStat) ->
      fileIndex
        (store
           (snd (updateFileIndex (scenarioEnv [] 9000)
                   ([RemoteChange.mk "/base/old.txt" deleted None]
                      ++ changeWithoutStat :: [])
                   (worldOf twoFilesStore))))
        !! RemoteChange.path changeWithoutStat
      = fileIndex (store (worldOf twoFilesStore))
          !! RemoteChange.path changeWithoutStat).
Proof.
  apply (updateFileIndex_ignores_change_without_stat
           (scenarioEnv [] 9000)
           [RemoteChange.mk "/base/old.txt" deleted None]
           changeWithoutStat [] (worldOf twoFilesStore)).
  - simpl. discriminate.
  - reflexivity.
Defined.

(* ===================================================================== *)
(** ** What the full scan preserves *)
(* ===================================================================== *)

Lemma preserves_batchSet P entries :
  (forall e s, In e entries -> P s ->
               P (onFileIndex
                    (LocalForage.setItem (FileIndexEntry.path e) e) s)) ->
  preserves P (FileIndexStore.batchSet entries).
Proof.
  intros H. unfold FileIndexStore.batchSet.
  apply preserves_forEach. intros batch [] Hbatch.
  apply preserves_forEach. intros e [] He.
  apply preserves_modify. intros s. apply H.
  apply (in_chunkArray entries FileIndexStore.BATCH_SIZE batch e);
    [unfold FileIndexStore.BATCH_SIZE; lia|exact Hbatch|exact He].
Qed.

Lemma preserves_dirMtime_batchSet P entries :
  (forall e s, P s ->
               P (onDirMtime (LocalForage.setItem (DirMtimeEntry.path e) e) s)) ->
  preserves P (DirMtimeStore.batchSet entries).
Proof.
  intros H. unfold DirMtimeStore.batchSet.
  apply preserves_forEach. intros e [] _.
  apply preserves_modify. intros s. apply H.
Qed.

Lemma preserves_scanDirRecursive {L} P env
    (onBatch : list StatModel.t -> string -> Z -> L -> M L) :
  (forall items dirPath dirMtime locals,
      preserves P (onBatch items dirPath dirMtime locals)) ->
  forall fuel dirPath locals,
    preserves P (scanDirRecursive env fuel dirPath onBatch locals).
Proof.
  intros Hbatch fuel.
  induction fuel as [|fuel IH]; intros dirPath locals; simpl.
  - apply preserves_throw.
  - apply preserves_bind; [apply preserves_propfind|intros contents].
    apply preserves_bind; [apply Hbatch|intros locals'].
    apply preserves_forEach. intros chunk a _.
    apply preserves_forEach. intros subDir b _. apply IH.
Qed.

Lemma preserves_readOnlyProgress P onProgress notify scanned currentPath :
  readOnlyProgress onProgress -> onProgress = Some notify ->
  preserves P (notify scanned currentPath).
Proof.
  intros Hro Heq w H. rewrite (Hro notify scanned currentPath w Heq). exact H.
Qed.

Lemma allLastSynced_insert t e s :
  FileIndexEntry.lastSynced e = t -> allLastSynced t s ->
  allLastSynced t
    (onFileIndex (LocalForage.setItem (FileIndexEntry.path e) e) s).
Proof.
  intros He Hs p e' Hl. simpl in Hl. unfold LocalForage.setItem in Hl.
  destruct (decide (FileIndexEntry.path e = p)) as [Heq|Hne].
  - subst p. rewrite lookup_insert_eq in Hl. inversion Hl; subst. reflexivity.
  - rewrite lookup_insert_ne in Hl by exact Hne. eapply Hs. exact Hl.
Qed.

Lemma preserves_fullScanBatch_lastSynced env onProgress :
  readOnlyProgress onProgress ->
  forall entries dirPath dirMtime locals,
    preserves (allLastSynced 0)
      (fullScanBatch env onProgress entries dirPath dirMtime locals).
Proof.
  intros Hro entries dirPath dirMtime locals. unfold fullScanBatch.
  apply preserves_bind; [|intros []].
  - apply preserves_batchSet. intros e s He Hs.
    apply allLastSynced_insert; [|exact Hs].
    apply in_map_iff in He. destruct He as (stat & <- & _). reflexivity.
  - apply preserves_bind; [|intros []; apply preserves_ret].
    destruct onProgress as [notify|] eqn:Heq; [|apply preserves_ret].
    eapply preserves_readOnlyProgress; [exact Hro|reflexivity].
Qed.

Lemma fullScan_allLastSynced env fuel onProgress w :
  readOnlyProgress onProgress ->
  allLastSynced 0 (store (snd (fullScan env fuel onProgress w))).
Proof.
  intros Hro. unfold fullScan, FileIndexStore.clear.
  unfold bind at 1. simpl.
  match goal with
  | |- allLastSynced 0 (store (snd (bind ?m ?k ?w0))) =>
      assert (Hp : preserves (allLastSynced 0) (bind m k)); [|apply Hp]
  end.
  - apply preserves_bind; [|intros []].
    + apply preserves_modify. intros s Hs p e Hl. apply (Hs p e Hl).
    + apply preserves_bind; [|intros locals].
      * apply preserves_scanDirRecursive.
        apply preserves_fullScanBatch_lastSynced. exact Hro.
      * apply preserves_bind; [|intros []; apply preserves_ret].
        apply preserves_dirMtime_batchSet. intros e s Hs p e' Hl.
        apply (Hs p e' Hl).
  - intros p e Hl. simpl in Hl. unfold LocalForage.clear in Hl.
    rewrite lookup_empty in Hl. discriminate.
Qed.

(* ===================================================================== *)
(** ** [lastSynced] of the records that are written *)
(* ===================================================================== *)

(** C6, as the code has it.  [updateFileIndex] writes [lastSynced = now]:
    a record found in the index after it is the record that was there
    before, or the record of an [added] or [modified] change of the list
    and carries [lastSynced = now]; and every such change with a [stat]
    whose path no [deleted] change of the list names is in the index after
    it, with [lastSynced = now].  [fullScan] does not stamp the time of the
    write: every record of the index after it carries [lastSynced = 0],
    whatever the clock says. *)
Theorem lastSynced_now_on_update_zero_on_fullScan :
  forall env,
    (forall changes w p e,
        fileIndex (store (snd (updateFileIndex env changes w))) !! p = Some e ->
        fileIndex (store w) !! p = Some e
        \/ (FileIndexEntry.lastSynced e = now env
            /\ exists change stat,
                In change changes
                /\ RemoteChange.type change <> deleted
                /\ RemoteChange.stat change = Some stat
                /\ RemoteChange.path change = p
                /\ e = changedEntry env p stat))
    /\ (forall changes w change stat,
          In change changes ->
          RemoteChange.type change <> deleted ->
          RemoteChange.stat change = Some stat ->
          (forall c, In c changes -> RemoteChange.type c = deleted ->
                     RemoteChange.path c <> RemoteChange.path change) ->
          exists e,
            fileIndex (store (snd (updateFileIndex env changes w)))
              !! RemoteChange.path change = Some e
            /\ FileIndexEntry.lastSynced e = now env)
    /\ (forall fuel onProgress w p e,
          readOnlyProgress onProgress ->
          fileIndex (store (snd (fullScan env fuel onProgress w))) !! p = Some e ->
          FileIndexEntry.lastSynced e = 0).
Proof.
  intros env. split; [|split].
  - intros changes w p e H. rewrite updateFileIndex_eq in H. simpl in H.
    apply deleteAll_lookup_Some in H. destruct H as [H _].
    apply insertAll_lookup_Some in H. destruct H as [H|[Hin Hp]].
    + left. exact H.
    + right. apply in_flat_map in Hin. destruct Hin as (change & Hc & He).
      apply entriesToSet_path in He.
      destruct He as (Hpath & Hls & Htype & stat & Hstat & Heq).
      split; [exact Hls|]. exists change, stat.
      rewrite Hpath in Hp. subst p. repeat split; assumption.
  - intros changes w change stat Hin Htype Hstat Hnodel.
    rewrite updateFileIndex_eq. simpl.
    rewrite deleteAll_lookup_other.
    + assert (He : In (changedEntry env (RemoteChange.path change) stat)
                      (flat_map (entriesToSet env) changes)).
      { apply in_flat_map. exists change. split; [exact Hin|].
        unfold entriesToSet. rewrite Hstat.
        destruct (RemoteChange.type change);
          [left; reflexivity|left; reflexivity|contradiction]. }
      destruct (insertAll_lookup_written _ (fileIndex (store w)) _ He)
        as (e' & Hl & Hin' & _).
      exists e'. split; [exact Hl|].
      apply in_flat_map in Hin'. destruct Hin' as (c & _ & Hc).
      apply entriesToSet_path in Hc. apply Hc.
    + intros Hdel. apply in_flat_map in Hdel. destruct Hdel as (c & Hc & Hp).
      apply pathsToDelete_path in Hp. destruct Hp as (Hp & Hd).
      apply (Hnodel c Hc Hd). symmetry. exact Hp.
  - intros fuel onProgress w p e Hro Hl.
    exact (fullScan_allLastSynced env fuel onProgress w Hro p e Hl).
Qed.

(** C6, as the claim states it, fails for [fullScan]: on scenario S1, with
    the clock at 1000, the full scan returns and the record it has written
    for [/base/a.txt] carries [lastSynced = 0]. *)
Lemma fullScan_does_not_stamp_the_write_time :
  now (scenarioEnv bootstrapTree 1000) = 1000
  /\ fst (fullScan (scenarioEnv bootstrapTree 1000) 10 None (worldOf emptyStore))
     = Ret (1%nat, 0%nat)
  /\ FileIndexEntry.lastSynced
       <$> (fileIndex
              (store (snd (fullScan (scenarioEnv bootstrapTree 1000) 10 None
                             (worldOf emptyStore))))
              !! "/base/a.txt")
     = Some 0.
Proof. repeat split; vm_compute; reflexivity. Qed.

(* ===================================================================== *)
(** ** JavaScript maps *)
(* ===================================================================== *)

Lemma JsMap_get_set {V} (k k' : string) (v : V) (m : JsMap.t V) :
  JsMap.get k' (JsMap.set k v m)
  = if String.eqb k' k then Some v else JsMap.get k' m.
Proof.
  induction m as [|[k0 v0] m IH]; simpl.
  - reflexivity.
  - destruct (String.eqb_spec k k0) as [->|Hne]; simpl.
    + destruct (String.eqb k' k0); reflexivity.
    + rewrite IH. destruct (String.eqb_spec k' k0) as [->|Hne'].
      * destruct (String.eqb_spec k0 k) as [Heq|_]; [congruence|reflexivity].
      * reflexivity.
Qed.

Lemma JsMap_set_keys {V} (k : string) (v : V) (m : JsMap.t V) k' :
  In k' (map fst (JsMap.set k v m)) <-> k' = k \/ In k' (map fst m).
Proof.
  induction m as [|[k0 v0] m IH]; simpl.
  - split; [intros [H|[]]; left; symmetry; exact H|].
    intros [H|[]]. left. symmetry. exact H.
  - destruct (String.eqb_spec k k0) as [->|Hne]; simpl.
    + intuition congruence.
    + rewrite IH. tauto.
Qed.

Lemma JsMap_set_NoDup {V} (k : string) (v : V) (m : JsMap.t V) :
  List.NoDup (map fst m) -> List.NoDup (map fst (JsMap.set k v m)).
Proof.
  induction m as [|[k0 v0] m IH]; simpl; intros H.
  - constructor; [intros []|constructor].
  - inversion H as [|? ? Hnotin Hrest]; subst.
    destruct (String.eqb_spec k k0) as [->|Hne]; simpl.
    + constructor; assumption.
    + constructor; [|apply IH; exact Hrest].
      rewrite JsMap_set_keys. intros [Heq|Hin]; [congruence|contradiction].
Qed.

Lemma JsMap_ofList_NoDup {V} (pairs : list (string * V)) :
  List.NoDup (map fst (JsMap.ofList pairs)).
Proof.
  unfold JsMap.ofList.
  assert (H : forall m : JsMap.t V,
             List.NoDup (map fst m) ->
             List.NoDup
               (map fst (fold_left (fun m kv => JsMap.set (fst kv) (snd kv) m)
                           pairs m))).
  { induction pairs as [|kv pairs IH]; intros m Hm; simpl.
    - exact Hm.
    - apply IH. apply JsMap_set_NoDup. exact Hm. }
  apply H. constructor.
Qed.

Lemma JsMap_get_In {V} (k : string) (v : V) (m : JsMap.t V) :
  JsMap.get k m = Some v -> In (k, v) m.
Proof.
  induction m as [|[k0 v0] m IH]; simpl; intros H.
  - discriminate.
  - destruct (String.eqb_spec k k0) as [->|Hne].
    + inversion H; subst. left. reflexivity.
    + right. apply IH. exact H.
Qed.

Lemma JsMap_In_get {V} (k : string) (v : V) (m : JsMap.t V) :
  List.NoDup (map fst m) -> In (k, v) m -> JsMap.get k m = Some v.
Proof.
  induction m as [|[k0 v0] m IH]; simpl; intros Hnd Hin.
  - destruct Hin.
  - inversion Hnd as [|? ? Hnotin Hrest]; subst.
    destruct Hin as [Heq|Hin].
    + inversion Heq; subst. rewrite String.eqb_refl. reflexivity.
    + destruct (String.eqb_spec k k0) as [->|Hne].
      * exfalso. apply Hnotin. apply in_map_iff. exists (k0, v). split;
          [reflexivity|exact Hin].
      * apply IH; assumption.
Qed.

(* ===================================================================== *)
(** ** The file-level diff of a directory *)
(* ===================================================================== *)

Lemma addedAndModified_from remoteMap cachedMap :
  forall changes,
    fold_left
      (fun changes entry =>
         let '(path, remoteStat) := entry in
         match JsMap.get path cachedMap with
         | None =>
             changes ++ [RemoteChange.mk path added (Some remoteStat)]
         | Some cached =>
             if isModified cached remoteStat
             then changes ++ [RemoteChange.mk path modified (Some remoteStat)]
             else changes
         end)
      remoteMap changes
    = changes ++ flat_map (changeOfRemote cachedMap) remoteMap.
Proof.
  induction remoteMap as [|[path remoteStat] remoteMap IH]; intros changes;
    simpl.
  - rewrite app_nil_r. reflexivity.
  - rewrite IH. unfold changeOfRemote at 2. simpl.
    destruct (JsMap.get path cachedMap) as [cached|].
    + destruct (isModified cached remoteStat); simpl;
        rewrite <- ?app_assoc; reflexivity.
    + rewrite <- app_assoc. reflexivity.
Qed.

Lemma deletedOnes_eq remoteMap cachedMap :
  forall changes,
    deletedOnes remoteMap cachedMap changes
    = changes ++ flat_map (changeOfCached remoteMap) cachedMap.
Proof.
  unfold deletedOnes.
  induction cachedMap as [|[path cached] cachedMap IH]; intros changes; simpl.
  - rewrite app_nil_r. reflexivity.
  - rewrite IH. unfold changeOfCached at 2. simpl.
    destruct (negb (JsMap.has path remoteMap)); simpl;
      rewrite <- ?app_assoc; reflexivity.
Qed.

(** [scanDirForChanges] in one step: it always returns, after one depth-1
    request. *)
Lemma scanDirForChanges_eq env dirPath w :
  scanDirForChanges env dirPath w
  = (Ret (flat_map (changeOfRemote (cachedMapOf (fileIndex (store w)) dirPath))
            (remoteMapOf env dirPath)
          ++ flat_map (changeOfCached (remoteMapOf env dirPath))
               (cachedMapOf (fileIndex (store w)) dirPath)),
     logRequest dirPath Depth1 w).
Proof.
  unfold scanDirForChanges.
  rewrite (bind_eq _ _ _ _ _ (listDir_eq env dirPath w)).
  unfold FileIndexStore.getByParent, gets, bind, ret. simpl.
  rewrite deletedOnes_eq. unfold addedAndModified.
  rewrite addedAndModified_from. reflexivity.
Qed.

(** [isModified] compares the directory flags and, for a remote file, the
    mtimes and the sizes. *)
Lemma isModified_true_iff cached remote :
  isModified cached remote = true
  <-> FileIndexEntry.isDir cached <> StatModel.isDir remote
      \/ (StatModel.isDir remote = false
          /\ (FileIndexEntry.mtime cached <> StatModel.mtime remote
              \/ FileIndexEntry.size cached <> StatModel.size remote)).
Proof.
  unfold isModified.
  destruct (FileIndexEntry.isDir cached), (StatModel.isDir remote); simpl;
    try (split; [intros _; left; discriminate|reflexivity]).
  - split; [discriminate|]. intros [H|[H _]]; [contradiction|discriminate].
  - destruct (Z.eqb_spec (FileIndexEntry.mtime cached) (StatModel.mtime remote))
      as [Hm|Hm]; simpl.
    + destruct (Z.eqb_spec (FileIndexEntry.size cached) (StatModel.size remote))
        as [Hs|Hs]; simpl.
      * split; [discriminate|].
        intros [H|[_ [H|H]]]; contradiction.
      * split; [intros _|reflexivity]. right. split; [reflexivity|].
        right. exact Hs.
    + split; [intros _|reflexivity]. right. split; [reflexivity|].
      left. exact Hm.
Qed.

Lemma changeOfRemote_path cachedMap entry change :
  In change (changeOfRemote cachedMap entry) ->
  RemoteChange.path change = fst entry
  /\ RemoteChange.stat change = Some (snd entry)
  /\ match JsMap.get (fst entry) cachedMap with
     | None => RemoteChange.type change = added
     | Some cached =>
         RemoteChange.type change = modified
         /\ isModified cached (snd entry) = true
     end.
Proof.
  unfold changeOfRemote.
  destruct (JsMap.get (fst entry) cachedMap) as [cached|].
  - destruct (isModified cached (snd entry)) eqn:Hmod; simpl;
      intros H; [|contradiction].
    destruct H as [<-|[]]. simpl. repeat split.
  - simpl. intros [<-|[]]. simpl. repeat split.
Qed.

Lemma changeOfCached_path remoteMap entry change :
  In change (changeOfCached remoteMap entry) ->
  RemoteChange.path change = fst entry
  /\ JsMap.get (fst entry) remoteMap = None.
Proof.
  unfold changeOfCached, JsMap.has.
  destruct (JsMap.get (fst entry) remoteMap); simpl; intros H;
    [contradiction|].
  destruct H as [<-|[]]. split; reflexivity.
Qed.

(** C7.  In the file-level diff of a directory, a path that is in both the
    current listing and the cached listing is emitted as [modified] exactly
    when the directory flags differ or, the remote resource being a file,
    the mtimes or the sizes differ; no other change is emitted for the
    path, and when both sides are directories nothing is emitted for it,
    whatever their mtimes.  The diff always returns. *)
Theorem modified_emitted_iff_tuple_differs :
  forall env dirPath w p remoteStat cached,
    JsMap.get p (remoteMapOf env dirPath) = Some remoteStat ->
    JsMap.get p (cachedMapOf (fileIndex (store w)) dirPath) = Some cached ->
    exists changes w',
      scanDirForChanges env dirPath w = (Ret changes, w')
      /\ (In (RemoteChange.mk p modified (Some remoteStat)) changes
          <-> FileIndexEntry.isDir cached <> StatModel.isDir remoteStat
              \/ (StatModel.isDir remoteStat = false
                  /\ (FileIndexEntry.mtime cached <> StatModel.mtime remoteStat
                      \/ FileIndexEntry.size cached
                         <> StatModel.size remoteStat)))
      /\ (forall change,
             In change changes -> RemoteChange.path change = p ->
             change = RemoteChange.mk p modified (Some remoteStat))
      /\ (FileIndexEntry.isDir cached = true ->
          StatModel.isDir remoteStat = true ->
          forall change, In change changes -> RemoteChange.path change <> p).
Proof.
  intros env dirPath w p remoteStat cached Hremote Hcached.
  eexists _, _. split; [apply scanDirForChanges_eq|].
  set (remoteMap := remoteMapOf env dirPath) in *.
  set (cachedMap := cachedMapOf (fileIndex (store w)) dirPath) in *.
  assert (Hnd : List.NoDup (map fst remoteMap)) by apply JsMap_ofList_NoDup.
  assert (Honly : forall change,
             In change (flat_map (changeOfRemote cachedMap) remoteMap
                        ++ flat_map (changeOfCached remoteMap) cachedMap) ->
             RemoteChange.path change = p ->
             change = RemoteChange.mk p modified (Some remoteStat)
             /\ isModified cached remoteStat = true).
  { intros change Hin Hp. apply in_app_or in Hin. destruct Hin as [Hin|Hin].
    - apply in_flat_map in Hin. destruct Hin as ([k r] & Hkr & Hc).
      apply changeOfRemote_path in Hc. simpl in Hc.
      destruct Hc as (Hpath & Hstat & Hget).
      rewrite Hp in Hpath. subst k.
      assert (r = remoteStat).
      { apply (JsMap_In_get _ _ _ Hnd) in Hkr. congruence. }
      subst r. rewrite Hcached in Hget. destruct Hget as [Htype Hmod].
      split; [|exact Hmod]. destruct change; simpl in *. congruence.
    - apply in_flat_map in Hin. destruct Hin as ([k c] & _ & Hc).
      apply changeOfCached_path in Hc. simpl in Hc. destruct Hc as [Hpath Hnone].
      rewrite Hp in Hpath. subst k. congruence. }
  split; [|split].
  - rewrite <- isModified_true_iff. split.
    + intros Hin. apply (Honly _ Hin). reflexivity.
    + intros Hmod. apply in_or_app. left. apply in_flat_map.
      exists (p, remoteStat). split; [apply JsMap_get_In; exact Hremote|].
      unfold changeOfRemote. simpl. rewrite Hcached, Hmod. left. reflexivity.
  - intros change Hin Hp. apply (Honly change Hin Hp).
  - intros Hc Hr change Hin Hp.
    destruct (Honly change Hin Hp) as [_ Hmod].
    apply isModified_true_iff in Hmod.
    destruct Hmod as [Hflip|[Hfile _]]; congruence.
Qed.

(** C7 on scenario S3: [/base/a.txt] is indexed with mtime 100 and size 10
    and listed with mtime 200 and size 20. *)
Lemma modified_emitted_iff_tuple_differs_witness :
  exists changes w',
    scanDirForChanges (scenarioEnv modifiedTree 2000) "/base"
      (worldOf bootstrapStore) = (Ret changes, w')
    /\ (In (RemoteChange.mk "/base/a.txt" modified
              (Some (fileStat "/base/a.txt" "a.txt" 200 20))) changes
        <-> FileIndexEntry.isDir
              (FileIndexEntry.mk "/base/a.txt" "a.txt" false 100 10 None None
                 0 "/base")
            <> StatModel.isDir (fileStat "/base/a.txt" "a.txt" 200 20)
            \/ (StatModel.isDir (fileStat "/base/a.txt" "a.txt" 200 20) = false
                /\ (FileIndexEntry.mtime
                      (FileIndexEntry.mk "/base/a.txt" "a.txt" false 100 10
                         None None 0 "/base")
                    <> StatModel.mtime (fileStat "/base/a.txt" "a.txt" 200 20)
                    \/ FileIndexEntry.size
                         (FileIndexEntry.mk "/base/a.txt" "a.txt" false 100 10
                            None None 0 "/base")
                       <> StatModel.size
                            (fileStat "/base/a.txt" "a.txt" 200 20))))
    /\ (forall change,
           In change changes -> RemoteChange.path change = "/base/a.txt" ->
           change = RemoteChange.mk "/base/a.txt" modified
                      (Some (fileStat "/base/a.txt" "a.txt" 200 20)))
    /\ (FileIndexEntry.isDir
          (FileIndexEntry.mk "/base/a.txt" "a.txt" false 100 10 None None 0
             "/base") = true ->
        StatModel.isDir (fileStat "/base/a.txt" "a.txt" 200 20) = true ->
        forall change,
          In change changes -> RemoteChange.path change <> "/base/a.txt").
Proof.
  apply (modified_emitted_iff_tuple_differs
           (scenarioEnv modifiedTree 2000) "/base" (worldOf bootstrapStore)
           "/base/a.txt" (fileStat "/base/a.txt" "a.txt" 200 20)
           (FileIndexEntry.mk "/base/a.txt" "a.txt" false 100 10 None None 0
              "/base")).
  - vm_compute. reflexivity.
  - vm_compute. reflexivity.
Defined.

(* ===================================================================== *)
(** ** [iterateAll] *)
(* ===================================================================== *)

(** [iterateAll] calls the callback on the first entry of the store and on
    no other: the iterator it hands to [db.iterate] answers with a Promise,
    so the iteration stops after the first pair, whatever the callback
    returns. *)
Lemma iterateAll_eq {A} (callback : FileIndexEntry.t -> A -> A * option bool)
    (locals : A) (w : World) :
  FileIndexStore.iterateAll callback locals w
  = (Ret match map_to_list (fileIndex (store w)) with
         | [] => locals
         | (key, value) :: _ => fst (callback value locals)
         end, w).
Proof.
  unfold FileIndexStore.iterateAll, gets, LocalForage.iterate.
  destruct (map_to_list (fileIndex (store w))) as [|[key value] rest];
    simpl; [reflexivity|].
  unfold FileIndexStore.iterateAllIterator.
  destruct (callback value locals) as [locals' [[|]|]]; reflexivity.
Qed.

(** C9 on a store of three entries, with a callback that asks to continue
    at the first entry it is given and to stop at the second.  A visitor
    that stops when the callback returns [false] hands it two entries;
    [iterateAll] returns after one visit, at which the callback has asked
    to continue, and the other two entries are never handed to it. *)
Theorem iterateAll_stops_after_the_first_entry :
  size (fileIndex threeFilesStore) = 3%nat
  /\ (forall entry, snd (stopAtSecondVisit entry []) = Some true)
  /\ exists visited,
       fst (FileIndexStore.iterateAll stopAtSecondVisit []
              (worldOf threeFilesStore))
       = Ret visited
       /\ length visited = 1%nat.
Proof.
  split; [vm_compute; reflexivity|].
  split; [intros entry; reflexivity|].
  eexists. split; [vm_compute; reflexivity|reflexivity].
Qed.

(* ===================================================================== *)
(** ** Scenario S1: bootstrap of an empty namespace *)
(* ===================================================================== *)

(** C5, as the code has it.  On an empty namespace with the remote tree
    [{/base, /base/a.txt (mtime=100, size=10)}], [walk] returns the listing
    [[a.txt]] and [getStats] afterwards returns [fileCount = 1],
    [dirCount = 0], [hasIndex = true]: the base directory is not a record
    of the index and is not counted.  The helpers of the embedding plugin
    enter through what they answer on this input: decoding leaves
    [/base/a.txt] as it is, [/base/a.txt] lies under the base, [a.txt]
    passes the filter, and nothing is lost that would have to be
    completed. *)
Theorem bootstrap_walk_lists_a_txt_and_counts_no_directory :
  forall env fuel,
    remote env = remoteOfTree bootstrapTree ->
    remoteBaseDir env = "/base" ->
    decodeHtmlEntity env "/base/a.txt" = "/base/a.txt" ->
    isSub env (stdRemotePath env "/base") "/base/a.txt" = true ->
    needInclude env "a.txt" = true ->
    completeLossDir env [aTxt] [aTxt] = [aTxt] ->
    exists w1,
      walk env (S fuel) (worldOf emptyStore) = (Ret [aTxt], w1)
      /\ fst (getStats w1) = Ret (mkIndexStats 1 0 true).
Proof.
  intros env fuel Hremote Hbase Hdecode Hsub Hincl Hcld.
  destruct env as [rem clock base conc dec std sub incl cld].
  simpl in *. subst rem base.
  eexists. split.
  - unfold walk. vm_compute.
    vm_compute in Hdecode. rewrite Hdecode. vm_compute.
    vm_compute in Hsub. rewrite Hsub.
    vm_compute in Hincl. rewrite Hincl.
    vm_compute in Hcld. rewrite Hcld. reflexivity.
  - vm_compute. reflexivity.
Qed.

(** C5 in the environment of the scenarios. *)
Lemma bootstrap_walk_lists_a_txt_and_counts_no_directory_witness :
  exists w1,
    walk (scenarioEnv bootstrapTree 1000) 10 (worldOf emptyStore)
    = (Ret [aTxt], w1)
    /\ fst (getStats w1) = Ret (mkIndexStats 1 0 true).
Proof.
  apply (bootstrap_walk_lists_a_txt_and_counts_no_directory
           (scenarioEnv bootstrapTree 1000) 9);
    vm_compute; reflexivity.
Defined.

(** C5, as the claim states it, fails: after the walk of scenario S1,
    [getStats] does not return [dirCount = 1]. *)
Lemma bootstrap_stats_do_not_count_the_base_directory :
  fst (walk (scenarioEnv bootstrapTree 1000) 10 (worldOf emptyStore))
  = Ret [aTxt]
  /\ fst (getStats (worldOf bootstrapStore)) <> Ret (mkIndexStats 1 1 true).
Proof.
  split; [vm_compute; reflexivity|].
  vm_compute. intros H. discriminate H.
Qed.

(* ===================================================================== *)
(** ** Scenario S4: removal of a nested tree *)
(* ===================================================================== *)

(** C1 on scenario S4, against a server that answers as RFC 4918 has it.
    The walk that populates the index from [/base/sub/{x,y,z}] sends one
    request, takes [/base/sub] for a file and indexes it alone: [x], [y]
    and [z] are never indexed.  After the removal of [/base/sub] on the
    remote, [detectChanges] reports one change, the deletion of
    [/base/sub], and none for the children; the walk that applies it leaves
    an empty index; the detection after it is quiet, and the walk after it
    is a full scan that lists nothing. *)
Theorem nested_removal_reports_the_directory_only :
  walk (scenarioEnv nestedTree 1000) 10 (worldOf emptyStore)
  = (Ret [fileStat "sub" "sub" 1 0],
     {| store := nestedStore;
        requests := [("/base", Depth1)];
        progressCalls := [("scanning", 1%nat, 0%nat)] |})
  /\ size (fileIndex nestedStore) = 1%nat
  /\ FileIndexEntry.isDir <$> (fileIndex nestedStore !! "/base/sub")
     = Some false
  /\ fileIndex nestedStore !! "/base/sub/x" = None
  /\ fileIndex nestedStore !! "/base/sub/y" = None
  /\ fileIndex nestedStore !! "/base/sub/z" = None
  /\ fst (detectChanges (scenarioEnv emptyBaseTree 2000) 10
            (worldOf nestedStore))
     = Ret (DeltaDetectionResult.mk
              [RemoteChange.mk "/base/sub" deleted None] false 1 1)
  /\ fst (walk (scenarioEnv emptyBaseTree 2000) 10 (worldOf nestedStore))
     = Ret []
  /\ fileIndex nestedStoreAfterRemoval = ∅
  /\ fst (detectChanges (scenarioEnv emptyBaseTree 3000) 10
            (worldOf nestedStoreAfterRemoval))
     = Ret (DeltaDetectionResult.mk [] false 1 0)
  /\ fst (walk (scenarioEnv emptyBaseTree 3000) 10
            (worldOf nestedStoreAfterRemoval))
     = Ret [].
Proof.
  repeat split; vm_compute; reflexivity.
Qed.

(* ===================================================================== *)
(** ** Detection on an unchanged remote *)
(* ===================================================================== *)

Lemma depth0Count_app log1 log2 :
  depth0Count (log1 ++ log2) = (depth0Count log1 + depth0Count log2)%nat.
Proof.
  unfold depth0Count. rewrite List.filter_app, length_app. reflexivity.
Qed.

(** A directory whose cached mtime is current is counted and left. *)
Lemma detectDirChanges_unchanged env fuel dirPath cachedMtimes locals w mtime :
  statOf env dirPath = Some mtime ->
  cachedMtimeIs cachedMtimes dirPath mtime = true ->
  detectDirChanges env (S fuel) dirPath cachedMtimes locals w
  = (Ret (mkDetectLocals (dl_changedDirs locals) (S (dl_scannedDirs locals))),
     logRequest dirPath Depth0 w).
Proof.
  intros Hstat Hcached. simpl.
  rewrite (bind_eq _ _ _ _ _ (statDir_eq env dirPath w)).
  rewrite Hstat, Hcached. reflexivity.
Qed.

(** When the cached mtime of the base directory is the one the remote
    reports, the detection stops at the base directory. *)
Lemma detectChanges_quiet env fuel w cached :
  dirMtimeStore (store w) !! remoteBaseDir env = Some cached ->
  statOf env (remoteBaseDir env) = Some (DirMtimeEntry.mtime cached) ->
  detectChanges env (S fuel) w
  = (Ret (DeltaDetectionResult.mk [] false 1 0),
     logRequest (remoteBaseDir env) Depth0 w)
  /\ (1 <= size (dirMtimeStore (store w)))%nat.
Proof.
  intros Hcached Hstat.
  assert (Hsize : (1 <= size (dirMtimeStore (store w)))%nat).
  { destruct (size (dirMtimeStore (store w))) eqn:Hs; [|lia].
    apply map_size_empty_iff in Hs. rewrite Hs in Hcached.
    rewrite lookup_empty in Hcached. discriminate. }
  split; [|exact Hsize].
  unfold detectChanges, DirMtimeStore.getAll.
  rewrite (bind_eq (gets _) _ w (dirMtimeStore (store w)) w eq_refl).
  destruct (Nat.eqb_spec (size (dirMtimeStore (store w))) 0) as [H0|_];
    [lia|].
  erewrite bind_eq.
  2:{ apply detectDirChanges_unchanged
        with (mtime := DirMtimeEntry.mtime cached); [exact Hstat|].
      unfold cachedMtimeIs. rewrite Hcached. apply Z.eqb_refl. }
  reflexivity.
Qed.

(* ===================================================================== *)
(** ** Loops that return *)
(* ===================================================================== *)

(** A relation between the state before and after each iteration that is
    reflexive and transitive relates the state before and after the
    loop. *)
Lemma forEach_relates {T A} (R : A * World -> A * World -> Prop)
    (xs : list T) (body : T -> A -> M A) :
  (forall s, R s s) ->
  (forall s1 s2 s3, R s1 s2 -> R s2 s3 -> R s1 s3) ->
  (forall x a w a' w',
      In x xs -> body x a w = (Ret a', w') -> R (a, w) (a', w')) ->
  forall a w a' w',
    forEach xs body a w = (Ret a', w') -> R (a, w) (a', w').
Proof.
  intros Hrefl Htrans.
  induction xs as [|x xs IH]; intros Hbody a w a' w' Hrun; simpl in Hrun.
  - inversion Hrun; subst. apply Hrefl.
  - unfold bind in Hrun.
    destruct (body x a w) as [[a1|e] w1] eqn:Hx; [|discriminate].
    apply Htrans with (s2 := (a1, w1)).
    + apply (Hbody x a w a1 w1); [left; reflexivity|exact Hx].
    + apply IH; [|exact Hrun].
      intros y b v b' v' Hy. apply Hbody. right. exact Hy.
Qed.

(* ===================================================================== *)
(** ** One depth-0 request per scanned directory *)
(* ===================================================================== *)

Lemma depth0Count_logRequest path depth w :
  depth0Count (requests (logRequest path depth w))
  = (depth0Count (requests w)
     + match depth with Depth0 => 1 | Depth1 => 0 end)%nat.
Proof.
  unfold logRequest. simpl. rewrite depth0Count_app.
  destruct depth; reflexivity.
Qed.

(** [detectDirChanges] issues one depth-0 request for each directory it
    counts as scanned. *)
Lemma detectDirChanges_depth0 env fuel :
  forall dirPath cachedMtimes locals w locals' w',
    detectDirChanges env fuel dirPath cachedMtimes locals w = (Ret locals', w') ->
    (depth0Count (requests w') + dl_scannedDirs locals
     = depth0Count (requests w) + dl_scannedDirs locals')%nat.
Proof.
  induction fuel as [|fuel IH];
    intros dirPath cachedMtimes locals w locals' w' Hrun; simpl in Hrun.
  - discriminate.
  - rewrite (bind_eq _ _ _ _ _ (statDir_eq env dirPath w)) in Hrun.
    destruct (statOf env dirPath) as [currentMtime|].
    + destruct (cachedMtimeIs cachedMtimes dirPath currentMtime).
      * inversion Hrun; subst. rewrite depth0Count_logRequest.
        cbn [dl_scannedDirs]. lia.
      * rewrite (bind_eq _ _ _ _ _ (getSubDirs_eq env dirPath _)) in Hrun.
        apply (forEach_relates
                 (fun s1 s2 =>
                    (depth0Count (requests (snd s2)) + dl_scannedDirs (fst s1)
                     = depth0Count (requests (snd s1))
                       + dl_scannedDirs (fst s2))%nat)) in Hrun.
        -- cbn [fst snd dl_scannedDirs] in Hrun.
           rewrite !depth0Count_logRequest in Hrun. lia.
        -- intros s. lia.
        -- intros s1 s2 s3 H12 H23. lia.
        -- intros chunk a v a' v' _ Hchunk.
           apply (forEach_relates
                    (fun s1 s2 =>
                       (depth0Count (requests (snd s2)) + dl_scannedDirs (fst s1)
                        = depth0Count (requests (snd s1))
                          + dl_scannedDirs (fst s2))%nat)) in Hchunk.
           ++ exact Hchunk.
           ++ intros s. lia.
           ++ intros s1 s2 s3 H12 H23. lia.
           ++ intros subDir b u b' u' _ Hsub. simpl.
              apply (IH _ _ _ _ _ _ Hsub).
    + inversion Hrun; subst. rewrite depth0Count_logRequest.
      cbn [dl_scannedDirs]. lia.
Qed.

(** The number of depth-0 PROPFINDs of a detection is the number of
    directories it reports as scanned. *)
Lemma detectChanges_depth0_is_scannedDirs env fuel w result w' :
  detectChanges env fuel w = (Ret result, w') ->
  depth0Count (requests w')
  = (depth0Count (requests w) + DeltaDetectionResult.scannedDirs result)%nat.
Proof.
  unfold detectChanges, DirMtimeStore.getAll.
  rewrite (bind_eq (gets _) _ w (dirMtimeStore (store w)) w eq_refl).
  destruct (Nat.eqb (size (dirMtimeStore (store w))) 0).
  - intros H. inversion H; subst. simpl. lia.
  - unfold bind at 1.
    destruct (detectDirChanges env fuel (remoteBaseDir env)
                (dirMtimeStore (store w)) (mkDetectLocals [] 0) w)
      as [[locals|e] w1] eqn:Hdetect; [|discriminate].
    apply detectDirChanges_depth0 in Hdetect. simpl in Hdetect.
    unfold bind at 1.
    destruct (Nat.ltb 0 (length (dl_changedDirs locals))).
    + destruct (forEach (dl_changedDirs locals) _ [] w1)
        as [[changes|e] w2] eqn:Hloop; [|discriminate].
      apply (forEach_relates
               (fun s1 s2 =>
                  depth0Count (requests (snd s2))
                  = depth0Count (requests (snd s1)))) in Hloop.
      * simpl in Hloop. intros H. inversion H; subst. simpl. lia.
      * reflexivity.
      * intros s1 s2 s3 H12 H23. congruence.
      * intros dir changes0 v changes1 v' _ Hscan. simpl.
        unfold bind in Hscan. rewrite scanDirForChanges_eq in Hscan.
        inversion Hscan; subst. cbn [snd].
        rewrite depth0Count_logRequest. lia.
    + intros H. inversion H; subst. simpl. lia.
Qed.

(* ===================================================================== *)
(** ** What a full scan caches for the base directory *)
(* ===================================================================== *)

Lemma extendsBelow_refl rank bound entries :
  extendsBelow rank bound entries entries.
Proof. exists []. split; [symmetry; apply app_nil_r|constructor]. Qed.

Lemma extendsBelow_trans rank bound l1 l2 l3 :
  extendsBelow rank bound l1 l2 -> extendsBelow rank bound l2 l3 ->
  extendsBelow rank bound l1 l3.
Proof.
  intros (m1 & -> & H1) (m2 & -> & H2). exists (m1 ++ m2).
  split; [symmetry; apply app_assoc|]. apply Forall_app. split; assumption.
Qed.

Lemma fullScanBatch_dirMtimes env onProgress entries dirPath dirMtime
    locals w locals' w' :
  fullScanBatch env onProgress entries dirPath dirMtime locals w
  = (Ret locals', w') ->
  sl_dirMtimes locals'
  = sl_dirMtimes locals
      ++ [DirMtimeEntry.mk dirPath dirMtime (now env) (length entries)].
Proof.
  unfold fullScanBatch. unfold bind at 1. rewrite batchSet_eq.
  unfold bind.
  destruct (match onProgress with
            | Some notify => _
            | None => ret tt
            end _) as [[[]|e] w1]; [|discriminate].
  intros H. inversion H; subst. reflexivity.
Qed.

Lemma in_subDirsOf env dirPath contents subDir :
  remote env dirPath Depth1 = Some contents ->
  In subDir
    (List.filter (fun item => StatModel.isDir item)
       (List.filter
          (fun c => negb (String.eqb (StatModel.path c) dirPath)) contents)) ->
  In (StatModel.path subDir) (subDirsOf env dirPath).
Proof.
  intros Hremote Hin. unfold subDirsOf. rewrite Hremote.
  apply filter_In in Hin. destruct Hin as [Hin Hdir].
  apply filter_In in Hin. destruct Hin as [Hin Hne].
  apply in_map. apply filter_In. split; [exact Hin|].
  rewrite Hdir, Hne. reflexivity.
Qed.

(** A scan of [dirPath] that returns has pushed the entry of [dirPath]
    first, and after it only entries of directories that rank below it. *)
Lemma scanDirRecursive_dirMtimes env rank onProgress :
  wellFoundedRemote env rank ->
  forall fuel dirPath locals w locals' w',
    scanDirRecursive env fuel dirPath (fullScanBatch env onProgress) locals w
    = (Ret locals', w') ->
    exists contents entry more,
      remote env dirPath Depth1 = Some contents
      /\ DirMtimeEntry.path entry = dirPath
      /\ DirMtimeEntry.mtime entry = listedMtime dirPath contents
      /\ sl_dirMtimes locals' = sl_dirMtimes locals ++ entry :: more
      /\ Forall (fun e => (rank (DirMtimeEntry.path e) < rank dirPath)%nat) more.
Proof.
  intros Hwf fuel.
  induction fuel as [|fuel IH]; intros dirPath locals w locals' w' Hrun;
    simpl in Hrun.
  - discriminate.
  - unfold bind at 1 in Hrun. unfold propfind in Hrun.
    destruct (remote env dirPath Depth1) as [contents|] eqn:Hremote;
      [|discriminate].
    unfold bind at 1 in Hrun.
    destruct (fullScanBatch env onProgress _ dirPath _ locals _)
      as [[locals1|e] w1] eqn:Hbatch; [|discriminate].
    apply fullScanBatch_dirMtimes in Hbatch.
    apply (forEach_relates
             (fun s1 s2 =>
                extendsBelow rank (rank dirPath)
                  (sl_dirMtimes (fst s1)) (sl_dirMtimes (fst s2)))) in Hrun.
    + cbn [fst] in Hrun. destruct Hrun as (more & Hmore & Hbelow).
      exists contents,
        (DirMtimeEntry.mk dirPath (listedMtime dirPath contents) (now env)
           (length
              (List.filter
                 (fun c => negb (String.eqb (StatModel.path c) dirPath))
                 contents))),
        more.
      rewrite Hmore, Hbatch, <- app_assoc.
      split; [reflexivity|]. split; [reflexivity|]. split; [reflexivity|].
      split; [reflexivity|exact Hbelow].
    + intros s. apply extendsBelow_refl.
    + intros s1 s2 s3. apply extendsBelow_trans.
    + intros chunk a v a' v' Hchunk Hloop.
      apply (forEach_relates
               (fun s1 s2 =>
                  extendsBelow rank (rank dirPath)
                    (sl_dirMtimes (fst s1)) (sl_dirMtimes (fst s2)))) in Hloop.
      * exact Hloop.
      * intros s. apply extendsBelow_refl.
      * intros s1 s2 s3. apply extendsBelow_trans.
      * intros subDir b u b' u' HsubDir Hsub. cbn [fst].
        assert (Hrank : (rank (StatModel.path subDir) < rank dirPath)%nat).
        { apply Hwf. apply (in_subDirsOf env dirPath contents); [exact Hremote|].
          eapply in_chunkArray; eauto using concurrency_pos. }
        destruct (IH _ _ _ _ _ Hsub)
          as (contents' & entry & more & _ & Hpath & _ & Hgrow & Hbelow).
        exists (entry :: more). split; [exact Hgrow|].
        constructor; [rewrite Hpath; exact Hrank|].
        eapply Forall_impl; [exact Hbelow|]. simpl. intros e He. lia.
Qed.

Lemma insertAllDirMtimes_lookup_other entries :
  forall cache p,
    Forall (fun e => DirMtimeEntry.path e <> p) entries ->
    insertAllDirMtimes entries cache !! p = cache !! p.
Proof.
  induction entries as [|entry entries IH]; intros cache p Hp.
  - reflexivity.
  - inversion Hp as [|? ? Hne Hrest]; subst.
    change (insertAllDirMtimes entries
              (<[DirMtimeEntry.path entry := entry]> cache) !! p = cache !! p).
    rewrite IH by exact Hrest. apply lookup_insert_ne. exact Hne.
Qed.

Lemma dirMtime_batchSet_eq entries :
  forall w,
    fst (DirMtimeStore.batchSet entries w) = Ret tt
    /\ dirMtimeStore (store (snd (DirMtimeStore.batchSet entries w)))
       = insertAllDirMtimes entries (dirMtimeStore (store w)).
Proof.
  unfold DirMtimeStore.batchSet.
  induction entries as [|entry entries IH]; intros w; simpl.
  - split; reflexivity.
  - unfold bind, DirMtimeStore.set, modify.
    apply IH.
Qed.

Lemma preserves_fullScanBatch P env onProgress entries dirPath dirMtime locals :
  (forall e s, P s ->
               P (onFileIndex
                    (LocalForage.setItem (FileIndexEntry.path e) e) s)) ->
  readOnlyProgress onProgress ->
  preserves P (fullScanBatch env onProgress entries dirPath dirMtime locals).
Proof.
  intros Hset Hro. unfold fullScanBatch.
  apply preserves_bind; [|intros []].
  - apply preserves_batchSet. intros e s _. apply Hset.
  - apply preserves_bind; [|intros []; apply preserves_ret].
    destruct onProgress as [notify|] eqn:Heq; [|apply preserves_ret].
    eapply preserves_readOnlyProgress; [exact Hro|reflexivity].
Qed.

(** A full scan that returns has cached, for the base directory, the mtime
    that its depth-1 listing gives. *)
Lemma fullScan_caches_base_mtime env rank fuel onProgress w result w' :
  wellFoundedRemote env rank ->
  readOnlyProgress onProgress ->
  fullScan env fuel onProgress w = (Ret result, w') ->
  exists contents cached,
    remote env (remoteBaseDir env) Depth1 = Some contents
    /\ dirMtimeStore (store w') !! remoteBaseDir env = Some cached
    /\ DirMtimeEntry.mtime cached = listedMtime (remoteBaseDir env) contents.
Proof.
  intros Hwf Hro. unfold fullScan, FileIndexStore.clear, DirMtimeStore.clear.
  unfold bind at 1. cbn [modify].
  unfold bind at 1. cbn [modify].
  set (w0 := {| store := onDirMtime LocalForage.clear _;
                requests := _; progressCalls := _ |}).
  unfold bind at 1.
  destruct (scanDirRecursive env fuel (remoteBaseDir env)
              (fullScanBatch env onProgress) (mkScanLocals 0 0 []) w0)
    as [[locals|e] w1] eqn:Hscan; [|discriminate].
  assert (Hempty : dirMtimeStore (store w1) = ∅).
  { assert (Hp : preserves (fun s => dirMtimeStore s = ∅)
                   (scanDirRecursive env fuel (remoteBaseDir env)
                      (fullScanBatch env onProgress) (mkScanLocals 0 0 []))).
    { apply preserves_scanDirRecursive. intros items d m l.
      apply preserves_fullScanBatch; [|exact Hro].
      intros e s Hs. exact Hs. }
    specialize (Hp w0 eq_refl). rewrite Hscan in Hp. exact Hp. }
  apply (scanDirRecursive_dirMtimes env rank onProgress Hwf) in Hscan.
  destruct Hscan as (contents & entry & more & Hremote & Hpath & Hmtime
                     & Hlist & Hbelow).
  cbn [sl_dirMtimes app] in Hlist.
  destruct (dirMtime_batchSet_eq (sl_dirMtimes locals) w1) as [Hret Hcache].
  unfold bind.
  destruct (DirMtimeStore.batchSet (sl_dirMtimes locals) w1) as [[[]|e] w2];
    [|discriminate].
  cbn [snd] in Hcache. intros H. inversion H; subst w'. clear H.
  exists contents, entry. split; [exact Hremote|]. split; [|exact Hmtime].
  rewrite Hcache, Hlist, Hempty.
  change (insertAllDirMtimes more (<[DirMtimeEntry.path entry := entry]> ∅)
            !! remoteBaseDir env = Some entry).
  rewrite insertAllDirMtimes_lookup_other.
  - rewrite Hpath. apply lookup_insert_eq.
  - eapply Forall_impl; [exact Hbelow|]. simpl. intros e He Heq.
    rewrite Heq in He. lia.
Qed.

Lemma readOnlyProgress_notifyProgress :
  readOnlyProgress
    (Some (fun scanned (currentPath : string) =>
             notifyProgress "scanning" scanned 0)).
Proof. intros notify scanned currentPath w H. inversion H. reflexivity. Qed.

Lemma getFromIndex_eq env w :
  exists listing, getFromIndex env w = (Ret listing, w).
Proof.
  unfold getFromIndex. eexists.
  rewrite (bind_eq _ _ _ _ _ (iterateAll_eq _ _ w)). reflexivity.
Qed.

(** A walk over an empty index runs the full scan; when it returns, the
    directory-mtime cache is the one the full scan has written. *)
Lemma walk_fresh_caches_base_mtime env rank fuel w listing w1 :
  wellFoundedRemote env rank ->
  fileIndex (store w) = ∅ ->
  walk env fuel w = (Ret listing, w1) ->
  exists contents cached,
    remote env (remoteBaseDir env) Depth1 = Some contents
    /\ dirMtimeStore (store w1) !! remoteBaseDir env = Some cached
    /\ DirMtimeEntry.mtime cached = listedMtime (remoteBaseDir env) contents.
Proof.
  intros Hwf Hfresh. unfold walk, SyncProgressStore.get, FileIndexStore.count.
  rewrite (bind_eq (gets _) _ w _ w eq_refl).
  rewrite (bind_eq (gets _) _ w _ w eq_refl).
  unfold LocalForage.length. rewrite Hfresh, map_size_empty. cbn [Nat.eqb].
  unfold driverFullScan, SyncProgressStore.save.
  unfold bind at 1. cbn [modify].
  unfold bind at 1.
  match goal with
  | |- context [fullScan env fuel ?op ?w0] =>
      destruct (fullScan env fuel op w0) as [[result|e] w2] eqn:Hscan;
        [|discriminate]
  end.
  apply (fullScan_caches_base_mtime env rank) in Hscan;
    [|exact Hwf|exact readOnlyProgress_notifyProgress].
  unfold SyncProgressStore.clear. unfold bind at 1. cbn [modify].
  match goal with
  | |- getFromIndex env ?w3 = _ -> _ =>
      destruct (getFromIndex_eq env w3) as (l & Hl); rewrite Hl
  end.
  intros H. inversion H; subst. exact Hscan.
Qed.

(** Scenario S2 in general: after a walk over an empty index, on a remote
    tree that is well founded, lists the base directory in its own depth-1
    listing and does not change, [detectChanges] returns an empty change
    list after exactly one depth-0 PROPFIND. *)
Lemma detectChanges_quiet_after_fresh_walk env rank fuel fuel' w listing w1 :
  wellFoundedRemote env rank ->
  selfListed env (remoteBaseDir env) ->
  fileIndex (store w) = ∅ ->
  walk env fuel w = (Ret listing, w1) ->
  detectChanges env (S fuel') (worldOf (store w1))
  = (Ret (DeltaDetectionResult.mk [] false 1 0),
     logRequest (remoteBaseDir env) Depth0 (worldOf (store w1)))
  /\ (1 <= size (dirMtimeStore (store w1)))%nat.
Proof.
  intros Hwf (self & rest & contents & listed & H0 & H1 & Hfind & Hsame)
         Hfresh Hwalk.
  destruct (walk_fresh_caches_base_mtime env rank fuel w listing w1
              Hwf Hfresh Hwalk) as (contents' & cached & H1' & Hcached & Hmtime).
  rewrite H1 in H1'. inversion H1'; subst contents'.
  apply (detectChanges_quiet env fuel' (worldOf (store w1)) cached).
  - exact Hcached.
  - unfold statOf. rewrite H0, Hmtime. unfold listedMtime.
    rewrite Hfind, Hsame. reflexivity.
Qed.

(* ===================================================================== *)
(** ** Invariant 1 after a full scan *)
(* ===================================================================== *)

Lemma parentIndexed_true_iff root index entry :
  parentIndexed root index entry = true <-> parentOk root index entry.
Proof.
  unfold parentIndexed, parentOk. rewrite orb_true_iff, String.eqb_eq.
  split; (intros [H|H]; [left; exact H|right]).
  - destruct (index !! FileIndexEntry.parentPath entry) as [parent|];
      [|discriminate].
    exists parent. split; [reflexivity|exact H].
  - destruct H as (parent & -> & H). exact H.
Qed.

Lemma parentsIndexed_true_iff root index :
  parentsIndexed root index = true
  <-> forall p entry, index !! p = Some entry -> parentOk root index entry.
Proof.
  unfold parentsIndexed. rewrite forallb_forall. split.
  - intros H p entry Hl. apply parentIndexed_true_iff.
    apply (H (p, entry)). apply list_elem_of_In.
    apply elem_of_map_to_list. exact Hl.
  - intros H [p entry] Hin. apply parentIndexed_true_iff. simpl.
    apply (H p). apply elem_of_map_to_list. apply list_elem_of_In. exact Hin.
Qed.

Lemma insertAll_lookup_cases entries :
  forall index p,
    (insertAll entries index !! p = index !! p
     /\ forall e, In e entries -> FileIndexEntry.path e <> p)
    \/ exists e, In e entries /\ FileIndexEntry.path e = p
                 /\ insertAll entries index !! p = Some e.
Proof.
  intros index p.
  destruct (existsb (fun e => String.eqb (FileIndexEntry.path e) p) entries)
    eqn:Hex.
  - right. apply existsb_exists in Hex. destruct Hex as (e & He & Hp).
    apply String.eqb_eq in Hp.
    destruct (insertAll_lookup_written entries index e He)
      as (e' & Hl & Hin & Hpath).
    exists e'. rewrite Hp in *. repeat split; assumption.
  - left.
    assert (Hne : forall e, In e entries -> FileIndexEntry.path e <> p).
    { intros e He Hp.
      assert (Htrue : existsb (fun e => String.eqb (FileIndexEntry.path e) p)
                        entries = true).
      { apply existsb_exists. exists e. split; [exact He|].
        apply String.eqb_eq. exact Hp. }
      congruence. }
    split; [apply insertAll_lookup_other; exact Hne|exact Hne].
Qed.

Lemma insertAll_is_Some entries :
  forall index p, is_Some (index !! p) -> is_Some (insertAll entries index !! p).
Proof.
  intros index p Hsome.
  destruct (insertAll_lookup_cases entries index p) as [[Heq _]|(e & _ & _ & Hl)].
  - rewrite Heq. exact Hsome.
  - rewrite Hl. eexists. reflexivity.
Qed.

Lemma scannedFrom_unique env p item1 item2 :
  listsOnce env -> listedAt env p item1 -> listedAt env p item2 ->
  item1 = item2.
Proof.
  intros Honce (c1 & Hr1 & Hin1 & Hp1 & _) (c2 & Hr2 & Hin2 & Hp2 & _).
  rewrite Hr1 in Hr2. inversion Hr2; subst c2.
  apply (Honce _ _ _ _ Hr1 Hin1 Hin2). congruence.
Qed.

(** Writing the batch of a scannable directory keeps the invariant. *)
Lemma scanInvariant_batch env dirPath contents index :
  listsChildren env -> listsOnce env ->
  remote env dirPath Depth1 = Some contents ->
  scannable env dirPath index ->
  scanInvariant env index ->
  scanInvariant env
    (insertAll
       (map scannedEntry
          (List.filter
             (fun c => negb (String.eqb (StatModel.path c) dirPath)) contents))
       index).
Proof.
  intros Hchildren Honce Hremote Hscannable Hinv.
  set (items := List.filter _ contents).
  assert (Hitem : forall e, In e (map scannedEntry items) ->
            exists item, In item contents /\ StatModel.path item <> dirPath
                         /\ e = scannedEntry item
                         /\ listedAt env (FileIndexEntry.path e) item).
  { intros e He. apply in_map_iff in He. destruct He as (item & <- & Hin).
    apply filter_In in Hin. destruct Hin as [Hin Hne].
    apply negb_true_iff, String.eqb_neq in Hne.
    exists item. repeat split; try assumption.
    exists contents. simpl.
    rewrite (Hchildren _ _ _ Hremote Hin Hne).
    repeat split; assumption. }
  (* the parent of a record keeps being a directory of the index *)
  assert (Hkeep : forall q parent,
            index !! q = Some parent -> FileIndexEntry.isDir parent = true ->
            exists parent', insertAll (map scannedEntry items) index !! q
                            = Some parent'
                            /\ FileIndexEntry.isDir parent' = true).
  { intros q parent Hq Hdir.
    destruct (insertAll_lookup_cases (map scannedEntry items) index q)
      as [[Heq _]|(e & He & Hp & Hl)].
    - exists parent. rewrite Heq. split; assumption.
    - exists e. split; [exact Hl|].
      destruct (Hitem e He) as (item & _ & _ & -> & Hlisted).
      destruct (Hinv q parent Hq) as [(item' & Hlisted' & ->) _].
      rewrite Hp in Hlisted.
      rewrite (scannedFrom_unique env q item item' Honce Hlisted Hlisted').
      exact Hdir. }
  intros p entry Hl.
  apply insertAll_lookup_Some in Hl. destruct Hl as [Hold|[Hnew Hp]].
  - destruct (Hinv p entry Hold) as [Hfrom Hok]. split; [exact Hfrom|].
    destruct Hok as [Hroot|(parent & Hq & Hdir)]; [left; exact Hroot|].
    right. apply (Hkeep _ parent Hq Hdir).
  - destruct (Hitem entry Hnew) as (item & Hin & Hne & -> & Hlisted).
    split; [exists item; rewrite <- Hp; split; [exact Hlisted|reflexivity]|].
    unfold parentOk. simpl.
    rewrite (Hchildren _ _ _ Hremote Hin Hne).
    destruct Hscannable as [Hbase|[(ditem & Hdlisted & Hddir) [dentry Hd]]];
      [left; exact Hbase|right].
    destruct (Hinv dirPath dentry Hd) as [(ditem' & Hdlisted' & ->) _].
    apply (Hkeep dirPath (scannedEntry ditem') Hd).
    rewrite (scannedFrom_unique env dirPath ditem' ditem Honce Hdlisted' Hdlisted).
    exact Hddir.
Qed.

Lemma fullScanBatch_store env onProgress entries dirPath dirMtime locals w :
  readOnlyProgress onProgress ->
  store (snd (fullScanBatch env onProgress entries dirPath dirMtime locals w))
  = store (withFileIndex
             (insertAll (map scannedEntry entries) (fileIndex (store w))) w).
Proof.
  intros Hro. unfold fullScanBatch. unfold bind at 1. rewrite batchSet_eq.
  unfold bind. destruct onProgress as [notify|].
  - match goal with
    | |- context [notify ?n ?d ?w1] =>
        pose proof (Hro notify n d w1 eq_refl) as Hsame;
        destruct (notify n d w1) as [[[]|e] w2]
    end; exact Hsame.
  - reflexivity.
Qed.

Lemma scanDirRecursive_keeps_keys env onProgress q :
  readOnlyProgress onProgress ->
  forall fuel dirPath locals,
    preserves (fun s => is_Some (fileIndex s !! q))
      (scanDirRecursive env fuel dirPath (fullScanBatch env onProgress) locals).
Proof.
  intros Hro. apply preserves_scanDirRecursive. intros items d m l.
  apply preserves_fullScanBatch; [|exact Hro].
  intros e s Hs. simpl. unfold LocalForage.setItem.
  destruct (decide (FileIndexEntry.path e = q)) as [->|Hne].
  - rewrite lookup_insert_eq. eexists. reflexivity.
  - rewrite lookup_insert_ne by exact Hne. exact Hs.
Qed.

(** A scan of a scannable directory keeps the invariant, however it
    ends. *)
Lemma scanDirRecursive_keeps_invariant env onProgress :
  listsChildren env -> listsOnce env -> readOnlyProgress onProgress ->
  forall fuel dirPath locals,
    preserves
      (fun s => scanInvariant env (fileIndex s)
                /\ scannable env dirPath (fileIndex s))
      (scanDirRecursive env fuel dirPath (fullScanBatch env onProgress) locals).
Proof.
  intros Hchildren Honce Hro fuel.
  induction fuel as [|fuel IH]; intros dirPath locals w [Hinv Hsc].
  - split; assumption.
  - remember (scanDirRecursive env (S fuel) dirPath
                (fullScanBatch env onProgress) locals w) as r eqn:Hr.
    simpl in Hr. unfold bind at 1 in Hr. unfold propfind in Hr.
    destruct (remote env dirPath Depth1) as [contents|] eqn:Hremote;
      [|subst r; split; assumption].
    set (items := List.filter
                    (fun c => negb (String.eqb (StatModel.path c) dirPath))
                    contents) in *.
    set (w0 := logRequest dirPath Depth1 w) in *.
    set (dirMtime := match List.find _ contents with
                     | Some c => Js.orZero (StatModel.mtime c)
                     | None => 0
                     end) in *.
    pose proof (fullScanBatch_store env onProgress items dirPath dirMtime
                  locals w0 Hro) as Hstore.
    set (index1 := insertAll (map scannedEntry items) (fileIndex (store w))) in *.
    assert (Hinv1 : scanInvariant env index1).
    { apply scanInvariant_batch; assumption. }
    assert (Hsc1 : scannable env dirPath index1).
    { destruct Hsc as [Hbase|[Hlisted Hsome]]; [left; exact Hbase|right].
      split; [exact Hlisted|]. apply insertAll_is_Some. exact Hsome. }
    assert (Hsub1 : forall subDir,
              In subDir (List.filter (fun item => StatModel.isDir item) items) ->
              listedAt env (StatModel.path subDir) subDir
              /\ StatModel.isDir subDir = true
              /\ is_Some (index1 !! StatModel.path subDir)).
    { intros subDir Hin. apply filter_In in Hin. destruct Hin as [Hin Hdir].
      assert (Hitem := Hin). apply filter_In in Hin. destruct Hin as [Hin Hne].
      apply negb_true_iff, String.eqb_neq in Hne.
      pose proof (Hchildren _ _ _ Hremote Hin Hne) as Hdirname.
      split; [|split; [exact Hdir|]].
      - exists contents. rewrite Hdirname. repeat split; assumption.
      - destruct (insertAll_lookup_written (map scannedEntry items)
                    (fileIndex (store w)) (scannedEntry subDir))
          as (e & Hl & _ & _); [apply in_map; exact Hitem|].
        simpl in Hl. unfold index1. rewrite Hl. eexists. reflexivity. }
    unfold bind at 1 in Hr.
    destruct (fullScanBatch env onProgress items dirPath dirMtime locals w0)
      as [[locals1|e] w1]; cbn [snd] in Hstore; subst r.
    + assert (Hloop :
        preserves
          (fun s => scanInvariant env (fileIndex s)
                    /\ scannable env dirPath (fileIndex s)
                    /\ forall subDir,
                         In subDir
                           (List.filter (fun item => StatModel.isDir item) items) ->
                         is_Some (fileIndex s !! StatModel.path subDir))
          (forEach
             (chunkArray (List.filter (fun item => StatModel.isDir item) items)
                (concurrency env))
             (fun chunk locals0 =>
                forEach chunk
                  (fun subDir locals2 =>
                     scanDirRecursive env fuel (StatModel.path subDir)
                       (fullScanBatch env onProgress) locals2)
                  locals0)
             locals1)).
      { apply preserves_forEach. intros chunk a Hchunk.
        apply preserves_forEach. intros subDir b HsubDir v (Hi & Hs & Hk).
        assert (Hin : In subDir
                        (List.filter (fun item => StatModel.isDir item) items)).
        { eapply in_chunkArray; eauto using concurrency_pos. }
        destruct (Hsub1 subDir Hin) as (Hlisted & Hdir & _).
        destruct (IH (StatModel.path subDir) b v) as [Hi' _].
        { split; [exact Hi|]. right. split; [|apply Hk; exact Hin].
          exists subDir. split; assumption. }
        split; [exact Hi'|]. split.
        - destruct Hs as [Hbase|[Hl Hsome]]; [left; exact Hbase|right].
          split; [exact Hl|].
          apply (scanDirRecursive_keeps_keys env onProgress dirPath Hro
                   fuel (StatModel.path subDir) b v Hsome).
        - intros subDir' Hin'.
          apply (scanDirRecursive_keeps_keys env onProgress
                   (StatModel.path subDir') Hro fuel (StatModel.path subDir)
                   b v (Hk subDir' Hin')). }
      destruct (Hloop w1) as (Hi & Hs & _).
      { rewrite Hstore. cbn [store withFileIndex fileIndex].
        split; [exact Hinv1|]. split; [exact Hsc1|].
        intros subDir Hin. apply (Hsub1 subDir Hin). }
      exact (conj Hi Hs).
    + cbn [snd]. rewrite Hstore. cbn [store withFileIndex fileIndex].
      exact (conj Hinv1 Hsc1).
Qed.

(** Invariant 1 holds of the index that a full scan leaves, on a remote
    that lists under a directory its children only, and each of them
    once. *)
Lemma fullScan_establishes_parent_invariant env fuel onProgress w :
  listsChildren env -> listsOnce env -> readOnlyProgress onProgress ->
  parentsIndexed (remoteBaseDir env)
    (fileIndex (store (snd (fullScan env fuel onProgress w)))) = true.
Proof.
  intros Hchildren Honce Hro.
  apply parentsIndexed_true_iff. intros p entry Hl.
  cut (scanInvariant env
         (fileIndex (store (snd (fullScan env fuel onProgress w))))).
  { intros Hinv. apply (Hinv p entry Hl). }
  clear p entry Hl.
  unfold fullScan, FileIndexStore.clear, DirMtimeStore.clear.
  unfold bind at 1. cbn [modify].
  unfold bind at 1. cbn [modify].
  set (w0 := {| store := onDirMtime LocalForage.clear _;
                requests := _; progressCalls := _ |}).
  assert (H0 : scanInvariant env (fileIndex (store w0))
               /\ scannable env (remoteBaseDir env) (fileIndex (store w0))).
  { split; [|left; reflexivity].
    intros p entry Hl. simpl in Hl. unfold LocalForage.clear in Hl.
    rewrite lookup_empty in Hl. discriminate. }
  apply (scanDirRecursive_keeps_invariant env onProgress Hchildren Honce Hro
           fuel (remoteBaseDir env) (mkScanLocals 0 0 []) w0) in H0.
  unfold bind at 1.
  destruct (scanDirRecursive env fuel (remoteBaseDir env)
              (fullScanBatch env onProgress) (mkScanLocals 0 0 []) w0)
    as [[locals|e] w1]; cbn [snd] in H0; [|apply H0].
  assert (Hp : preserves (fun s => scanInvariant env (fileIndex s))
                 (DirMtimeStore.batchSet (sl_dirMtimes locals))).
  { apply preserves_dirMtime_batchSet. intros e s Hs. exact Hs. }
  specialize (Hp w1 (proj1 H0)). unfold bind.
  destruct (DirMtimeStore.batchSet (sl_dirMtimes locals) w1) as [[[]|e] w2];
    exact Hp.
Qed.

(* ===================================================================== *)
(** ** What the adapter makes of empty collection elements *)
(* ===================================================================== *)

(** The adapter sets [isDir] from the [collection] element alone. *)
Lemma parsePropfindItem_isDir decode dateOf parseInt basePath item :
  StatModel.isDir (parsePropfindItem decode dateOf parseInt basePath item)
  = truthy (PropfindItem.collection item).
Proof.
  unfold parsePropfindItem.
  destruct (truthy (PropfindItem.collection item)); reflexivity.
Qed.

Lemma in_parsePropfindResponse decode dateOf parseInt basePath responses stat :
  In stat (parsePropfindResponse decode dateOf parseInt basePath responses) ->
  exists item,
    In item (itemsOf responses)
    /\ stat = parsePropfindItem decode dateOf parseInt basePath item.
Proof.
  destruct responses as [|item|items]; simpl.
  - intros [].
  - intros [<-|[]]. exists item. split; [left|]; reflexivity.
  - intros Hin. apply in_map_iff in Hin. destruct Hin as (item & <- & Hin).
    exists item. split; [exact Hin|reflexivity].
Qed.

(** Against a server whose [collection] elements are empty, no answer of
    the adapter names a directory. *)
Lemma emptyCollectionElements_noDirectoryListed env :
  emptyCollectionElements env -> noDirectoryListed env.
Proof.
  intros (server & basePath & Hanswer & Hempty) path depth contents stat
         Hremote Hin.
  rewrite Hanswer in Hremote. unfold propfindAnswer in Hremote.
  destruct (requestUrl server path depth) as [responses|] eqn:Hrequest;
    [|discriminate].
  inversion Hremote; subst contents. clear Hremote.
  apply in_parsePropfindResponse in Hin. destruct Hin as (item & Hitem & ->).
  rewrite parsePropfindItem_isDir.
  specialize (Hempty path depth responses item Hrequest Hitem).
  destruct (PropfindItem.collection item); [reflexivity|reflexivity|].
  contradiction.
Qed.

(** Then no directory has a sub-directory to descend into, and the remote
    is well founded whatever the rank. *)
Lemma noDirectoryListed_subDirsOf env dirPath :
  noDirectoryListed env -> subDirsOf env dirPath = [].
Proof.
  intros Hno. unfold subDirsOf.
  destruct (remote env dirPath Depth1) as [contents|] eqn:Hremote;
    [|reflexivity].
  rewrite (filter_ext_in _ (fun _ => false)).
  - rewrite filter_false. reflexivity.
  - intros item Hin. rewrite (Hno _ _ _ _ Hremote Hin). reflexivity.
Qed.

Lemma noDirectoryListed_wellFounded env rank :
  noDirectoryListed env -> wellFoundedRemote env rank.
Proof.
  intros Hno dirPath subDir Hin.
  rewrite noDirectoryListed_subDirsOf in Hin by exact Hno. destruct Hin.
Qed.

(* ===================================================================== *)
(** ** The server of the scenarios *)
(* ===================================================================== *)

Lemma itemsOf_multistatus items : itemsOf (multistatus items) = items.
Proof. destruct items as [|item [|item' items]]; reflexivity. Qed.

(** The server of the scenarios leaves its [collection] elements empty. *)
Lemma scenarioEnv_emptyCollectionElements tree clock :
  emptyCollectionElements (scenarioEnv tree clock).
Proof.
  exists (serverOfTree EmptyElement tree), "/".
  split; [reflexivity|].
  intros path depth responses item Hrequest Hin.
  assert (Hitems : exists resources,
             responses = multistatus (map (responseOf EmptyElement) resources)).
  { cbn [requestUrl serverOfTree] in Hrequest.
    destruct (List.find (fun r => String.eqb (StatModel.path r) path) tree)
      as [self|]; [|discriminate].
    destruct depth; injection Hrequest as <-.
    - exists [self]. reflexivity.
    - exists (self ::
              List.filter
                (fun r => String.eqb (Js.dirname (StatModel.path r)) path)
                tree).
      reflexivity. }
  destruct Hitems as (resources & ->). rewrite itemsOf_multistatus in Hin.
  apply in_map_iff in Hin. destruct Hin as (resource & <- & _).
  unfold responseOf.
  destruct (StatModel.isDir resource); discriminate.
Qed.

Lemma scenarioEnv_noDirectoryListed tree clock :
  noDirectoryListed (scenarioEnv tree clock).
Proof.
  apply emptyCollectionElements_noDirectoryListed.
  apply scenarioEnv_emptyCollectionElements.
Qed.

(** It answers for the paths of its tree only. *)
Lemma remoteOfTree_found tree path depth contents :
  remoteOfTree tree path depth = Some contents ->
  In path (map StatModel.path tree).
Proof.
  unfold remoteOfTree, propfindAnswer. simpl.
  destruct (List.find (fun r => String.eqb (StatModel.path r) path) tree)
    as [self|] eqn:Hfind; [|discriminate].
  intros _. apply find_some in Hfind. destruct Hfind as [Hin Hpath].
  apply String.eqb_eq in Hpath. subst path. apply in_map. exact Hin.
Qed.

(** The answers for a tree that is given in full, one path after the
    other. *)
Ltac each_listing Hremote :=
  apply remoteOfTree_found in Hremote as Hfound;
  simpl in Hfound;
  repeat (destruct Hfound as [<-|Hfound];
          [vm_compute in Hremote; inversion Hremote; subst; clear Hremote|]);
  [..|destruct Hfound].

Ltac each_item Hin :=
  simpl in Hin;
  repeat (destruct Hin as [<-|Hin]; [|]);
  [..|destruct Hin].

(** The adapter of scenario S4 lists under a directory its children, each
    once. *)
Lemma nestedTree_listsChildren clock :
  listsChildren (scenarioEnv nestedTree clock).
Proof.
  intros dirPath contents item Hremote Hin Hne.
  change (remoteOfTree nestedTree dirPath Depth1 = Some contents) in Hremote.
  each_listing Hremote; each_item Hin;
    solve [reflexivity | exfalso; apply Hne; reflexivity].
Qed.

Lemma nestedTree_listsOnce clock :
  listsOnce (scenarioEnv nestedTree clock).
Proof.
  intros dirPath contents item1 item2 Hremote Hin1 Hin2 Hpath.
  change (remoteOfTree nestedTree dirPath Depth1 = Some contents) in Hremote.
  each_listing Hremote; each_item Hin1; each_item Hin2;
    solve [reflexivity | discriminate Hpath].
Qed.

(** Invariant 1 after the full scan of the tree of scenario S4. *)
Lemma fullScan_nestedTree_parent_invariant fuel w :
  parentsIndexed "/base"
    (fileIndex
       (store (snd (fullScan (scenarioEnv nestedTree 1000) fuel None w))))
  = true.
Proof.
  apply (fullScan_establishes_parent_invariant
           (scenarioEnv nestedTree 1000) fuel None w).
  - apply nestedTree_listsChildren.
  - apply nestedTree_listsOnce.
  - intros notify scanned currentPath w' H. discriminate H.
Qed.

Lemma nestedTree_wellFounded clock :
  wellFoundedRemote (scenarioEnv nestedTree clock) nestedRank.
Proof.
  apply noDirectoryListed_wellFounded. apply scenarioEnv_noDirectoryListed.
Qed.

Lemma nestedTree_selfListed clock :
  selfListed (scenarioEnv nestedTree clock) "/base".
Proof.
  exists (fileStat "/base" "base" 1 0), [],
    [fileStat "/base" "base" 1 0; fileStat "/base/sub" "sub" 1 0],
    (fileStat "/base" "base" 1 0).
  repeat split; vm_compute; reflexivity.
Qed.

(** Scenario S2 on the tree of scenario S4: the walk that populates the
    index, then a quiet detection. *)
Lemma detectChanges_quiet_after_populating_nestedTree :
  detectChanges (scenarioEnv nestedTree 1000) 1 (worldOf nestedStore)
  = (Ret (DeltaDetectionResult.mk [] false 1 0),
     logRequest "/base" Depth0 (worldOf nestedStore))
  /\ (1 <= size (dirMtimeStore nestedStore))%nat.
Proof.
  destruct (walk (scenarioEnv nestedTree 1000) 10 (worldOf emptyStore))
    as [[listing|e] w1] eqn:Hwalk; [|vm_compute in Hwalk; discriminate].
  replace nestedStore with (store w1)
    by (unfold nestedStore; rewrite Hwalk; reflexivity).
  apply (detectChanges_quiet_after_fresh_walk
           (scenarioEnv nestedTree 1000) nestedRank 10 0
           (worldOf emptyStore) listing w1).
  - apply nestedTree_wellFounded.
  - apply nestedTree_selfListed.
  - reflexivity.
  - exact Hwalk.
Qed.

(* ===================================================================== *)
(** * Further properties of the stores, the detector and the driver *)
(* ===================================================================== *)

(* ===================================================================== *)
(** ** Iterators that never stop *)
(* ===================================================================== *)

Lemma iterate_collect {V U} (db : gmap string V)
    (iterator : V -> string -> list U -> list U * LocalForage.IterResult)
    (keep : string * V -> bool) (pick : string * V -> U) :
  (forall v k acc,
      iterator v k acc
      = (if keep (k, v) then acc ++ [pick (k, v)] else acc,
         LocalForage.Undefined)) ->
  LocalForage.iterate db iterator []
  = map pick (List.filter keep (map_to_list db)).
Proof.
  intros Hit. unfold LocalForage.iterate.
  assert (Hgen : forall pairs acc,
             LocalForage.iteratePairs iterator pairs acc
             = acc ++ map pick (List.filter keep pairs)).
  { induction pairs as [|[k v] rest IH]; intros acc; simpl.
    - now rewrite app_nil_r.
    - rewrite Hit, IH. destruct (keep (k, v)); simpl.
      + now rewrite <- app_assoc.
      + reflexivity. }
  apply (Hgen (map_to_list db) []).
Qed.

(* ===================================================================== *)
(** ** Single records *)
(* ===================================================================== *)

(** X1.  The three stores give back what was set.  In the file index and in
    the directory-mtime cache, [get] after [set(entry)] returns the entry
    under its path and what it returned before under every other path;
    [get] after [delete] of the path returns [null]; [delete] of a path
    that the file index does not hold leaves the world as it is; and
    [getAll] after [clear] is empty.  In the progress store, [get] returns
    the record of the last [save], and [null] after [clear]; [save] leaves
    the index and the cache alone. *)
Theorem stores_give_back_what_was_set :
  forall entry path dirEntry dirPath progress w,
    (fst (FileIndexStore.get (FileIndexEntry.path entry)
            (snd (FileIndexStore.set entry w))) = Ret (Some entry)
     /\ (path <> FileIndexEntry.path entry ->
         fst (FileIndexStore.get path (snd (FileIndexStore.set entry w)))
         = fst (FileIndexStore.get path w))
     /\ fst (FileIndexStore.get path (snd (FileIndexStore.delete path w)))
        = Ret None
     /\ (fileIndex (store w) !! path = None ->
         FileIndexStore.delete path w = (Ret tt, w)))
    /\ (fst (DirMtimeStore.get (DirMtimeEntry.path dirEntry)
               (snd (DirMtimeStore.set dirEntry w))) = Ret (Some dirEntry)
        /\ (dirPath <> DirMtimeEntry.path dirEntry ->
            fst (DirMtimeStore.get dirPath (snd (DirMtimeStore.set dirEntry w)))
            = fst (DirMtimeStore.get dirPath w))
        /\ fst (DirMtimeStore.get dirPath
                  (snd (DirMtimeStore.delete dirPath w))) = Ret None
        /\ fst (DirMtimeStore.getAll (snd (DirMtimeStore.clear w))) = Ret ∅)
    /\ (fst (SyncProgressStore.get (snd (SyncProgressStore.save progress w)))
        = Ret (Some progress)
        /\ fst (SyncProgressStore.get (snd (SyncProgressStore.clear w)))
           = Ret None
        /\ fileIndex (store (snd (SyncProgressStore.save progress w)))
           = fileIndex (store w)
        /\ dirMtimeStore (store (snd (SyncProgressStore.save progress w)))
           = dirMtimeStore (store w)).
Proof.
  intros entry path dirEntry dirPath progress w.
  unfold FileIndexStore.get, FileIndexStore.set, FileIndexStore.delete,
    DirMtimeStore.get, DirMtimeStore.set, DirMtimeStore.delete,
    DirMtimeStore.getAll, DirMtimeStore.clear,
    SyncProgressStore.get, SyncProgressStore.save, SyncProgressStore.clear,
    gets, modify, onFileIndex, onDirMtime, onProgressStore,
    LocalForage.getItem, LocalForage.setItem, LocalForage.removeItem,
    LocalForage.clear.
  cbn [fst snd store fileIndex dirMtimeStore progressStore].
  split; [|split].
  - repeat split.
    + now rewrite lookup_insert_eq.
    + intros Hne. now rewrite lookup_insert_ne by congruence.
    + now rewrite lookup_delete_eq.
    + intros Hnone. rewrite delete_id by exact Hnone.
      destruct w as [[index cache saved] log calls]. reflexivity.
  - repeat split.
    + now rewrite lookup_insert_eq.
    + intros Hne. now rewrite lookup_insert_ne by congruence.
    + now rewrite lookup_delete_eq.
  - repeat split.
Qed.

Lemma deleteAll_lookup_In paths :
  forall index p, In p paths -> deleteAll paths index !! p = None.
Proof.
  intros index p Hin.
  destruct (deleteAll paths index !! p) as [e|] eqn:He; [|reflexivity].
  apply deleteAll_lookup_Some in He. tauto.
Qed.

(** X2.  [batchSet(entries)] returns and writes to the file index only.  A
    path that no entry carries keeps its record, and the record under the
    path of an entry is that entry when no later entry of the array carries
    the same path: of two entries with one path the later one stays,
    whatever the batches they fall into. *)
Theorem batchSet_last_write_wins :
  forall entries w,
    exists w',
      FileIndexStore.batchSet entries w = (Ret tt, w')
      /\ dirMtimeStore (store w') = dirMtimeStore (store w)
      /\ progressStore (store w') = progressStore (store w)
      /\ requests w' = requests w
      /\ (forall p,
             (forall e, In e entries -> FileIndexEntry.path e <> p) ->
             fileIndex (store w') !! p = fileIndex (store w) !! p)
      /\ (forall before e after,
             entries = before ++ e :: after ->
             (forall e', In e' after ->
                         FileIndexEntry.path e' <> FileIndexEntry.path e) ->
             fileIndex (store w') !! FileIndexEntry.path e = Some e).
Proof.
  intros entries w. eexists. split; [apply batchSet_eq|].
  cbn [withFileIndex store fileIndex dirMtimeStore progressStore requests].
  repeat split.
  - intros p Hp. now apply insertAll_lookup_other.
  - intros before e after -> Hafter.
    rewrite insertAll_app.
    change (e :: after) with ([e] ++ after). rewrite insertAll_app.
    rewrite insertAll_lookup_other by exact Hafter.
    cbn [insertAll fold_left]. apply lookup_insert_eq.
Qed.

(** X3.  [batchDelete(paths)] returns and writes to the file index only: every
    path of the array is absent afterwards, also one that was absent
    before, and every other path keeps its record. *)
Theorem batchDelete_removes_the_paths_only :
  forall paths w,
    exists w',
      FileIndexStore.batchDelete paths w = (Ret tt, w')
      /\ dirMtimeStore (store w') = dirMtimeStore (store w)
      /\ progressStore (store w') = progressStore (store w)
      /\ (forall p, In p paths -> fileIndex (store w') !! p = None)
      /\ (forall p, ~ In p paths ->
                    fileIndex (store w') !! p = fileIndex (store w) !! p).
Proof.
  intros paths w. eexists. split; [apply batchDelete_eq|].
  cbn [withFileIndex store fileIndex dirMtimeStore progressStore requests].
  repeat split.
  - intros p Hp. now apply deleteAll_lookup_In.
  - intros p Hp. now apply deleteAll_lookup_other.
Qed.

(* ===================================================================== *)
(** ** Pages of [getByParent] *)
(* ===================================================================== *)

Lemma getByParent_pairs parentPath offset limit pairs :
  forall results count skipped,
    (skipped <= offset)%nat ->
    fst (fst (LocalForage.iteratePairs
                (FileIndexStore.getByParentIterator parentPath offset limit)
                pairs (results, count, skipped)))
    = results
        ++ take (limit - count)
             (drop (offset - skipped)
                (List.filter
                   (fun value =>
                      String.eqb (FileIndexEntry.parentPath value) parentPath)
                   (map snd pairs))).
Proof.
  induction pairs as [|[key value] rest IH]; intros results count skipped Hs.
  - cbn. rewrite drop_nil, take_nil. now rewrite app_nil_r.
  - cbn [LocalForage.iteratePairs map snd List.filter].
    unfold FileIndexStore.getByParentIterator at 1.
    destruct (String.eqb (FileIndexEntry.parentPath value) parentPath) eqn:Hp.
    + destruct (Nat.ltb skipped offset) eqn:Hsk.
      * apply Nat.ltb_lt in Hsk.
        assert (Hrw : ((results, count, S skipped),
                        LocalForage.Undefined)
                      = (if Nat.leb limit count
                         then ((results, count, S skipped),
                               LocalForage.Undefined)
                         else ((results, count, S skipped),
                               LocalForage.Undefined)))
          by (destruct (Nat.leb limit count); reflexivity).
        rewrite <- Hrw. rewrite IH by lia.
        replace (offset - skipped)%nat with (S (offset - S skipped)) by lia.
        reflexivity.
      * apply Nat.ltb_ge in Hsk.
        replace (offset - skipped)%nat with 0%nat by lia.
        destruct (Nat.ltb count limit) eqn:Hc.
        -- apply Nat.ltb_lt in Hc.
           assert (Hrw : ((results ++ [value], S count, skipped),
                           LocalForage.Undefined)
                         = (if Nat.leb limit (S count)
                            then ((results ++ [value], S count, skipped),
                                  LocalForage.Undefined)
                            else ((results ++ [value], S count, skipped),
                                  LocalForage.Undefined)))
             by (destruct (Nat.leb limit (S count)); reflexivity).
           rewrite <- Hrw. rewrite IH by lia.
           replace (offset - skipped)%nat with 0%nat by lia.
           replace (limit - count)%nat with (S (limit - S count)) by lia.
           rewrite drop_0. cbn [take]. now rewrite <- app_assoc.
        -- apply Nat.ltb_ge in Hc.
           assert (Hrw : ((results, count, skipped), LocalForage.Undefined)
                         = (if Nat.leb limit count
                            then ((results, count, skipped),
                                  LocalForage.Undefined)
                            else ((results, count, skipped),
                                  LocalForage.Undefined)))
             by (destruct (Nat.leb limit count); reflexivity).
           rewrite <- Hrw. rewrite IH by lia.
           replace (limit - count)%nat with 0%nat by lia.
           reflexivity.
    + rewrite IH by lia. reflexivity.
Qed.

Lemma getByParentIn_eq index parentPath offset limit :
  FileIndexStore.getByParentIn index parentPath offset limit
  = take limit (drop offset (childrenOf index parentPath)).
Proof.
  unfold FileIndexStore.getByParentIn, LocalForage.iterate.
  rewrite getByParent_pairs by lia.
  rewrite !Nat.sub_0_r. reflexivity.
Qed.

Lemma in_recordsOf index e :
  In e (recordsOf index) <-> exists key, index !! key = Some e.
Proof.
  unfold recordsOf. rewrite in_map_iff. split.
  - intros [[k v] [Hv Hin]]. simpl in Hv. subst v. exists k.
    apply elem_of_map_to_list. now apply list_elem_of_In.
  - intros [k Hk]. exists (k, e). split; [reflexivity|].
    apply list_elem_of_In. now apply elem_of_map_to_list.
Qed.

Lemma in_childrenOf index parentPath e :
  In e (childrenOf index parentPath)
  <-> FileIndexEntry.parentPath e = parentPath
      /\ exists key, index !! key = Some e.
Proof.
  unfold childrenOf. rewrite filter_In, in_recordsOf, String.eqb_eq. tauto.
Qed.

Lemma In_take {T} (n : nat) (l : list T) x : In x (take n l) -> In x l.
Proof.
  revert n. induction l as [|y l IH]; intros [|n]; simpl; try tauto.
  intros [H|H]; [now left|right; eauto].
Qed.

Lemma In_drop {T} (n : nat) (l : list T) x : In x (drop n l) -> In x l.
Proof.
  revert n. induction l as [|y l IH]; intros [|n]; simpl; try tauto.
  intros H. right. eauto.
Qed.

Lemma take_plus {T} (a b : nat) (l : list T) :
  take (a + b) l = take a l ++ take b (drop a l).
Proof.
  revert l. induction a as [|a IH]; intros l; simpl.
  - now rewrite drop_0.
  - destruct l as [|x l]; simpl.
    + now rewrite take_nil.
    + now rewrite IH.
Qed.

(** X4.  [getByParent(parentPath, offset, limit)] returns, without changing
    the world, the records whose [parentPath] is the one given, in the
    order of the store, after the first [offset] of them and [limit] of
    them at most.  Every record of the page is in the index under that
    parent, and with [offset = 0] and a [limit] that is not below the
    number of children, every child is on the page. *)
Theorem getByParent_is_a_page_of_the_children :
  forall parentPath offset limit w,
    exists page,
      FileIndexStore.getByParent parentPath offset limit w = (Ret page, w)
      /\ page
         = take limit
             (drop offset (childrenOf (fileIndex (store w)) parentPath))
      /\ (length page <= limit)%nat
      /\ (forall e,
             In e page ->
             FileIndexEntry.parentPath e = parentPath
             /\ exists key, fileIndex (store w) !! key = Some e)
      /\ (offset = 0%nat ->
          (length (childrenOf (fileIndex (store w)) parentPath) <= limit)%nat ->
          forall key e,
            fileIndex (store w) !! key = Some e ->
            FileIndexEntry.parentPath e = parentPath ->
            In e page).
Proof.
  intros parentPath offset limit w. eexists. split; [reflexivity|].
  rewrite getByParentIn_eq. split; [reflexivity|]. split; [|split].
  - rewrite length_take. lia.
  - intros e He. apply In_take, In_drop, in_childrenOf in He. exact He.
  - intros -> Hlen key e Hkey Hparent.
    rewrite drop_0, take_ge by exact Hlen.
    apply in_childrenOf. eauto.
Qed.

(** X5.  Two consecutive pages of [getByParent] make the page that covers
    both: the first [first] children followed by the next [second] ones
    are the first [first + second] ones. *)
Theorem getByParent_pages_join :
  forall parentPath first second w,
    exists page1 page2,
      FileIndexStore.getByParent parentPath 0 first w = (Ret page1, w)
      /\ FileIndexStore.getByParent parentPath first second w = (Ret page2, w)
      /\ FileIndexStore.getByParent parentPath 0 (first + second) w
         = (Ret (page1 ++ page2), w).
Proof.
  intros parentPath first second w. do 2 eexists.
  split; [reflexivity|]. split; [reflexivity|].
  unfold FileIndexStore.getByParent, gets.
  rewrite !getByParentIn_eq, !drop_0, take_plus. reflexivity.
Qed.

(* ===================================================================== *)
(** ** Queries by prefix and by time *)
(* ===================================================================== *)

(** X6.  [getByPrefix(prefix)] returns the records whose key is [prefix]
    itself or starts with [prefix] followed by a slash (by [prefix] alone
    when it ends with a slash already), and no other record. *)
Theorem getByPrefix_selects_by_key :
  forall prefix w,
    exists results,
      FileIndexStore.getByPrefix prefix w = (Ret results, w)
      /\ forall e,
           In e results
           <-> exists key,
                 fileIndex (store w) !! key = Some e
                 /\ (key = prefix
                     \/ Js.startsWith key (normalizedPrefix prefix) = true).
Proof.
  intros prefix w. eexists. split; [reflexivity|].
  intros e.
  rewrite (iterate_collect (fileIndex (store w)) _
             (fun kv => String.eqb (fst kv) prefix
                        || Js.startsWith (fst kv) (normalizedPrefix prefix))
             snd)
    by (intros v k acc; cbn [fst snd]; fold (normalizedPrefix prefix);
        destruct (_ || _); reflexivity).
  rewrite in_map_iff. split.
  - intros [[k v] [Hv Hin]]. simpl in Hv. subst v.
    apply filter_In in Hin. destruct Hin as [Hin Hkeep]. simpl in Hkeep.
    exists k. split.
    + apply elem_of_map_to_list. now apply list_elem_of_In.
    + apply orb_true_iff in Hkeep. rewrite String.eqb_eq in Hkeep. exact Hkeep.
  - intros [k [Hk Hkeep]]. exists (k, e). split; [reflexivity|].
    apply filter_In. split.
    + apply list_elem_of_In. now apply elem_of_map_to_list.
    + simpl. apply orb_true_iff. rewrite String.eqb_eq. exact Hkeep.
Qed.

(** X7.  [getModifiedAfter(timestamp)] returns the records whose [mtime] is
    above [timestamp], and no other: a record modified at [timestamp]
    itself is left out. *)
Theorem getModifiedAfter_is_strict :
  forall timestamp w,
    exists results,
      FileIndexStore.getModifiedAfter timestamp w = (Ret results, w)
      /\ forall e,
           In e results
           <-> (timestamp < FileIndexEntry.mtime e
                /\ exists key, fileIndex (store w) !! key = Some e).
Proof.
  intros timestamp w. eexists. split; [reflexivity|].
  intros e.
  rewrite (iterate_collect (fileIndex (store w)) _
             (fun kv => Z.ltb timestamp (FileIndexEntry.mtime (snd kv)))
             snd)
    by (intros v k acc; cbn [fst snd]; destruct (_ <? _); reflexivity).
  rewrite in_map_iff. split.
  - intros [[k v] [Hv Hin]]. simpl in Hv. subst v.
    apply filter_In in Hin. destruct Hin as [Hin Hkeep]. simpl in Hkeep.
    apply Z.ltb_lt in Hkeep. split; [exact Hkeep|].
    exists k. apply elem_of_map_to_list. now apply list_elem_of_In.
  - intros [Hlt [k Hk]]. exists (k, e). split; [reflexivity|].
    apply filter_In. split.
    + apply list_elem_of_In. now apply elem_of_map_to_list.
    + simpl. now apply Z.ltb_lt.
Qed.

(* ===================================================================== *)
(** ** Counting *)
(* ===================================================================== *)

Lemma getAllDirsIn_eq index :
  FileIndexStore.getAllDirsIn index = map FileIndexEntry.path (dirRecords index).
Proof.
  unfold FileIndexStore.getAllDirsIn, dirRecords, recordsOf.
  rewrite (iterate_collect index _
             (fun kv => FileIndexEntry.isDir (snd kv))
             (fun kv => FileIndexEntry.path (snd kv)))
    by (intros v k acc; cbn [fst snd]; destruct (FileIndexEntry.isDir v);
        reflexivity).
  induction (map_to_list index) as [|[k v] rest IH]; simpl.
  - reflexivity.
  - destruct (FileIndexEntry.isDir v); simpl; now rewrite IH.
Qed.

Lemma filter_split_length {T} (f : T -> bool) (l : list T) :
  (length (List.filter (fun x => negb (f x)) l) + length (List.filter f l)
   = length l)%nat.
Proof.
  induction l as [|x l IH]; simpl; [reflexivity|].
  destruct (f x); simpl; lia.
Qed.

Lemma length_recordsOf index : length (recordsOf index) = size index.
Proof. unfold recordsOf. rewrite length_map. apply length_map_to_list. Qed.

Lemma records_split index :
  (length (fileRecords index) + length (dirRecords index) = size index)%nat.
Proof.
  unfold fileRecords, dirRecords.
  rewrite filter_split_length. apply length_recordsOf.
Qed.

Lemma getStats_eq w :
  getStats w
  = (Ret (mkIndexStats
            (length (fileRecords (fileIndex (store w))))
            (length (dirRecords (fileIndex (store w))))
            (negb (Nat.eqb (size (fileIndex (store w))) 0))),
     w).
Proof.
  pose proof (records_split (fileIndex (store w))) as Hsum.
  unfold getStats, detectorGetStats, bind, FileIndexStore.count,
    FileIndexStore.getAllDirs, gets, ret, LocalForage.length.
  destruct (Nat.eqb (size (fileIndex (store w))) 0) eqn:Hsize.
  - apply Nat.eqb_eq in Hsize. rewrite Hsize in Hsum.
    assert (Hf : length (fileRecords (fileIndex (store w))) = 0%nat) by lia.
    assert (Hd : length (dirRecords (fileIndex (store w))) = 0%nat) by lia.
    rewrite Hf, Hd. reflexivity.
  - cbn [fst snd negb]. rewrite getAllDirsIn_eq, length_map.
    f_equal. f_equal. f_equal. lia.
Qed.

(** X8.  [getStats()] of the driver reads the index only.  [dirCount] is the
    number of records that are directories, [fileCount] the number of the
    others, [hasIndex] tells whether there is a record at all, and the two
    counts add up to the number of records. *)
Theorem getStats_counts_the_records :
  forall w,
    getStats w
    = (Ret (mkIndexStats
              (length (fileRecords (fileIndex (store w))))
              (length (dirRecords (fileIndex (store w))))
              (negb (Nat.eqb (size (fileIndex (store w))) 0))),
       w)
    /\ (length (fileRecords (fileIndex (store w)))
        + length (dirRecords (fileIndex (store w)))
        = size (fileIndex (store w)))%nat.
Proof.
  intros w. split; [apply getStats_eq|apply records_split].
Qed.

Lemma getAllPaths_pairs {V} (pairs : list (string * V)) :
  forall acc,
    List.NoDup (acc ++ map fst pairs) ->
    LocalForage.iteratePairs
      (fun (value : V) key paths => (JsSet.add key paths, LocalForage.Undefined))
      pairs acc
    = acc ++ map fst pairs.
Proof.
  induction pairs as [|[k v] rest IH]; intros acc Hnd;
    cbn [LocalForage.iteratePairs map fst].
  - now rewrite app_nil_r.
  - cbn [map fst] in Hnd.
    assert (Hfresh : existsb (String.eqb k) acc = false).
    { destruct (existsb (String.eqb k) acc) eqn:Hex; [|reflexivity].
      apply existsb_exists in Hex. destruct Hex as [k' [Hin Heq]].
      apply String.eqb_eq in Heq. subst k'.
      apply NoDup_remove_2 in Hnd. exfalso. apply Hnd.
      apply in_or_app. now left. }
    replace (JsSet.add k acc) with (acc ++ [k])
      by (unfold JsSet.add; now rewrite Hfresh).
    rewrite IH.
    + now rewrite <- app_assoc.
    + rewrite <- app_assoc. exact Hnd.
Qed.

(** X9.  [getAllPaths()] returns the keys of the index, each of them once. *)
Theorem getAllPaths_is_the_set_of_keys :
  forall w,
    exists paths,
      FileIndexStore.getAllPaths w = (Ret paths, w)
      /\ List.NoDup paths
      /\ length paths = size (fileIndex (store w))
      /\ forall p, In p paths <-> is_Some (fileIndex (store w) !! p).
Proof.
  intros w. eexists. split; [reflexivity|].
  unfold LocalForage.iterate.
  assert (Hnd : List.NoDup (map fst (map_to_list (fileIndex (store w))))).
  { apply NoDup_ListNoDup. apply NoDup_fst_map_to_list. }
  rewrite getAllPaths_pairs by exact Hnd.
  cbn [app]. split; [exact Hnd|]. split.
  - rewrite length_map. apply length_map_to_list.
  - intros p. rewrite in_map_iff. split.
    + intros [[k v] [Hk Hin]]. simpl in Hk. subst k. exists v.
      apply elem_of_map_to_list. now apply list_elem_of_In.
    + intros [v Hv]. exists (p, v). split; [reflexivity|].
      apply list_elem_of_In. now apply elem_of_map_to_list.
Qed.

(* ===================================================================== *)
(** ** What the detector asks of the remote *)
(* ===================================================================== *)

Lemma detectionGrows_refl s : detectionGrows s s.
Proof. unfold detectionGrows. lia. Qed.

Lemma detectionGrows_trans s1 s2 s3 :
  detectionGrows s1 s2 -> detectionGrows s2 s3 -> detectionGrows s1 s3.
Proof. unfold detectionGrows. lia. Qed.

Lemma length_requests_logRequest path depth w :
  length (requests (logRequest path depth w)) = S (length (requests w)).
Proof. unfold logRequest. simpl. rewrite length_app. simpl. lia. Qed.

Lemma detectDirChanges_grows env fuel :
  forall dirPath cachedMtimes locals w locals' w',
    detectDirChanges env fuel dirPath cachedMtimes locals w = (Ret locals', w') ->
    detectionGrows (locals, w) (locals', w')
    /\ (S (dl_scannedDirs locals) <= dl_scannedDirs locals')%nat.
Proof.
  induction fuel as [|fuel IH];
    intros dirPath cachedMtimes locals w locals' w' Hrun; simpl in Hrun.
  - discriminate.
  - rewrite (bind_eq _ _ _ _ _ (statDir_eq env dirPath w)) in Hrun.
    destruct (statOf env dirPath) as [currentMtime|].
    + destruct (cachedMtimeIs cachedMtimes dirPath currentMtime).
      * inversion Hrun; subst. unfold detectionGrows.
        cbn [fst snd dl_scannedDirs dl_changedDirs].
        rewrite depth0Count_logRequest, length_requests_logRequest. lia.
      * rewrite (bind_eq _ _ _ _ _ (getSubDirs_eq env dirPath _)) in Hrun.
        apply (forEach_relates detectionGrows) in Hrun.
        -- unfold detectionGrows in *.
           cbn [fst snd dl_scannedDirs dl_changedDirs] in *.
           rewrite !depth0Count_logRequest, !length_requests_logRequest,
             length_app in Hrun.
           simpl in Hrun. lia.
        -- apply detectionGrows_refl.
        -- apply detectionGrows_trans.
        -- intros chunk a v a' v' _ Hchunk.
           apply (forEach_relates detectionGrows) in Hchunk.
           ++ exact Hchunk.
           ++ apply detectionGrows_refl.
           ++ apply detectionGrows_trans.
           ++ intros subDir b u b' u' _ Hsub.
              apply (IH _ _ _ _ _ _ Hsub).
    + inversion Hrun; subst. unfold detectionGrows.
      cbn [fst snd dl_scannedDirs dl_changedDirs].
      rewrite depth0Count_logRequest, length_requests_logRequest, length_app.
      simpl. lia.
Qed.

(** X10.  The requests of a detection that returns.  It issues one depth-0
    PROPFIND for each directory it counts in [scannedDirs]; [changedDirs]
    is at most [scannedDirs]; the requests it issues altogether are at most
    [scannedDirs + 2 * changedDirs]; a result that asks for a full scan
    comes without any request; and every other result has scanned one
    directory at least. *)
Theorem detectChanges_counts_its_requests :
  forall env fuel w result w',
    detectChanges env fuel w = (Ret result, w') ->
    depth0Count (requests w')
    = (depth0Count (requests w) + DeltaDetectionResult.scannedDirs result)%nat
    /\ (DeltaDetectionResult.changedDirs result
        <= DeltaDetectionResult.scannedDirs result)%nat
    /\ (length (requests w')
        <= length (requests w) + DeltaDetectionResult.scannedDirs result
           + 2 * DeltaDetectionResult.changedDirs result)%nat
    /\ (DeltaDetectionResult.needFullScan result = true -> w' = w)
    /\ (DeltaDetectionResult.needFullScan result = false ->
        (1 <= DeltaDetectionResult.scannedDirs result)%nat).
Proof.
  intros env fuel w result w'.
  unfold detectChanges, DirMtimeStore.getAll.
  rewrite (bind_eq (gets _) _ w (dirMtimeStore (store w)) w eq_refl).
  destruct (Nat.eqb (size (dirMtimeStore (store w))) 0).
  - intros H. inversion H; subst. simpl.
    repeat split; try lia; try discriminate.
  - unfold bind at 1.
    destruct (detectDirChanges env fuel (remoteBaseDir env)
                (dirMtimeStore (store w)) (mkDetectLocals [] 0) w)
      as [[locals|e] w1] eqn:Hdetect; [|discriminate].
    apply detectDirChanges_grows in Hdetect.
    destruct Hdetect as [Hgrow Hone]. unfold detectionGrows in Hgrow.
    cbn [fst snd dl_scannedDirs dl_changedDirs length] in Hgrow, Hone.
    unfold bind at 1.
    destruct (Nat.ltb 0 (length (dl_changedDirs locals))).
    + destruct (forEach (dl_changedDirs locals) _ [] w1)
        as [[changes|e] w2] eqn:Hloop; [|discriminate].
      assert (Hreq :
        forall dirs changes0 v changes1 v',
          forEach dirs
            (fun dir changes =>
               dirChanges <- scanDirForChanges env dir ;;
               ret (changes ++ dirChanges)) changes0 v = (Ret changes1, v') ->
          depth0Count (requests v') = depth0Count (requests v)
          /\ length (requests v') = (length (requests v) + length dirs)%nat).
      { induction dirs as [|dir dirs IHd]; intros c0 v c1 v' Hr; simpl in Hr.
        - inversion Hr; subst. simpl. lia.
        - unfold bind at 1 in Hr. unfold bind at 1 in Hr.
          rewrite scanDirForChanges_eq in Hr. cbn [ret] in Hr.
          apply IHd in Hr.
          rewrite depth0Count_logRequest, length_requests_logRequest in Hr.
          simpl. lia. }
      apply Hreq in Hloop.
      intros H. inversion H; subst. simpl.
      repeat split; try lia; try discriminate.
    + intros H. inversion H; subst. simpl.
      repeat split; try lia; try discriminate.
Qed.

Lemma detectChanges_counts_its_requests_witness :
  detectChanges (scenarioEnv touchedTree 4000) 10 (worldOf touchedStore)
  = (Ret (DeltaDetectionResult.mk [] false 1 1),
     snd (detectChanges (scenarioEnv touchedTree 4000) 10
            (worldOf touchedStore)))
  /\ depth0Count
       (requests
          (snd (detectChanges (scenarioEnv touchedTree 4000) 10
                  (worldOf touchedStore))))
     = (depth0Count (requests (worldOf touchedStore))
        + DeltaDetectionResult.scannedDirs
            (DeltaDetectionResult.mk [] false 1 1))%nat
  /\ (DeltaDetectionResult.changedDirs (DeltaDetectionResult.mk [] false 1 1)
      <= DeltaDetectionResult.scannedDirs
           (DeltaDetectionResult.mk [] false 1 1))%nat
  /\ (length
        (requests
           (snd (detectChanges (scenarioEnv touchedTree 4000) 10
                   (worldOf touchedStore))))
      <= length (requests (worldOf touchedStore))
         + DeltaDetectionResult.scannedDirs
             (DeltaDetectionResult.mk [] false 1 1)
         + 2 * DeltaDetectionResult.changedDirs
                 (DeltaDetectionResult.mk [] false 1 1))%nat
  /\ (DeltaDetectionResult.needFullScan
        (DeltaDetectionResult.mk [] false 1 1) = true ->
      snd (detectChanges (scenarioEnv touchedTree 4000) 10
             (worldOf touchedStore))
      = worldOf touchedStore)
  /\ (DeltaDetectionResult.needFullScan
        (DeltaDetectionResult.mk [] false 1 1) = false ->
      (1 <= DeltaDetectionResult.scannedDirs
              (DeltaDetectionResult.mk [] false 1 1))%nat).
Proof.
  assert (Hrun : detectChanges (scenarioEnv touchedTree 4000) 10
                   (worldOf touchedStore)
                 = (Ret (DeltaDetectionResult.mk [] false 1 1),
                    snd (detectChanges (scenarioEnv touchedTree 4000) 10
                           (worldOf touchedStore))))
    by (vm_compute; reflexivity).
  split; [exact Hrun|].
  exact (detectChanges_counts_its_requests
           (scenarioEnv touchedTree 4000) 10 (worldOf touchedStore) _ _ Hrun).
Defined.

(* ===================================================================== *)
(** ** Rejected requests *)
(* ===================================================================== *)

Lemma neverRejects_forEach {T A} (xs : list T) (body : T -> A -> M A) :
  (forall x a, In x xs -> neverRejects (body x a)) ->
  forall a, neverRejects (forEach xs body a).
Proof.
  induction xs as [|x xs IH]; intros Hbody a w; simpl.
  - discriminate.
  - unfold bind.
    pose proof (Hbody x a (or_introl eq_refl) w) as Hx.
    destruct (body x a w) as [[a'|e] w1]; simpl in *.
    + apply IH. intros y b Hy. apply Hbody. now right.
    + exact Hx.
Qed.

Lemma neverRejects_detectDirChanges env fuel :
  forall dirPath cachedMtimes locals,
    neverRejects (detectDirChanges env fuel dirPath cachedMtimes locals).
Proof.
  induction fuel as [|fuel IH]; intros dirPath cachedMtimes locals w; simpl.
  - discriminate.
  - rewrite (bind_eq _ _ _ _ _ (statDir_eq env dirPath w)).
    destruct (statOf env dirPath) as [currentMtime|]; [|discriminate].
    destruct (cachedMtimeIs cachedMtimes dirPath currentMtime);
      [discriminate|].
    rewrite (bind_eq _ _ _ _ _ (getSubDirs_eq env dirPath _)).
    apply neverRejects_forEach. intros chunk a _.
    apply neverRejects_forEach. intros subDir b _. apply IH.
Qed.

Lemma neverRejects_detectChanges env fuel :
  neverRejects (detectChanges env fuel).
Proof.
  intros w. unfold detectChanges, DirMtimeStore.getAll.
  rewrite (bind_eq (gets _) _ w (dirMtimeStore (store w)) w eq_refl).
  destruct (Nat.eqb (size (dirMtimeStore (store w))) 0); [discriminate|].
  unfold bind at 1.
  pose proof (neverRejects_detectDirChanges env fuel (remoteBaseDir env)
                (dirMtimeStore (store w)) (mkDetectLocals [] 0) w) as Hd.
  destruct (detectDirChanges env fuel (remoteBaseDir env)
              (dirMtimeStore (store w)) (mkDetectLocals [] 0) w)
    as [[locals|e] w1]; simpl in *;
    [|intros He; apply Hd; injection He as ->; reflexivity].
  unfold bind at 1.
  destruct (Nat.ltb 0 (length (dl_changedDirs locals))); [|discriminate].
  pose proof (forEach_scan_outcome env (dl_changedDirs locals) [] w1) as H.
  destruct (forEach (dl_changedDirs locals) _ [] w1) as [[changes|e] w2];
    simpl in *; [discriminate|contradiction].
Qed.

(** X11.  [detectChanges] does not reject because a PROPFIND was rejected: each
    of its requests is made by [statDir], [getSubDirs] or [listDir], which
    catch the error. *)
Theorem detectChanges_never_rejects :
  forall env fuel w,
    fst (detectChanges env fuel w) <> Throw TransportError.
Proof. intros env fuel w. apply neverRejects_detectChanges. Qed.

(** X12.  [detectChanges] returns a result on every remote whose depth-1
    listings are well founded: a rank that decreases from a directory to
    the sub-directories listed under it bounds the depth of the recursion,
    and fuel above the rank of the base directory is enough. *)
Theorem detectChanges_returns_on_a_well_founded_remote :
  forall env rank fuel w,
    wellFoundedRemote env rank ->
    (rank (remoteBaseDir env) < fuel)%nat ->
    exists result w', detectChanges env fuel w = (Ret result, w').
Proof.
  intros env rank fuel w Hwf Hfuel.
  exact (detectChanges_returns env rank fuel Hwf Hfuel w).
Qed.

Lemma detectChanges_returns_on_a_well_founded_remote_witness :
  exists result w',
    detectChanges (scenarioEnv nestedTree 1000) 3 (worldOf nestedStore)
    = (Ret result, w').
Proof.
  apply (detectChanges_returns_on_a_well_founded_remote
           (scenarioEnv nestedTree 1000) nestedRank 3 (worldOf nestedStore)).
  - apply nestedTree_wellFounded.
  - vm_compute. lia.
Defined.

(* ===================================================================== *)
(** ** A directory that cannot be listed *)
(* ===================================================================== *)

Lemma JsMap_ofList_keys {V} (pairs : list (string * V)) k :
  In k (map fst (JsMap.ofList pairs)) <-> In k (map fst pairs).
Proof.
  unfold JsMap.ofList.
  assert (Hgen : forall m,
             In k (map fst (fold_left
                              (fun m kv => JsMap.set (fst kv) (snd kv) m)
                              pairs m))
             <-> In k (map fst m) \/ In k (map fst pairs)).
  { induction pairs as [|[k' v'] rest IH]; intros m; simpl.
    - tauto.
    - rewrite IH, JsMap_set_keys. intuition congruence. }
  rewrite Hgen. simpl. tauto.
Qed.

Lemma scanDirForChanges_unlisted env dirPath w :
  listDirOf env dirPath = [] ->
  scanDirForChanges env dirPath w
  = (Ret (deletionsOf (cachedMapOf (fileIndex (store w)) dirPath)),
     logRequest dirPath Depth1 w).
Proof.
  intros Hlist. rewrite scanDirForChanges_eq.
  unfold remoteMapOf. rewrite Hlist.
  cbn [map JsMap.ofList fold_left flat_map app].
  assert (Hdel : forall cachedMap,
             flat_map (changeOfCached []) cachedMap = deletionsOf cachedMap).
  { induction cachedMap as [|entry rest IH]; simpl; [reflexivity|].
    now rewrite IH. }
  now rewrite Hdel.
Qed.

Lemma in_deletionsOf_cached index dirPath e :
  In e (take 1000 (childrenOf index dirPath)) ->
  In (RemoteChange.mk (FileIndexEntry.path e) deleted None)
    (deletionsOf (cachedMapOf index dirPath)).
Proof.
  intros He. unfold deletionsOf. apply in_map_iff.
  assert (Hkey : In (FileIndexEntry.path e)
                   (map fst (cachedMapOf index dirPath))).
  { unfold cachedMapOf. apply JsMap_ofList_keys.
    rewrite map_map. cbn [fst]. apply in_map.
    rewrite getByParentIn_eq, drop_0. exact He. }
  apply in_map_iff in Hkey. destruct Hkey as [entry [Hfst Hin]].
  exists entry. split; [now rewrite Hfst|exact Hin].
Qed.

Lemma detectChanges_base_unreachable env fuel w :
  statOf env (remoteBaseDir env) = None ->
  listDirOf env (remoteBaseDir env) = [] ->
  dirMtimeStore (store w) <> ∅ ->
  detectChanges env (S fuel) w
  = (Ret (DeltaDetectionResult.mk
            (deletionsOf (cachedMapOf (fileIndex (store w)) (remoteBaseDir env)))
            false 1 1),
     logRequest (remoteBaseDir env) Depth1
       (logRequest (remoteBaseDir env) Depth0 w)).
Proof.
  intros Hstat Hlist Hcache.
  unfold detectChanges, DirMtimeStore.getAll.
  rewrite (bind_eq (gets _) _ w (dirMtimeStore (store w)) w eq_refl).
  destruct (Nat.eqb_spec (size (dirMtimeStore (store w))) 0) as [Hsize|_].
  { exfalso. apply Hcache. now apply map_size_empty_iff. }
  cbn [detectDirChanges].
  erewrite bind_eq.
  2:{ rewrite (bind_eq _ _ _ _ _ (statDir_eq env (remoteBaseDir env) w)).
      rewrite Hstat. reflexivity. }
  cbn [dl_changedDirs dl_scannedDirs app length Nat.ltb Nat.leb forEach].
  erewrite bind_eq.
  2:{ erewrite bind_eq.
      2:{ rewrite (bind_eq _ _ _ _ _
                     (scanDirForChanges_unlisted env (remoteBaseDir env) _ Hlist)).
          reflexivity. }
      reflexivity. }
  reflexivity.
Qed.

(** X13.  When the requests for the base directory are rejected and the
    directory-mtime cache is not empty, [detectChanges] returns, after
    the two requests, a result made of deletions only: one for each of the
    first 1000 cached children of the base directory. *)
Theorem detectChanges_reports_deletions_when_base_is_unreachable :
  forall env fuel w,
    remote env (remoteBaseDir env) Depth0 = None ->
    remote env (remoteBaseDir env) Depth1 = None ->
    dirMtimeStore (store w) <> ∅ ->
    exists changes,
      detectChanges env (S fuel) w
      = (Ret (DeltaDetectionResult.mk changes false 1 1),
         logRequest (remoteBaseDir env) Depth1
           (logRequest (remoteBaseDir env) Depth0 w))
      /\ (forall change,
             In change changes ->
             RemoteChange.type change = deleted
             /\ RemoteChange.stat change = None)
      /\ (forall e,
             In e (take 1000
                     (childrenOf (fileIndex (store w)) (remoteBaseDir env))) ->
             In (RemoteChange.mk (FileIndexEntry.path e) deleted None) changes).
Proof.
  intros env fuel w H0 H1 Hcache. eexists. split; [|split].
  - apply detectChanges_base_unreachable; [| |exact Hcache].
    + unfold statOf. now rewrite H0.
    + unfold listDirOf. now rewrite H1.
  - intros change Hin. unfold deletionsOf in Hin.
    apply in_map_iff in Hin. destruct Hin as [entry [<- _]]. split; reflexivity.
  - intros e He. now apply in_deletionsOf_cached.
Qed.

Lemma detectChanges_reports_deletions_when_base_is_unreachable_witness :
  exists changes,
    detectChanges (scenarioEnv [] 5000) 1 (worldOf bootstrapStore)
    = (Ret (DeltaDetectionResult.mk changes false 1 1),
       logRequest (remoteBaseDir (scenarioEnv [] 5000)) Depth1
         (logRequest (remoteBaseDir (scenarioEnv [] 5000)) Depth0
            (worldOf bootstrapStore)))
    /\ (forall change,
           In change changes ->
           RemoteChange.type change = deleted
           /\ RemoteChange.stat change = None)
    /\ (forall e,
           In e (take 1000
                   (childrenOf (fileIndex (store (worldOf bootstrapStore)))
                      (remoteBaseDir (scenarioEnv [] 5000)))) ->
           In (RemoteChange.mk (FileIndexEntry.path e) deleted None) changes).
Proof.
  apply (detectChanges_reports_deletions_when_base_is_unreachable
           (scenarioEnv [] 5000) 0 (worldOf bootstrapStore)).
  - reflexivity.
  - reflexivity.
  - intros Hempty.
    assert (H : dirMtimeStore (store (worldOf bootstrapStore)) !! "/base"
                = None) by (rewrite Hempty; apply lookup_empty).
    vm_compute in H. discriminate H.
Defined.

(* ===================================================================== *)
(** ** [updateDirMtimeCache] *)
(* ===================================================================== *)

Lemma JsSet_add_In k s x : In x (JsSet.add k s) <-> x = k \/ In x s.
Proof.
  unfold JsSet.add. destruct (existsb (String.eqb k) s) eqn:Hex.
  - apply existsb_exists in Hex. destruct Hex as [k' [Hin Heq]].
    apply String.eqb_eq in Heq. subst k'. intuition congruence.
  - rewrite in_app_iff. simpl. intuition congruence.
Qed.

Lemma JsSet_add_NoDup k s : List.NoDup s -> List.NoDup (JsSet.add k s).
Proof.
  intros Hnd. unfold JsSet.add. destruct (existsb (String.eqb k) s) eqn:Hex.
  - exact Hnd.
  - apply NoDup_ListNoDup. apply NoDup_app. split; [|split].
    + now apply NoDup_ListNoDup.
    + intros x Hx Hk. apply list_elem_of_In in Hx.
      apply list_elem_of_In in Hk. simpl in Hk. destruct Hk as [Hk|[]].
      subst x.
      assert (Htrue : existsb (String.eqb k) s = true).
      { apply existsb_exists. exists k. split; [exact Hx|apply String.eqb_refl]. }
      congruence.
    + apply NoDup_singleton.
Qed.

Lemma affectedDirsOf_spec changes :
  List.NoDup (affectedDirsOf changes)
  /\ forall d,
       In d (affectedDirsOf changes)
       <-> exists change,
             In change changes /\ Js.dirname (RemoteChange.path change) = d.
Proof.
  unfold affectedDirsOf.
  assert (Hgen : forall dirs,
             List.NoDup dirs ->
             List.NoDup
               (fold_left
                  (fun dirs change =>
                     JsSet.add (Js.dirname (RemoteChange.path change)) dirs)
                  changes dirs)
             /\ forall d,
                  In d (fold_left
                          (fun dirs change =>
                             JsSet.add (Js.dirname (RemoteChange.path change))
                               dirs)
                          changes dirs)
                  <-> In d dirs
                      \/ exists change,
                           In change changes
                           /\ Js.dirname (RemoteChange.path change) = d).
  { induction changes as [|c rest IH]; intros dirs Hnd; simpl.
    - split; [exact Hnd|]. intros d. split; [now left|].
      intros [H|[change [[] _]]]. exact H.
    - destruct (IH (JsSet.add (Js.dirname (RemoteChange.path c)) dirs)
                  (JsSet_add_NoDup _ _ Hnd)) as [Hnd' Hin'].
      split; [exact Hnd'|]. intros d. rewrite Hin', JsSet_add_In. split.
      + intros [[Hd|Hd]|[change [Hc Hd]]].
        * right. exists c. split; [now left|now symmetry].
        * now left.
        * right. exists change. split; [now right|exact Hd].
      + intros [Hd|[change [[Hc|Hc] Hd]]].
        * left. now right.
        * subst change. left. left. now symmetry.
        * right. exists change. split; assumption. }
  destruct (Hgen [] (List.NoDup_nil _)) as [Hnd Hin].
  split; [exact Hnd|]. intros d. rewrite Hin. simpl. tauto.
Qed.

Lemma updateDirMtimeCache_eq env changes w :
  updateDirMtimeCache env changes w
  = (Ret tt,
     withDirMtimes
       (refreshDirMtimes env (affectedDirsOf changes) (dirMtimeStore (store w)))
       (requests w ++ map (fun d => (d, Depth0)) (affectedDirsOf changes))
       w).
Proof.
  unfold updateDirMtimeCache. fold (affectedDirsOf changes).
  generalize (affectedDirsOf changes) as dirs. intros dirs. revert w.
  induction dirs as [|d dirs IH]; intros w.
  - simpl. unfold ret, withDirMtimes. rewrite app_nil_r.
    destruct w as [[index cache progress] log calls]. reflexivity.
  - cbn [forEach]. unfold bind at 1.
    rewrite (bind_eq _ _ _ _ _ (statDir_eq env d w)).
    cbn [refreshDirMtimes fold_left map].
    destruct (statOf env d) as [mtime|].
    + unfold DirMtimeStore.set, modify. rewrite IH.
      unfold withDirMtimes, logRequest, onDirMtime, LocalForage.setItem.
      cbn [store requests progressCalls fileIndex dirMtimeStore progressStore
           DirMtimeEntry.path].
      rewrite <- app_assoc. reflexivity.
    + unfold ret. rewrite IH.
      unfold withDirMtimes, logRequest.
      cbn [store requests progressCalls fileIndex dirMtimeStore progressStore].
      rewrite <- app_assoc. reflexivity.
Qed.

Lemma refreshDirMtimes_other env dirs :
  forall cache p, ~ In p dirs -> refreshDirMtimes env dirs cache !! p = cache !! p.
Proof.
  induction dirs as [|d dirs IH]; intros cache p Hp; simpl; [reflexivity|].
  rewrite IH by (intros H; apply Hp; now right).
  destruct (statOf env d); [|reflexivity].
  apply lookup_insert_ne. intros ->. apply Hp. now left.
Qed.

Lemma refreshDirMtimes_in env dirs :
  forall cache p,
    In p dirs ->
    refreshDirMtimes env dirs cache !! p
    = match statOf env p with
      | Some mtime => Some (DirMtimeEntry.mk p mtime (now env) 0)
      | None => cache !! p
      end.
Proof.
  induction dirs as [|d dirs IH]; intros cache p Hp; simpl; [contradiction|].
  destruct (in_dec string_dec p dirs) as [Hin|Hout].
  - rewrite IH by exact Hin.
    destruct (statOf env p) eqn:Hstat; [reflexivity|].
    destruct (statOf env d) eqn:Hd; [|reflexivity].
    apply lookup_insert_ne. intros ->. congruence.
  - destruct Hp as [->|Hp]; [|contradiction].
    rewrite refreshDirMtimes_other by exact Hout.
    destruct (statOf env p); [apply lookup_insert_eq|reflexivity].
Qed.

(** X14.  [updateDirMtimeCache(changes)] returns and writes to the
    directory-mtime cache only.  It issues one depth-0 PROPFIND for each
    distinct [dirname] of a changed path, in the order of their first
    occurrence.  For such a directory that answers, the cache then holds
    its current mtime, the time of the call and [childCount = 0]; for one
    that does not, and for every other path, the cache is as it was.  No
    entry is removed. *)
Theorem updateDirMtimeCache_refreshes_the_parents_only :
  forall env changes w,
    exists w',
      updateDirMtimeCache env changes w = (Ret tt, w')
      /\ fileIndex (store w') = fileIndex (store w)
      /\ progressStore (store w') = progressStore (store w)
      /\ (forall p,
             (forall change,
                 In change changes ->
                 Js.dirname (RemoteChange.path change) <> p) ->
             dirMtimeStore (store w') !! p = dirMtimeStore (store w) !! p)
      /\ (forall change,
             In change changes ->
             dirMtimeStore (store w') !! Js.dirname (RemoteChange.path change)
             = match statOf env (Js.dirname (RemoteChange.path change)) with
               | Some mtime =>
                   Some (DirMtimeEntry.mk
                           (Js.dirname (RemoteChange.path change)) mtime
                           (now env) 0)
               | None =>
                   dirMtimeStore (store w)
                     !! Js.dirname (RemoteChange.path change)
               end)
      /\ (forall p,
             is_Some (dirMtimeStore (store w) !! p) ->
             is_Some (dirMtimeStore (store w') !! p))
      /\ requests w'
         = requests w ++ map (fun d => (d, Depth0)) (affectedDirsOf changes)
      /\ List.NoDup (affectedDirsOf changes).
Proof.
  intros env changes w. eexists. split; [apply updateDirMtimeCache_eq|].
  destruct (affectedDirsOf_spec changes) as [Hnd Hin].
  cbn [withDirMtimes store fileIndex dirMtimeStore progressStore requests].
  repeat split; try exact Hnd.
  - intros p Hp. apply refreshDirMtimes_other. rewrite Hin.
    intros [change [Hc Hd]]. exact (Hp change Hc Hd).
  - intros change Hc. apply refreshDirMtimes_in. rewrite Hin. eauto.
  - intros p Hsome.
    destruct (in_dec string_dec p (affectedDirsOf changes)) as [Hp|Hp].
    + rewrite refreshDirMtimes_in by exact Hp.
      destruct (statOf env p); [eauto|exact Hsome].
    + rewrite refreshDirMtimes_other by exact Hp. exact Hsome.
Qed.

(* ===================================================================== *)
(** ** A walk while the remote is unreachable *)
(* ===================================================================== *)

Lemma refreshDirMtimes_unreachable env dirs cache :
  (forall path, statOf env path = None) ->
  refreshDirMtimes env dirs cache = cache.
Proof.
  intros Hnone. revert cache.
  induction dirs as [|d dirs IH]; intros cache; simpl; [reflexivity|].
  rewrite Hnone. apply IH.
Qed.

Lemma size_fileIndex_nonzero w :
  fileIndex (store w) <> ∅ ->
  Nat.eqb (size (fileIndex (store w))) 0 = false.
Proof.
  intros Hne. apply Nat.eqb_neq. intros Hsize. apply Hne.
  now apply map_size_empty_iff.
Qed.

Lemma walk_incremental env fuel w result w1 :
  fileIndex (store w) <> ∅ ->
  detectChanges env fuel w = (Ret result, w1) ->
  DeltaDetectionResult.needFullScan result = false ->
  walk env fuel w
  = if Nat.eqb (length (DeltaDetectionResult.changes result)) 0
    then getFromIndex env w1
    else bind (applyChanges env (DeltaDetectionResult.changes result))
           (fun _ => getFromIndex env) w1.
Proof.
  intros Hindex Hdetect Hfull. unfold walk.
  unfold SyncProgressStore.get, FileIndexStore.count, LocalForage.length.
  rewrite (bind_eq (gets _) _ w _ w eq_refl).
  rewrite (bind_eq (gets _) _ w _ w eq_refl).
  rewrite (size_fileIndex_nonzero w Hindex).
  rewrite (bind_eq _ _ _ _ _ Hdetect). rewrite Hfull.
  destruct (Nat.eqb (length (DeltaDetectionResult.changes result)) 0);
    reflexivity.
Qed.

Lemma applyChanges_eq env changes w :
  applyChanges env changes w
  = (Ret tt,
     withDirMtimes
       (refreshDirMtimes env (affectedDirsOf changes) (dirMtimeStore (store w)))
       (requests w ++ map (fun d => (d, Depth0)) (affectedDirsOf changes))
       (withFileIndex
          (deleteAll (flat_map pathsToDelete changes)
             (insertAll (flat_map (entriesToSet env) changes)
                (fileIndex (store w)))) w)).
Proof.
  unfold applyChanges.
  rewrite (bind_eq _ _ _ _ _ (updateFileIndex_eq env changes w)).
  rewrite updateDirMtimeCache_eq. reflexivity.
Qed.

Lemma flat_map_deletionsOf env cachedMap :
  flat_map (entriesToSet env) (deletionsOf cachedMap) = []
  /\ flat_map pathsToDelete (deletionsOf cachedMap) = map fst cachedMap.
Proof.
  induction cachedMap as [|entry rest [IH1 IH2]]; simpl; [tauto|].
  rewrite IH1, IH2. split; reflexivity.
Qed.

(** X15.  A walk while every request is rejected, over an index and a cache
    that are not empty, returns a listing, and has deleted from the index
    the first 1000 cached children of the base directory.  It adds no
    record and leaves the directory-mtime cache and the progress record as
    they were. *)
Theorem walk_forgets_the_children_of_an_unreachable_base :
  forall env fuel w,
    (forall path depth, remote env path depth = None) ->
    fileIndex (store w) <> ∅ ->
    dirMtimeStore (store w) <> ∅ ->
    exists listing w',
      walk env (S fuel) w = (Ret listing, w')
      /\ (forall e,
             In e (take 1000
                     (childrenOf (fileIndex (store w)) (remoteBaseDir env))) ->
             fileIndex (store w') !! FileIndexEntry.path e = None)
      /\ (forall p e,
             fileIndex (store w') !! p = Some e ->
             fileIndex (store w) !! p = Some e)
      /\ dirMtimeStore (store w') = dirMtimeStore (store w)
      /\ progressStore (store w') = progressStore (store w).
Proof.
  intros env fuel w Hdown Hindex Hcache.
  assert (Hstat : forall path, statOf env path = None).
  { intros path. unfold statOf. now rewrite Hdown. }
  assert (Hlist : listDirOf env (remoteBaseDir env) = []).
  { unfold listDirOf. now rewrite Hdown. }
  pose proof (detectChanges_base_unreachable env fuel w
                (Hstat _) Hlist Hcache) as Hdetect.
  rewrite (walk_incremental env (S fuel) w _ _ Hindex Hdetect eq_refl).
  cbn [DeltaDetectionResult.changes].
  destruct (Nat.eqb_spec
              (length (deletionsOf
                         (cachedMapOf (fileIndex (store w)) (remoteBaseDir env))))
              0) as [Hlen|Hlen].
  - destruct (getFromIndex_eq env
                (logRequest (remoteBaseDir env) Depth1
                   (logRequest (remoteBaseDir env) Depth0 w)))
      as [listing Hlisting].
    exists listing. eexists. split; [exact Hlisting|].
    cbn [logRequest store]. repeat split; try tauto.
    intros e He. apply in_deletionsOf_cached in He.
    destruct (deletionsOf _); [contradiction|discriminate].
  - rewrite (bind_eq _ _ _ _ _ (applyChanges_eq env _ _)).
    destruct (flat_map_deletionsOf env
                (cachedMapOf (fileIndex (store w)) (remoteBaseDir env)))
      as [Hset Hdel].
    cbn [logRequest store fileIndex].
    rewrite Hset, Hdel. cbn [insertAll fold_left].
    rewrite refreshDirMtimes_unreachable by exact Hstat.
    match goal with
    | |- exists listing w', getFromIndex env ?v = _ /\ _ =>
        destruct (getFromIndex_eq env v) as [listing Hlisting]
    end.
    exists listing. eexists. split; [exact Hlisting|].
    cbn [withDirMtimes withFileIndex store fileIndex dirMtimeStore
         progressStore].
    repeat split.
    + intros e He. apply deleteAll_lookup_In.
      apply in_deletionsOf_cached in He. unfold deletionsOf in He.
      apply in_map_iff in He. destruct He as [entry [Heq Hin]].
      injection Heq as Heq. rewrite <- Heq. now apply in_map.
    + intros p e He. apply deleteAll_lookup_Some in He. tauto.
Qed.

Lemma walk_forgets_the_children_of_an_unreachable_base_witness :
  exists listing w',
    walk (scenarioEnv [] 5000) 1 (worldOf bootstrapStore) = (Ret listing, w')
    /\ (forall e,
           In e (take 1000
                   (childrenOf (fileIndex (store (worldOf bootstrapStore)))
                      (remoteBaseDir (scenarioEnv [] 5000)))) ->
           fileIndex (store w') !! FileIndexEntry.path e = None)
    /\ (forall p e,
           fileIndex (store w') !! p = Some e ->
           fileIndex (store (worldOf bootstrapStore)) !! p = Some e)
    /\ dirMtimeStore (store w') = dirMtimeStore (store (worldOf bootstrapStore))
    /\ progressStore (store w') = progressStore (store (worldOf bootstrapStore)).
Proof.
  apply (walk_forgets_the_children_of_an_unreachable_base
           (scenarioEnv [] 5000) 0 (worldOf bootstrapStore)).
  - intros path depth. reflexivity.
  - intros Hempty.
    assert (H : fileIndex (store (worldOf bootstrapStore)) !! "/base/a.txt"
                = None) by (rewrite Hempty; apply lookup_empty).
    vm_compute in H. discriminate H.
  - intros Hempty.
    assert (H : dirMtimeStore (store (worldOf bootstrapStore)) !! "/base"
                = None) by (rewrite Hempty; apply lookup_empty).
    vm_compute in H. discriminate H.
Defined.

(* ===================================================================== *)
(** ** A full scan that rejects *)
(* ===================================================================== *)

Lemma walk_without_cache env fuel w :
  size (fileIndex (store w)) = 0%nat \/ dirMtimeStore (store w) = ∅ ->
  walk env fuel w = driverFullScan env fuel w.
Proof.
  intros Hempty. unfold walk.
  unfold SyncProgressStore.get, FileIndexStore.count, LocalForage.length.
  rewrite (bind_eq (gets _) _ w _ w eq_refl).
  rewrite (bind_eq (gets _) _ w _ w eq_refl).
  destruct (Nat.eqb_spec (size (fileIndex (store w))) 0) as [Hsize|Hsize];
    [reflexivity|].
  destruct Hempty as [Hindex|Hcache]; [contradiction|].
  unfold detectChanges, DirMtimeStore.getAll.
  unfold bind at 1. unfold bind at 1. cbn [gets].
  rewrite Hcache. reflexivity.
Qed.

Lemma fullScan_rejected env fuel onProgress w e w' :
  readOnlyProgress onProgress ->
  fullScan env fuel onProgress w = (Throw e, w') ->
  dirMtimeStore (store w') = ∅
  /\ progressStore (store w') = progressStore (store w).
Proof.
  intros Hro. unfold fullScan.
  unfold FileIndexStore.clear, DirMtimeStore.clear.
  unfold bind at 1. cbn [modify]. unfold bind at 1. cbn [modify].
  set (w0 := {| store := _; requests := _; progressCalls := _ |}).
  assert (Hp : preserves
                 (fun s => dirMtimeStore s = ∅
                           /\ progressStore s = progressStore (store w))
                 (scanDirRecursive env fuel (remoteBaseDir env)
                    (fullScanBatch env onProgress) (mkScanLocals 0 0 []))).
  { apply preserves_scanDirRecursive. intros items dirPath dirMtime locals.
    apply preserves_fullScanBatch; [|exact Hro].
    intros entry s Hs. exact Hs. }
  specialize (Hp w0 (conj eq_refl eq_refl)).
  unfold bind at 1.
  destruct (scanDirRecursive env fuel (remoteBaseDir env)
              (fullScanBatch env onProgress) (mkScanLocals 0 0 []) w0)
    as [[locals|e'] w1].
  - unfold bind at 1.
    destruct (dirMtime_batchSet_eq (sl_dirMtimes locals) w1) as [Hret _].
    destruct (DirMtimeStore.batchSet (sl_dirMtimes locals) w1)
      as [[[]|e''] w2]; cbn in Hret |- *; discriminate.
  - intros Heq. injection Heq as _ <-. exact Hp.
Qed.

Lemma driverFullScan_rejected env fuel w e w' :
  driverFullScan env fuel w = (Throw e, w') ->
  dirMtimeStore (store w') = ∅
  /\ exists progress,
       progressStore (store w') = Some progress
       /\ SyncProgress.phase progress = scanning
       /\ SyncProgress.currentPath progress = remoteBaseDir env.
Proof.
  unfold driverFullScan, SyncProgressStore.save.
  unfold bind at 1. cbn [modify].
  set (w0 := {| store := _; requests := _; progressCalls := _ |}).
  unfold bind at 1.
  destruct (fullScan env fuel _ w0) as [[result|e'] w1] eqn:Hscan.
  - unfold SyncProgressStore.clear. unfold bind at 1. cbn [modify].
    match goal with
    | |- getFromIndex env ?v = _ -> _ =>
        destruct (getFromIndex_eq env v) as [listing ->]
    end.
    discriminate.
  - intros Heq. injection Heq as _ <-.
    apply fullScan_rejected in Hscan; [|apply readOnlyProgress_notifyProgress].
    destruct Hscan as [Hcache Hprogress]. split; [exact Hcache|].
    eexists. split; [rewrite Hprogress; reflexivity|]. split; reflexivity.
Qed.

(** X16.  A walk that rejects with the error of a rejected request has done so
    inside a full scan.  It leaves the directory-mtime cache empty and the
    progress record of the scan, with phase [scanning], in place; the walk
    that follows runs the full scan again. *)
Theorem walk_that_rejects_leaves_no_cache :
  forall env fuel w w',
    walk env fuel w = (Throw TransportError, w') ->
    dirMtimeStore (store w') = ∅
    /\ (exists progress,
          progressStore (store w') = Some progress
          /\ SyncProgress.phase progress = scanning
          /\ SyncProgress.currentPath progress = remoteBaseDir env)
    /\ forall env' fuel',
         walk env' fuel' w' = driverFullScan env' fuel' w'.
Proof.
  intros env fuel w w' Hwalk.
  assert (Hscan : exists w0, driverFullScan env fuel w0 = (Throw TransportError, w')).
  { revert Hwalk. unfold walk.
    unfold SyncProgressStore.get, FileIndexStore.count, LocalForage.length.
    rewrite (bind_eq (gets _) _ w _ w eq_refl).
    rewrite (bind_eq (gets _) _ w _ w eq_refl).
    destruct (Nat.eqb (size (fileIndex (store w))) 0); [eauto|].
    unfold bind at 1.
    pose proof (neverRejects_detectChanges env fuel w) as Hnever.
    destruct (detectChanges env fuel w) as [[result|e] w1].
    - destruct (DeltaDetectionResult.needFullScan result); [eauto|].
      destruct (Nat.eqb (length (DeltaDetectionResult.changes result)) 0).
      + destruct (getFromIndex_eq env w1) as [listing ->]. discriminate.
      + rewrite (bind_eq _ _ _ _ _ (applyChanges_eq env _ _)).
        match goal with
        | |- getFromIndex env ?v = _ -> _ =>
            destruct (getFromIndex_eq env v) as [listing ->]
        end.
        discriminate.
    - intros Heq. injection Heq as -> _. now contradiction Hnever. }
  destruct Hscan as [w0 Hscan].
  apply driverFullScan_rejected in Hscan. destruct Hscan as [Hcache Hprogress].
  split; [exact Hcache|]. split; [exact Hprogress|].
  intros env' fuel'. apply walk_without_cache. now right.
Qed.

Lemma walk_that_rejects_leaves_no_cache_witness :
  walk (scenarioEnv [] 5000) 5 (worldOf emptyStore)
  = (Throw TransportError,
     snd (walk (scenarioEnv [] 5000) 5 (worldOf emptyStore)))
  /\ dirMtimeStore
       (store (snd (walk (scenarioEnv [] 5000) 5 (worldOf emptyStore)))) = ∅
  /\ (exists progress,
        progressStore
          (store (snd (walk (scenarioEnv [] 5000) 5 (worldOf emptyStore))))
        = Some progress
        /\ SyncProgress.phase progress = scanning
        /\ SyncProgress.currentPath progress
           = remoteBaseDir (scenarioEnv [] 5000))
  /\ forall env' fuel',
       walk env' fuel'
         (snd (walk (scenarioEnv [] 5000) 5 (worldOf emptyStore)))
       = driverFullScan env' fuel'
           (snd (walk (scenarioEnv [] 5000) 5 (worldOf emptyStore))).
Proof.
  assert (Hwalk : walk (scenarioEnv [] 5000) 5 (worldOf emptyStore)
                  = (Throw TransportError,
                     snd (walk (scenarioEnv [] 5000) 5 (worldOf emptyStore))))
    by (vm_compute; reflexivity).
  split; [exact Hwalk|].
  exact (walk_that_rejects_leaves_no_cache
           (scenarioEnv [] 5000) 5 (worldOf emptyStore) _ Hwalk).
Defined.

(* ===================================================================== *)
(** ** Clearing the index *)
(* ===================================================================== *)

(** X17.  A walk over an empty index, or with an empty directory-mtime cache, is
    the full scan.  This is the state after [clearIndex()], which empties
    the three stores so that [getStats()] reports no index, and after the
    two buttons of the settings page, opened on the namespace of the
    driver, which empty the index and the cache, keep the progress record
    and make the status line report no index. *)
Theorem walk_is_a_full_scan_after_clearing :
  forall env fuel w,
    (size (fileIndex (store w)) = 0%nat \/ dirMtimeStore (store w) = ∅ ->
     walk env fuel w = driverFullScan env fuel w)
    /\ (exists w',
          clearIndex w = (Ret tt, w')
          /\ store w' = emptyStore
          /\ getStats w' = (Ret (mkIndexStats 0 0 false), w')
          /\ walk env fuel w' = driverFullScan env fuel w')
    /\ (exists w',
          IncrementalSyncSettings.clearStores w = (Ret tt, w')
          /\ fileIndex (store w') = ∅
          /\ dirMtimeStore (store w') = ∅
          /\ progressStore (store w') = progressStore (store w)
          /\ IncrementalSyncSettings.displayIndexStatus w' = (Ret None, w')
          /\ walk env fuel w' = driverFullScan env fuel w').
Proof.
  intros env fuel w. split; [apply walk_without_cache|]. split.
  - eexists. split; [reflexivity|]. cbn [store]. repeat split.
  - eexists. split; [reflexivity|].
    cbn [store fileIndex dirMtimeStore progressStore]. repeat split.
Qed.

(** X18.  The status line of the settings page, opened on the namespace of the
    driver, and [getStats()] of the driver agree: the line reports no index exactly when [hasIndex] is false, and
    the counts of files and directories it shows otherwise are those of
    [getStats()]. *)
Theorem settings_status_agrees_with_getStats :
  forall w,
    exists stats,
      getStats w = (Ret stats, w)
      /\ IncrementalSyncSettings.displayIndexStatus w
         = (Ret (if hasIndex stats
                 then Some (fileCount stats, dirCount stats)
                 else None), w).
Proof.
  intros w. eexists. split; [apply getStats_eq|].
  unfold IncrementalSyncSettings.displayIndexStatus, tryCatch, bind,
    FileIndexStore.count, FileIndexStore.getAllDirs, gets, ret,
    LocalForage.length.
  cbn [hasIndex fileCount dirCount].
  destruct (Nat.eqb (size (fileIndex (store w))) 0) eqn:Hsize;
    cbn [negb]; [reflexivity|].
  rewrite getAllDirsIn_eq, length_map.
  pose proof (records_split (fileIndex (store w))) as Hsum.
  replace (size (fileIndex (store w))
           - length (dirRecords (fileIndex (store w))))%nat
    with (length (fileRecords (fileIndex (store w)))) by lia.
  reflexivity.
Qed.


(* ===================================================================== *)
(** ** The chunks of [chunkArray] *)
(* ===================================================================== *)

Lemma length_arraySlice {T} (array : list T) (size i : nat) :
  length (Js.arraySlice array i (i + size))
  = Nat.min size (length array - i).
Proof.
  unfold Js.arraySlice. rewrite length_take, length_drop.
  replace (i + size - i)%nat with size by lia. reflexivity.
Qed.

Lemma chunkArrayFrom_lengths {T} (array : list T) (size : nat) :
  (1 <= size)%nat ->
  forall fuel i,
    Forall (fun chunk => (1 <= length chunk <= size)%nat)
      (chunkArrayFrom fuel array size i).
Proof.
  intros Hsize. induction fuel as [|fuel IH]; intros i; simpl.
  - constructor.
  - destruct (Nat.ltb_spec i (length array)) as [Hlt|Hge]; [|constructor].
    constructor; [|apply IH].
    rewrite length_arraySlice. lia.
Qed.

Lemma chunkArrayFrom_full {T} (array : list T) (size : nat) :
  forall fuel i before chunk after,
    chunkArrayFrom fuel array size i = before ++ chunk :: after ->
    after <> [] ->
    length chunk = size.
Proof.
  induction fuel as [|fuel IH]; intros i before chunk after Heq Hafter;
    simpl in Heq.
  - destruct before; discriminate.
  - destruct (Nat.ltb_spec i (length array)) as [Hlt|Hge];
      [|destruct before; discriminate].
    destruct before as [|b before]; simpl in Heq.
    + injection Heq as <- <-.
      rewrite length_arraySlice.
      destruct fuel as [|fuel']; simpl in Hafter; [contradiction|].
      destruct (Nat.ltb_spec (i + size) (length array)) as [Hnext|Hnext];
        [lia|contradiction].
    + injection Heq as _ Heq. exact (IH _ _ _ _ Heq Hafter).
Qed.

(** X19.  [chunkArray(array, size)] with [size >= 1]: the chunks, joined in
    order, are the array; every chunk holds between one and [size]
    elements; and every chunk but the last holds [size] of them. *)
Theorem chunkArray_partitions_the_array :
  forall (T : Type) (array : list T) (size : nat),
    (1 <= size)%nat ->
    concat (chunkArray array size) = array
    /\ Forall (fun chunk => (1 <= length chunk <= size)%nat)
         (chunkArray array size)
    /\ (forall before chunk after,
           chunkArray array size = before ++ chunk :: after ->
           after <> [] ->
           length chunk = size).
Proof.
  intros T array size Hsize. split; [|split].
  - now apply chunkArray_concat.
  - now apply chunkArrayFrom_lengths.
  - intros before chunk after. apply chunkArrayFrom_full.
Qed.

Lemma chunkArray_partitions_the_array_witness :
  concat (chunkArray ["a"; "b"; "c"; "d"; "e"] 2) = ["a"; "b"; "c"; "d"; "e"]
  /\ Forall (fun chunk => (1 <= length chunk <= 2)%nat)
       (chunkArray ["a"; "b"; "c"; "d"; "e"] 2)
  /\ (forall before chunk after,
         chunkArray ["a"; "b"; "c"; "d"; "e"] 2 = before ++ chunk :: after ->
         after <> [] ->
         length chunk = 2%nat).
Proof.
  apply (chunkArray_partitions_the_array string ["a"; "b"; "c"; "d"; "e"] 2).
  lia.
Defined.

(* ===================================================================== *)
(** ** Deletions in [updateFileIndex] *)
(* ===================================================================== *)

(** X20.  [updateFileIndex(changes)] returns and writes to the file index only.
    The path of a [deleted] change is absent afterwards, wherever the
    change stands among the others: an [added] or [modified] change for the
    same path, before or after it, does not bring the record back.  A path
    that no change carries keeps its record. *)
Theorem updateFileIndex_deletes_after_it_sets :
  forall env changes w,
    exists w',
      updateFileIndex env changes w = (Ret tt, w')
      /\ dirMtimeStore (store w') = dirMtimeStore (store w)
      /\ progressStore (store w') = progressStore (store w)
      /\ requests w' = requests w
      /\ (forall change,
             In change changes ->
             RemoteChange.type change = deleted ->
             fileIndex (store w') !! RemoteChange.path change = None)
      /\ (forall p,
             (forall change, In change changes -> RemoteChange.path change <> p) ->
             fileIndex (store w') !! p = fileIndex (store w) !! p).
Proof.
  intros env changes w. eexists. split; [apply updateFileIndex_eq|].
  cbn [withFileIndex store fileIndex dirMtimeStore progressStore requests].
  repeat split.
  - intros change Hin Hdel. apply deleteAll_lookup_In.
    apply in_flat_map. exists change. split; [exact Hin|].
    unfold pathsToDelete. rewrite Hdel. now left.
  - intros p Hp. rewrite deleteAll_lookup_other.
    + apply insertAll_lookup_other. intros e He.
      apply in_flat_map in He. destruct He as [change [Hin He]].
      apply entriesToSet_path in He. destruct He as [-> _]. now apply Hp.
    + intros Hin. apply in_flat_map in Hin. destruct Hin as [change [Hin Hq]].
      apply pathsToDelete_path in Hq. destruct Hq as [-> _].
      exact (Hp change Hin eq_refl).
Qed.

(* ===================================================================== *)
(** ** The changes of one directory *)
(* ===================================================================== *)

Lemma JsMap_set_In {V} (k : string) (v : V) (m : JsMap.t V) k' v' :
  In (k', v') (JsMap.set k v m) -> (k', v') = (k, v) \/ In (k', v') m.
Proof.
  induction m as [|[k0 v0] rest IH]; simpl.
  - intros [H|[]]. left. now symmetry.
  - destruct (String.eqb k k0); simpl.
    + intros [H|H]; [left; now symmetry|right; now right].
    + intros [H|H]; [right; now left|].
      destruct (IH H) as [Heq|Hin]; [now left|right; now right].
Qed.

Lemma JsMap_ofList_In {V} (pairs : list (string * V)) k v :
  In (k, v) (JsMap.ofList pairs) -> In (k, v) pairs.
Proof.
  unfold JsMap.ofList.
  assert (Hgen : forall m,
             In (k, v) (fold_left
                          (fun m kv => JsMap.set (fst kv) (snd kv) m) pairs m) ->
             In (k, v) m \/ In (k, v) pairs).
  { induction pairs as [|[k' v'] rest IH]; intros m; simpl.
    - tauto.
    - intros H. apply IH in H. destruct H as [H|H]; [|tauto].
      apply JsMap_set_In in H. simpl in H. destruct H as [H|H]; [|tauto].
      right. left. now symmetry. }
  intros H. apply Hgen in H. simpl in H. tauto.
Qed.

Lemma JsMap_get_None_keys {V} (k : string) (m : JsMap.t V) :
  JsMap.get k m = None <-> ~ In k (map fst m).
Proof.
  induction m as [|[k0 v0] rest IH]; simpl.
  - tauto.
  - destruct (String.eqb_spec k k0) as [->|Hne].
    + split; [discriminate|]. intros H. exfalso. apply H. now left.
    + rewrite IH. intuition congruence.
Qed.

(** One change at most for each key of a map, under the key. *)
Lemma NoDup_changes_of_map {V} (f : string * V -> list RemoteChange.t)
    (m : JsMap.t V) :
  (forall entry change,
      In change (f entry) -> RemoteChange.path change = fst entry) ->
  (forall entry, (length (f entry) <= 1)%nat) ->
  List.NoDup (map fst m) ->
  List.NoDup (map RemoteChange.path (flat_map f m)).
Proof.
  intros Hpath Hone. induction m as [|entry rest IH]; simpl; intros Hnd.
  - constructor.
  - inversion Hnd as [|k ks Hfresh Hrest]; subst.
    specialize (IH Hrest). specialize (Hone entry).
    destruct (f entry) as [|change [|change2 more]] eqn:Hf;
      simpl in *; [exact IH| |lia].
    constructor; [|exact IH].
    rewrite (Hpath entry change) by (rewrite Hf; now left).
    intros Hin. apply in_map_iff in Hin. destruct Hin as [c [Hc Hin]].
    apply in_flat_map in Hin. destruct Hin as [entry' [Hin' Hc']].
    apply Hpath in Hc'. apply Hfresh. rewrite <- Hc, Hc'.
    now apply in_map.
Qed.

Lemma changeOfRemote_length cachedMap entry :
  (length (changeOfRemote cachedMap entry) <= 1)%nat.
Proof.
  unfold changeOfRemote. destruct (JsMap.get (fst entry) cachedMap);
    [destruct (isModified _ _)|]; simpl; lia.
Qed.

Lemma changeOfCached_length remoteMap entry :
  (length (changeOfCached remoteMap entry) <= 1)%nat.
Proof.
  unfold changeOfCached. destruct (negb _); simpl; lia.
Qed.

(** X21.  [scanDirForChanges(dirPath)] returns after one depth-1 PROPFIND, and
    no two of its changes carry the same path.  A [deleted] change has no
    [stat], its path is that of one of the first 1000 cached children of
    the directory and of no listed resource; every other change carries the
    [stat] of a listed resource, whose path is the path of the change. *)
Theorem scanDirForChanges_reports_each_path_once :
  forall env dirPath w,
    exists changes,
      scanDirForChanges env dirPath w
      = (Ret changes, logRequest dirPath Depth1 w)
      /\ List.NoDup (map RemoteChange.path changes)
      /\ forall change,
           In change changes ->
           match RemoteChange.type change with
           | deleted =>
               RemoteChange.stat change = None
               /\ (forall item,
                      In item (listDirOf env dirPath) ->
                      StatModel.path item <> RemoteChange.path change)
               /\ exists cached,
                    In cached
                      (take 1000 (childrenOf (fileIndex (store w)) dirPath))
                    /\ FileIndexEntry.path cached = RemoteChange.path change
           | _ =>
               exists item,
                 RemoteChange.stat change = Some item
                 /\ StatModel.path item = RemoteChange.path change
                 /\ In item (listDirOf env dirPath)
           end.
Proof.
  intros env dirPath w. eexists. split; [apply scanDirForChanges_eq|].
  set (remoteMap := remoteMapOf env dirPath).
  set (cachedMap := cachedMapOf (fileIndex (store w)) dirPath).
  assert (HremoteIn : forall k item,
             In (k, item) remoteMap ->
             StatModel.path item = k /\ In item (listDirOf env dirPath)).
  { intros k item Hin. apply JsMap_ofList_In in Hin.
    apply in_map_iff in Hin. destruct Hin as [f [Heq Hf]].
    injection Heq as <- <-. tauto. }
  assert (HcachedIn : forall k cached,
             In (k, cached) cachedMap ->
             FileIndexEntry.path cached = k
             /\ In cached
                  (take 1000 (childrenOf (fileIndex (store w)) dirPath))).
  { intros k cached Hin. apply JsMap_ofList_In in Hin.
    apply in_map_iff in Hin. destruct Hin as [f [Heq Hf]].
    injection Heq as <- <-.
    rewrite getByParentIn_eq, drop_0 in Hf. tauto. }
  split.
  - rewrite map_app. apply NoDup_ListNoDup. apply NoDup_app.
    split; [|split].
    + apply NoDup_ListNoDup. apply NoDup_changes_of_map.
      * intros entry change Hc. now apply changeOfRemote_path in Hc.
      * apply changeOfRemote_length.
      * apply JsMap_ofList_NoDup.
    + intros p Hp Hq. apply list_elem_of_In in Hp. apply list_elem_of_In in Hq.
      apply in_map_iff in Hp. destruct Hp as [c1 [Hc1 Hin1]].
      apply in_map_iff in Hq. destruct Hq as [c2 [Hc2 Hin2]].
      apply in_flat_map in Hin1. destruct Hin1 as [entry1 [He1 Hin1]].
      apply in_flat_map in Hin2. destruct Hin2 as [entry2 [He2 Hin2]].
      apply changeOfRemote_path in Hin1. destruct Hin1 as [Hpath1 _].
      apply changeOfCached_path in Hin2. destruct Hin2 as [Hpath2 Hnone].
      apply JsMap_get_None_keys in Hnone. apply Hnone.
      rewrite <- Hpath2, Hc2, <- Hc1, Hpath1. now apply in_map.
    + apply NoDup_ListNoDup. apply NoDup_changes_of_map.
      * intros entry change Hc. now apply changeOfCached_path in Hc.
      * apply changeOfCached_length.
      * apply JsMap_ofList_NoDup.
  - intros change Hin. apply in_app_or in Hin. destruct Hin as [Hin|Hin].
    + apply in_flat_map in Hin. destruct Hin as [[k item] [Hentry Hin]].
      apply changeOfRemote_path in Hin. cbn [fst snd] in Hin.
      destruct Hin as [Hpath [Hstat Htype]].
      destruct (HremoteIn k item Hentry) as [Hk Hlisted].
      assert (Hgoal : exists item0,
                 RemoteChange.stat change = Some item0
                 /\ StatModel.path item0 = RemoteChange.path change
                 /\ In item0 (listDirOf env dirPath)).
      { exists item. rewrite Hpath. tauto. }
      fold cachedMap in Htype.
      destruct (JsMap.get k cachedMap).
      * destruct Htype as [-> _]. exact Hgoal.
      * rewrite Htype. exact Hgoal.
    + apply in_flat_map in Hin. destruct Hin as [[k cached] [Hentry Hin]].
      assert (Htype : RemoteChange.type change = deleted
                      /\ RemoteChange.stat change = None).
      { unfold changeOfCached in Hin. destruct (negb _); simpl in Hin;
          [|contradiction]. destruct Hin as [<-|[]]. split; reflexivity. }
      apply changeOfCached_path in Hin. cbn [fst] in Hin.
      destruct Hin as [Hpath Hnone].
      destruct Htype as [-> Hstat]. split; [exact Hstat|]. split.
      * intros item Hitem Heq.
        apply JsMap_get_None_keys in Hnone. apply Hnone.
        fold remoteMap. unfold remoteMap, remoteMapOf.
        apply JsMap_ofList_keys. rewrite map_map. cbn [fst].
        rewrite <- Hpath, <- Heq. now apply in_map.
      * exists cached. destruct (HcachedIn k cached Hentry) as [Hk Hc].
        rewrite Hpath. tauto.
Qed.

(* ===================================================================== *)
(** ** What every record of the index looks like *)
(* ===================================================================== *)

Lemma wellFormed_scannedEntry item :
  wellFormedRecord (StatModel.path item) (scannedEntry item).
Proof.
  unfold wellFormedRecord, scannedEntry. cbn. repeat split.
  intros ->. reflexivity.
Qed.

Lemma wellFormed_changedEntry env path stat :
  wellFormedRecord path (changedEntry env path stat).
Proof.
  unfold wellFormedRecord, changedEntry. cbn. repeat split.
  intros ->. reflexivity.
Qed.

Lemma recordsWellFormed_setItem entry s :
  wellFormedRecord (FileIndexEntry.path entry) entry ->
  recordsWellFormed s ->
  recordsWellFormed
    (onFileIndex (LocalForage.setItem (FileIndexEntry.path entry) entry) s).
Proof.
  intros Hentry Hs key e. unfold onFileIndex, LocalForage.setItem.
  cbn [fileIndex].
  destruct (decide (FileIndexEntry.path entry = key)) as [<-|Hne].
  - rewrite lookup_insert_eq. intros [= <-]. exact Hentry.
  - rewrite lookup_insert_ne by exact Hne. apply Hs.
Qed.

Lemma preserves_driverFullScan_wellFormed env fuel P :
  (forall s, P s -> P (onFileIndex LocalForage.clear s)) ->
  (forall f s, P s -> P (onDirMtime f s)) ->
  (forall f s, P s -> P (onProgressStore f s)) ->
  (forall item s,
      P s ->
      P (onFileIndex
           (LocalForage.setItem (FileIndexEntry.path (scannedEntry item))
              (scannedEntry item)) s)) ->
  preserves P (driverFullScan env fuel).
Proof.
  intros Hclear Hdir Hprogress Hset.
  unfold driverFullScan, fullScan.
  apply preserves_bind; [apply preserves_modify; intros s; apply Hprogress|].
  intros _.
  apply preserves_bind.
  - apply preserves_bind; [apply preserves_modify; exact Hclear|]. intros _.
    apply preserves_bind; [apply preserves_modify; intros s; apply Hdir|].
    intros _.
    apply preserves_bind.
    + apply preserves_scanDirRecursive.
      intros items dirPath dirMtime locals.
      unfold fullScanBatch.
      apply preserves_bind.
      * apply preserves_batchSet. intros e s He Hs.
        apply in_map_iff in He. destruct He as [item [<- _]].
        now apply Hset.
      * intros _. apply preserves_bind; [|intros _; apply preserves_ret].
        apply preserves_notifyProgress.
    + intros locals. apply preserves_bind; [|intros _; apply preserves_ret].
      apply preserves_dirMtime_batchSet. intros e s Hs. now apply Hdir.
  - intros _.
    apply preserves_bind; [apply preserves_modify; intros s; apply Hprogress|].
    intros _. intros w Hw.
    destruct (getFromIndex_eq env w) as [listing ->]. exact Hw.
Qed.

Lemma recordsWellFormed_insertAll entries index :
  (forall e, In e entries -> wellFormedRecord (FileIndexEntry.path e) e) ->
  (forall key e, index !! key = Some e -> wellFormedRecord key e) ->
  forall key e,
    insertAll entries index !! key = Some e -> wellFormedRecord key e.
Proof.
  intros Hentries Hindex key e He.
  apply insertAll_lookup_Some in He. destruct He as [He|[Hin <-]].
  - now apply Hindex.
  - now apply Hentries.
Qed.

(** X22.  The form of the records is kept by every walk: when each record of the
    index has its path for key, the [dirname] of the path for parent, size
    0 if it is a directory, and neither ETag nor content hash, the same
    holds after [walk()], however it ends. *)
Theorem walk_keeps_the_records_well_formed :
  forall env fuel w,
    recordsWellFormed (store w) ->
    recordsWellFormed (store (snd (walk env fuel w))).
Proof.
  intros env fuel w Hw.
  assert (Hscan : forall w0,
             recordsWellFormed (store w0) ->
             recordsWellFormed (store (snd (driverFullScan env fuel w0)))).
  { intros w0. apply preserves_driverFullScan_wellFormed.
    - intros s _ key e. unfold onFileIndex, LocalForage.clear.
      cbn [fileIndex]. rewrite lookup_empty. discriminate.
    - intros f s Hs. exact Hs.
    - intros f s Hs. exact Hs.
    - intros item s Hs. apply recordsWellFormed_setItem; [|exact Hs].
      apply wellFormed_scannedEntry. }
  unfold walk.
  unfold SyncProgressStore.get, FileIndexStore.count, LocalForage.length.
  rewrite (bind_eq (gets _) _ w _ w eq_refl).
  rewrite (bind_eq (gets _) _ w _ w eq_refl).
  destruct (Nat.eqb (size (fileIndex (store w))) 0); [now apply Hscan|].
  unfold bind at 1.
  pose proof (preserves_detectChanges recordsWellFormed env fuel w Hw) as Hd.
  destruct (detectChanges env fuel w) as [[result|e] w1]; cbn [snd] in *;
    [|exact Hd].
  destruct (DeltaDetectionResult.needFullScan result); [now apply Hscan|].
  destruct (Nat.eqb (length (DeltaDetectionResult.changes result)) 0).
  - destruct (getFromIndex_eq env w1) as [listing ->]. exact Hd.
  - rewrite (bind_eq _ _ _ _ _ (applyChanges_eq env _ _)).
    match goal with
    | |- recordsWellFormed (store (snd (getFromIndex env ?v))) =>
        destruct (getFromIndex_eq env v) as [listing ->]
    end.
    cbn [snd withDirMtimes withFileIndex store].
    intros key e He. cbn [fileIndex] in He.
    apply deleteAll_lookup_Some in He. destruct He as [He _].
    revert key e He. apply recordsWellFormed_insertAll; [|exact Hd].
    intros e He. apply in_flat_map in He. destruct He as [change [_ He]].
    apply entriesToSet_path in He.
    destruct He as [Hpath [_ [_ [stat [_ ->]]]]].
    apply wellFormed_changedEntry.
Qed.

Lemma walk_keeps_the_records_well_formed_witness :
  recordsWellFormed
    (store (snd (walk (scenarioEnv nestedTree 1000) 10 (worldOf emptyStore)))).
Proof.
  apply (walk_keeps_the_records_well_formed
           (scenarioEnv nestedTree 1000) 10 (worldOf emptyStore)).
  intros key entry Hkey. cbn in Hkey. rewrite lookup_empty in Hkey.
  discriminate Hkey.
Defined.

(* ===================================================================== *)
(** ** The index that a full scan leaves *)
(* ===================================================================== *)

Lemma fullScan_scanInvariant env fuel onProgress w :
  listsChildren env -> listsOnce env -> readOnlyProgress onProgress ->
  scanInvariant env (fileIndex (store (snd (fullScan env fuel onProgress w)))).
Proof.
  intros Hchildren Honce Hro.
  unfold fullScan, FileIndexStore.clear, DirMtimeStore.clear.
  unfold bind at 1. cbn [modify].
  unfold bind at 1. cbn [modify].
  set (w0 := {| store := onDirMtime LocalForage.clear _;
                requests := _; progressCalls := _ |}).
  assert (H0 : scanInvariant env (fileIndex (store w0))
               /\ scannable env (remoteBaseDir env) (fileIndex (store w0))).
  { split; [|left; reflexivity].
    intros p entry Hl. simpl in Hl. unfold LocalForage.clear in Hl.
    rewrite lookup_empty in Hl. discriminate. }
  apply (scanDirRecursive_keeps_invariant env onProgress Hchildren Honce Hro
           fuel (remoteBaseDir env) (mkScanLocals 0 0 []) w0) in H0.
  unfold bind at 1.
  destruct (scanDirRecursive env fuel (remoteBaseDir env)
              (fullScanBatch env onProgress) (mkScanLocals 0 0 []) w0)
    as [[locals|e] w1]; cbn [snd] in H0; [|apply H0].
  assert (Hp : preserves (fun s => scanInvariant env (fileIndex s))
                 (DirMtimeStore.batchSet (sl_dirMtimes locals))).
  { apply preserves_dirMtime_batchSet. intros e s Hs. exact Hs. }
  specialize (Hp w1 (proj1 H0)). unfold bind.
  destruct (DirMtimeStore.batchSet (sl_dirMtimes locals) w1) as [[[]|e] w2];
    exact Hp.
Qed.

(** X23.  The index after a full scan, on a remote that lists under a directory
    its children only, and each of them once.  Whatever the index held
    before, every record is then the one the scan writes for a resource
    that the depth-1 listing of its parent names under the key, and every
    parent is the base directory or an indexed directory (invariant 1). *)
Theorem fullScan_indexes_what_the_remote_lists :
  forall env fuel onProgress w,
    listsChildren env ->
    listsOnce env ->
    readOnlyProgress onProgress ->
    parentsIndexed (remoteBaseDir env)
      (fileIndex (store (snd (fullScan env fuel onProgress w)))) = true
    /\ forall p entry,
         fileIndex (store (snd (fullScan env fuel onProgress w))) !! p
         = Some entry ->
         exists contents item,
           remote env (Js.dirname p) Depth1 = Some contents
           /\ In item contents
           /\ StatModel.path item = p
           /\ entry = scannedEntry item.
Proof.
  intros env fuel onProgress w Hchildren Honce Hro.
  pose proof (fullScan_scanInvariant env fuel onProgress w Hchildren Honce Hro)
    as Hinv.
  split.
  - apply parentsIndexed_true_iff. intros p entry Hl. apply (Hinv p entry Hl).
  - intros p entry Hl.
    destruct (Hinv p entry Hl) as [[item [Hlisted ->]] _].
    destruct Hlisted as [contents [Hremote [Hin [Hpath _]]]].
    exists contents, item. tauto.
Qed.

Lemma fullScan_indexes_what_the_remote_lists_witness :
  parentsIndexed (remoteBaseDir (scenarioEnv nestedTree 1000))
    (fileIndex
       (store (snd (fullScan (scenarioEnv nestedTree 1000) 10 None
                      (worldOf twoFilesStore))))) = true
  /\ forall p entry,
       fileIndex
         (store (snd (fullScan (scenarioEnv nestedTree 1000) 10 None
                        (worldOf twoFilesStore)))) !! p
       = Some entry ->
       exists contents item,
         remote (scenarioEnv nestedTree 1000) (Js.dirname p) Depth1
         = Some contents
         /\ In item contents
         /\ StatModel.path item = p
         /\ entry = scannedEntry item.
Proof.
  apply (fullScan_indexes_what_the_remote_lists
           (scenarioEnv nestedTree 1000) 10 None (worldOf twoFilesStore)).
  - apply nestedTree_listsChildren.
  - apply nestedTree_listsOnce.
  - intros notify scanned currentPath w' H. discriminate H.
Defined.

(* ===================================================================== *)
(** ** The detection that follows a first walk *)
(* ===================================================================== *)

(** X24.  After a walk over an empty index that returns, on a remote that is
    well founded and names the base directory in its own depth-1 listing
    with the mtime of the depth-0 answer, the next detection over the
    unchanged remote issues one depth-0 PROPFIND and reports no change. *)
Theorem first_walk_then_quiet_detection :
  forall env rank fuel fuel' w listing w1,
    wellFoundedRemote env rank ->
    selfListed env (remoteBaseDir env) ->
    fileIndex (store w) = ∅ ->
    walk env fuel w = (Ret listing, w1) ->
    detectChanges env (S fuel') (worldOf (store w1))
    = (Ret (DeltaDetectionResult.mk [] false 1 0),
       logRequest (remoteBaseDir env) Depth0 (worldOf (store w1))).
Proof.
  intros env rank fuel fuel' w listing w1 Hwf Hself Hfresh Hwalk.
  exact (proj1 (detectChanges_quiet_after_fresh_walk env rank fuel fuel' w
                  listing w1 Hwf Hself Hfresh Hwalk)).
Qed.

Lemma first_walk_then_quiet_detection_witness :
  exists listing w1,
    walk (scenarioEnv nestedTree 1000) 10 (worldOf emptyStore)
    = (Ret listing, w1)
    /\ detectChanges (scenarioEnv nestedTree 1000) 1 (worldOf (store w1))
       = (Ret (DeltaDetectionResult.mk [] false 1 0),
          logRequest (remoteBaseDir (scenarioEnv nestedTree 1000)) Depth0
            (worldOf (store w1))).
Proof.
  destruct (walk (scenarioEnv nestedTree 1000) 10 (worldOf emptyStore))
    as [[listing|e] w1] eqn:Hwalk; [|vm_compute in Hwalk; discriminate].
  exists listing, w1. split; [reflexivity|].
  apply (first_walk_then_quiet_detection
           (scenarioEnv nestedTree 1000) nestedRank 10 0
           (worldOf emptyStore) listing w1).
  - apply nestedTree_wellFounded.
  - apply nestedTree_selfListed.
  - reflexivity.
  - exact Hwalk.
Defined.

(* ===================================================================== *)
(** ** The listing read from the index *)
(* ===================================================================== *)

(** X25.  [getFromIndex()] reads the index only, and builds its listing from
    one record at most: the array [stats] that it filters and hands to
    [completeLossDir] holds no more than the first record of the index,
    with the basename, the mtime and the kind of that record. *)
Theorem getFromIndex_reads_one_record_at_most :
  forall env w,
    exists stats,
      getFromIndex env w
      = (Ret (completeLossDir env stats
                (List.filter (fun item => needInclude env (StatModel.path item))
                   stats)), w)
      /\ (length stats <= 1)%nat
      /\ (forall item,
             In item stats ->
             exists key entry,
               fileIndex (store w) !! key = Some entry
               /\ StatModel.basename item = FileIndexEntry.basename entry
               /\ StatModel.mtime item = FileIndexEntry.mtime entry
               /\ StatModel.isDir item = FileIndexEntry.isDir entry).
Proof.
  intros env w. unfold getFromIndex.
  rewrite (bind_eq _ _ _ _ _ (iterateAll_eq _ _ w)).
  eexists. split; [reflexivity|].
  destruct (map_to_list (fileIndex (store w))) as [|[key value] rest] eqn:Hlist.
  - split; [simpl; lia|]. intros item [].
  - assert (Hkey : fileIndex (store w) !! key = Some value).
    { apply elem_of_map_to_list. rewrite Hlist. left. }
    unfold getFromIndexCallback.
    destruct (negb (isSub env _ _)); [split; [simpl; lia|intros item []]|].
    destruct (FileIndexEntry.isDir value) eqn:Hdir; cbn [fst app length In].
    + split; [lia|]. intros item [<-|[]]. exists key, value.
      cbn. rewrite Hdir. tauto.
    + split; [lia|]. intros item [<-|[]]. exists key, value.
      cbn. rewrite Hdir. tauto.
Qed.

(* ===================================================================== *)
(** ** The progress record is never read back *)
(* ===================================================================== *)

Lemma ignoresProgress_ret {A} (a : A) : ignoresProgress (ret a).
Proof. intros w1 w2 H. split; [reflexivity|exact H]. Qed.

Lemma ignoresProgress_throw {A} (e : error) : ignoresProgress (@throw A e).
Proof. intros w1 w2 H. split; [reflexivity|exact H]. Qed.

Lemma ignoresProgress_bind {A B} (m : M A) (k : A -> M B) :
  ignoresProgress m -> (forall a, ignoresProgress (k a)) ->
  ignoresProgress (bind m k).
Proof.
  intros Hm Hk w1 w2 H. unfold bind.
  destruct (Hm w1 w2 H) as [Hfst Hsnd].
  destruct (m w1) as [[a1|e1] v1], (m w2) as [[a2|e2] v2];
    cbn [fst snd] in *; try discriminate.
  - injection Hfst as ->. now apply Hk.
  - injection Hfst as ->. split; [reflexivity|exact Hsnd].
Qed.

Lemma ignoresProgress_forEach {T A} (xs : list T) (body : T -> A -> M A) :
  (forall x a, In x xs -> ignoresProgress (body x a)) ->
  forall a, ignoresProgress (forEach xs body a).
Proof.
  induction xs as [|x xs IH]; intros Hbody a; cbn [forEach].
  - apply ignoresProgress_ret.
  - apply ignoresProgress_bind.
    + apply Hbody. now left.
    + intros a'. apply IH. intros y b Hy. apply Hbody. now right.
Qed.

(** An operation that returns what it reads off the index, and logs
    requests, without touching the stores. *)
Lemma ignoresProgress_reader {A} (m : M A)
    (read : gmap string FileIndexEntry.t -> A) (log : list (string * Depth)) :
  (forall w,
      m w = (Ret (read (fileIndex (store w))),
             {| store := store w;
                requests := requests w ++ log;
                progressCalls := progressCalls w |})) ->
  ignoresProgress m.
Proof.
  intros Heq w1 w2 (Hi & Hc & Hr & Hp). rewrite !Heq. cbn [fst snd].
  split; [now rewrite Hi|].
  unfold sameButProgress. cbn [store requests progressCalls].
  now rewrite Hr.
Qed.

Lemma ignoresProgress_statDir env path : ignoresProgress (statDir env path).
Proof.
  apply (ignoresProgress_reader _ (fun _ => statOf env path) [(path, Depth0)]).
  intros w. apply statDir_eq.
Qed.

Lemma ignoresProgress_getSubDirs env path :
  ignoresProgress (getSubDirs env path).
Proof.
  apply (ignoresProgress_reader _ (fun _ => subDirsOf env path)
           [(path, Depth1)]).
  intros w. apply getSubDirs_eq.
Qed.

Lemma ignoresProgress_scanDirForChanges env dirPath :
  ignoresProgress (scanDirForChanges env dirPath).
Proof.
  apply (ignoresProgress_reader _
           (fun index =>
              flat_map (changeOfRemote (cachedMapOf index dirPath))
                (remoteMapOf env dirPath)
              ++ flat_map (changeOfCached (remoteMapOf env dirPath))
                   (cachedMapOf index dirPath))
           [(dirPath, Depth1)]).
  intros w. apply scanDirForChanges_eq.
Qed.

Lemma ignoresProgress_detectDirChanges env fuel :
  forall dirPath cachedMtimes locals,
    ignoresProgress (detectDirChanges env fuel dirPath cachedMtimes locals).
Proof.
  induction fuel as [|fuel IH]; intros dirPath cachedMtimes locals;
    cbn [detectDirChanges].
  - apply ignoresProgress_throw.
  - apply ignoresProgress_bind; [apply ignoresProgress_statDir|].
    intros [currentMtime|]; [|apply ignoresProgress_ret].
    destruct (cachedMtimeIs cachedMtimes dirPath currentMtime);
      [apply ignoresProgress_ret|].
    apply ignoresProgress_bind; [apply ignoresProgress_getSubDirs|].
    intros subDirs. apply ignoresProgress_forEach. intros chunk a _.
    apply ignoresProgress_forEach. intros subDir b _. apply IH.
Qed.

Lemma ignoresProgress_detectChanges env fuel :
  ignoresProgress (detectChanges env fuel).
Proof.
  assert (Hgen : forall cached,
             ignoresProgress
               (locals <- detectDirChanges env fuel (remoteBaseDir env) cached
                            (mkDetectLocals [] 0) ;;
                changes <-
                  (if Nat.ltb 0 (length (dl_changedDirs locals))
                   then forEach (dl_changedDirs locals)
                          (fun dir changes =>
                             dirChanges <- scanDirForChanges env dir ;;
                             ret (changes ++ dirChanges))
                          []
                   else ret []) ;;
                ret (DeltaDetectionResult.mk changes false
                       (dl_scannedDirs locals)
                       (length (dl_changedDirs locals))))).
  { intros cached. apply ignoresProgress_bind.
    - apply ignoresProgress_detectDirChanges.
    - intros locals.
      apply ignoresProgress_bind; [|intros; apply ignoresProgress_ret].
      destruct (Nat.ltb 0 (length (dl_changedDirs locals)));
        [|apply ignoresProgress_ret].
      apply ignoresProgress_forEach. intros dir changes _.
      apply ignoresProgress_bind; [apply ignoresProgress_scanDirForChanges|].
      intros dirChanges. apply ignoresProgress_ret. }
  intros w1 w2 H. unfold detectChanges, DirMtimeStore.getAll.
  rewrite (bind_eq (gets _) _ w1 (dirMtimeStore (store w1)) w1 eq_refl).
  rewrite (bind_eq (gets _) _ w2 (dirMtimeStore (store w2)) w2 eq_refl).
  assert (Hc : dirMtimeStore (store w1) = dirMtimeStore (store w2))
    by apply H.
  rewrite Hc.
  destruct (Nat.eqb (size (dirMtimeStore (store w2))) 0).
  - split; [reflexivity|exact H].
  - exact (Hgen (dirMtimeStore (store w2)) w1 w2 H).
Qed.

Lemma sameButProgress_refl w : sameButProgress w w.
Proof. repeat split; reflexivity. Qed.

Lemma ignoresProgress_getFromIndex env : ignoresProgress (getFromIndex env).
Proof.
  intros w1 w2 H. unfold getFromIndex.
  rewrite (bind_eq _ _ _ _ _ (iterateAll_eq _ _ w1)).
  rewrite (bind_eq _ _ _ _ _ (iterateAll_eq _ _ w2)).
  assert (Hi : fileIndex (store w1) = fileIndex (store w2)) by apply H.
  rewrite Hi. split; [reflexivity|exact H].
Qed.

Lemma sameButProgress_save progress w1 w2 :
  sameButProgress w1 w2 ->
  SyncProgressStore.save progress w1 = SyncProgressStore.save progress w2.
Proof.
  intros (Hi & Hc & Hr & Hp).
  destruct w1 as [[i1 c1 p1] r1 l1], w2 as [[i2 c2 p2] r2 l2].
  cbn in Hi, Hc, Hr, Hp. subst. reflexivity.
Qed.

Lemma ignoresProgress_driverFullScan env fuel :
  ignoresProgress (driverFullScan env fuel).
Proof.
  intros w1 w2 H.
  assert (Heq : driverFullScan env fuel w1 = driverFullScan env fuel w2).
  { unfold driverFullScan. unfold bind at 1.
    rewrite (sameButProgress_save _ w1 w2 H). reflexivity. }
  rewrite Heq. split; [reflexivity|apply sameButProgress_refl].
Qed.

Lemma ignoresProgress_applyChanges env changes :
  ignoresProgress (applyChanges env changes).
Proof.
  intros w1 w2 (Hi & Hc & Hr & Hp). rewrite !applyChanges_eq.
  split; [reflexivity|]. unfold sameButProgress.
  cbn [snd withDirMtimes withFileIndex store fileIndex dirMtimeStore requests
       progressCalls].
  rewrite Hi, Hc, Hr, Hp. repeat split; reflexivity.
Qed.

Lemma ignoresProgress_count : ignoresProgress FileIndexStore.count.
Proof.
  intros w1 w2 H. unfold FileIndexStore.count, gets, LocalForage.length.
  cbn [fst snd]. assert (Hi : fileIndex (store w1) = fileIndex (store w2))
    by apply H.
  rewrite Hi. split; [reflexivity|exact H].
Qed.

(** The value that [walk] reads from the progress store is not used. *)
Lemma ignoresProgress_after_get {B} (k : M B) :
  ignoresProgress k ->
  ignoresProgress (bind SyncProgressStore.get (fun _ => k)).
Proof. intros Hk w1 w2 H. exact (Hk w1 w2 H). Qed.

(** X26.  The saved progress record is never read back: from two worlds that
    differ in the progress record at most, [walk()] ends in the same way,
    with the same listing or the same error, after the same requests and
    the same progress notifications, and with the same index and the same
    directory-mtime cache.  No walk resumes an interrupted one. *)
Theorem walk_never_reads_the_progress_record :
  forall env fuel w1 w2,
    sameButProgress w1 w2 ->
    fst (walk env fuel w1) = fst (walk env fuel w2)
    /\ sameButProgress (snd (walk env fuel w1)) (snd (walk env fuel w2)).
Proof.
  intros env fuel.
  change (ignoresProgress (walk env fuel)). unfold walk.
  apply ignoresProgress_after_get.
  apply ignoresProgress_bind; [apply ignoresProgress_count|].
  intros indexCount.
  destruct (Nat.eqb indexCount 0); [apply ignoresProgress_driverFullScan|].
  apply ignoresProgress_bind; [apply ignoresProgress_detectChanges|].
  intros deltaResult.
  destruct (DeltaDetectionResult.needFullScan deltaResult);
    [apply ignoresProgress_driverFullScan|].
  destruct (Nat.eqb (length (DeltaDetectionResult.changes deltaResult)) 0);
    [apply ignoresProgress_getFromIndex|].
  apply ignoresProgress_bind; [apply ignoresProgress_applyChanges|].
  intros _. apply ignoresProgress_getFromIndex.
Qed.

Lemma walk_never_reads_the_progress_record_witness :
  fst (walk (scenarioEnv nestedTree 1000) 10 (worldOf emptyStore))
  = fst (walk (scenarioEnv nestedTree 1000) 10 (worldOf interruptedStore))
  /\ sameButProgress
       (snd (walk (scenarioEnv nestedTree 1000) 10 (worldOf emptyStore)))
       (snd (walk (scenarioEnv nestedTree 1000) 10 (worldOf interruptedStore))).
Proof.
  apply (walk_never_reads_the_progress_record
           (scenarioEnv nestedTree 1000) 10
           (worldOf emptyStore) (worldOf interruptedStore)).
  repeat split; reflexivity.
Defined.

(* ===================================================================== *)
(** ** Strings that end with a slash *)
(* ===================================================================== *)

Lemma string_app_cons (x : ascii) (a b : string) :
  String x a +:+ b = String x (a +:+ b).
Proof. reflexivity. Qed.

Lemma string_app_nil_l (a : string) : "" +:+ a = a.
Proof. reflexivity. Qed.

Lemma string_app_assoc (a b c : string) : (a +:+ b) +:+ c = a +:+ (b +:+ c).
Proof.
  induction a as [|x a IH]; [reflexivity|].
  rewrite !string_app_cons. now rewrite IH.
Qed.

Lemma string_app_nil_r (a : string) : a +:+ "" = a.
Proof.
  induction a as [|x a IH]; [reflexivity|].
  rewrite string_app_cons. now rewrite IH.
Qed.

Lemma string_rev_app_acc (s acc : string) :
  String.rev_app s acc = String.rev s +:+ acc.
Proof.
  unfold String.rev. revert acc.
  induction s as [|x s IH]; intros acc; [reflexivity|].
  cbn [String.rev_app]. rewrite (IH (String x acc)), (IH (String x "")).
  now rewrite string_app_assoc.
Qed.

Lemma string_rev_cons (x : ascii) (s : string) :
  String.rev (String x s) = String.rev s +:+ String x "".
Proof. unfold String.rev at 1. cbn [String.rev_app]. apply string_rev_app_acc. Qed.

Lemma string_rev_app (a b : string) :
  String.rev (a +:+ b) = String.rev b +:+ String.rev a.
Proof.
  induction a as [|x a IH].
  - rewrite string_app_nil_l. now rewrite string_app_nil_r.
  - rewrite string_app_cons, !string_rev_cons, IH.
    apply string_app_assoc.
Qed.

Lemma string_rev_involutive (a : string) : String.rev (String.rev a) = a.
Proof.
  induction a as [|x a IH]; [reflexivity|].
  rewrite string_rev_cons, string_rev_app, IH. reflexivity.
Qed.

Lemma prefix_slash (s : string) :
  String.prefix "/" s = true <-> exists rest, s = String "/" rest.
Proof.
  rewrite prefix_correct. split.
  - destruct s as [|c s]; simpl; [discriminate|].
    destruct s; simpl; intros [= ->]; eauto.
  - intros [rest ->]. simpl. now destruct rest.
Qed.

Lemma endsWith_slash_iff (s : string) :
  Js.endsWith s "/" = true <-> exists rest, s = rest +:+ "/".
Proof.
  unfold Js.endsWith. change (String.rev "/") with "/".
  rewrite prefix_slash. split.
  - intros [r Hrev]. exists (String.rev r).
    rewrite <- (string_rev_involutive s), Hrev.
    now rewrite string_rev_cons.
  - intros [rest ->]. rewrite string_rev_app. eauto.
Qed.

Lemma endsWith_slash_false (s : string) :
  Js.endsWith s "/" = false <-> forall rest, s <> rest +:+ "/".
Proof.
  split.
  - intros H rest ->.
    assert (Htrue : Js.endsWith (rest +:+ "/") "/" = true)
      by (apply endsWith_slash_iff; eauto).
    congruence.
  - intros H. destruct (Js.endsWith s "/") eqn:He; [|reflexivity].
    apply endsWith_slash_iff in He. destruct He as [rest ->].
    now contradiction (H rest).
Qed.

Lemma substring_all (s : string) : String.substring 0 (String.length s) s = s.
Proof. induction s as [|c s IH]; simpl; [reflexivity|]. now rewrite IH. Qed.

Lemma dropLast_app_char (rest : string) (c : ascii) :
  Js.dropLast (rest +:+ String c "") = rest.
Proof.
  unfold Js.dropLast. induction rest as [|x rest IH]; [reflexivity|].
  rewrite string_app_cons.
  destruct (rest +:+ String c "") as [|y t] eqn:Happ.
  - destruct rest; discriminate.
  - simpl in IH |- *. rewrite Nat.sub_0_r in *. now rewrite IH.
Qed.

Lemma startsWith_app (p s : string) : Js.startsWith (p +:+ s) p = true.
Proof.
  unfold Js.startsWith. apply prefix_correct.
  induction p as [|x p IH].
  - now destruct s.
  - rewrite string_app_cons. simpl. now rewrite IH.
Qed.

Lemma sliceFrom_app (p s : string) :
  Js.sliceFrom (p +:+ s) (String.length p) = s.
Proof.
  unfold Js.sliceFrom. induction p as [|x p IH].
  - rewrite string_app_nil_l. simpl. rewrite Nat.sub_0_r. apply substring_all.
  - rewrite string_app_cons. simpl. exact IH.
Qed.

Lemma startsWith_slash_iff (s : string) :
  Js.startsWith s "/" = true <-> exists rest, s = "/" +:+ rest.
Proof. unfold Js.startsWith. apply prefix_slash. Qed.

(* ===================================================================== *)
(** ** The endpoint and the base path of the server *)
(* ===================================================================== *)

Lemma stripTrailingSlashes_cons c rest :
  stripTrailingSlashes (String c rest)
  = if Ascii.eqb c Js.slash
       && String.eqb (stripTrailingSlashes rest) EmptyString
    then EmptyString
    else String c (stripTrailingSlashes rest).
Proof. reflexivity. Qed.

Lemma stripTrailingSlashes_no_slash s :
  forall rest, stripTrailingSlashes s <> rest +:+ "/".
Proof.
  induction s as [|c s IH]; intros rest.
  - destruct rest; discriminate.
  - rewrite stripTrailingSlashes_cons.
    destruct (Ascii.eqb c Js.slash
              && String.eqb (stripTrailingSlashes s) EmptyString) eqn:Hc.
    + destruct rest; discriminate.
    + destruct rest as [|x rest].
      * rewrite string_app_nil_l. intros [= -> Hkept].
        rewrite Hkept in Hc. cbn in Hc. discriminate.
      * rewrite string_app_cons. intros [= _ Hkept]. exact (IH rest Hkept).
Qed.

Lemma stripTrailingSlashes_tail s :
  exists tail,
    s = stripTrailingSlashes s +:+ tail /\ allSlashes tail = true.
Proof.
  induction s as [|c s [tail [Hs Htail]]].
  - exists "". split; reflexivity.
  - rewrite stripTrailingSlashes_cons.
    destruct (Ascii.eqb c Js.slash) eqn:Hc; cbn [andb].
    + destruct (String.eqb_spec (stripTrailingSlashes s) EmptyString)
        as [Hkept|Hkept].
      * exists (String c s). split; [reflexivity|].
        cbn [allSlashes]. rewrite Hc. cbn [andb].
        rewrite Hs, Hkept. exact Htail.
      * exists tail. rewrite string_app_cons. now rewrite <- Hs.
    + exists tail. rewrite string_app_cons. now rewrite <- Hs.
Qed.

(** X27.  [getWebDAVEndpoint]: for a WebDAV server with a URL that is not
    empty, the endpoint is the URL without the slashes that end it, so that
    it ends with no slash; for a Nutstore server, or an empty URL, it is
    [NS_DAV_ENDPOINT]. *)
Theorem getWebDAVEndpoint_strips_the_trailing_slashes :
  forall NS_DAV_ENDPOINT settings,
    (NutstoreSettings.serverType settings = WEBDAV ->
     NutstoreSettings.webdavServerUrl settings <> "" ->
     Js.endsWith (getWebDAVEndpoint NS_DAV_ENDPOINT settings) "/" = false
     /\ exists tail,
          NutstoreSettings.webdavServerUrl settings
          = getWebDAVEndpoint NS_DAV_ENDPOINT settings +:+ tail
          /\ allSlashes tail = true)
    /\ (NutstoreSettings.serverType settings = NUTSTORE
        \/ NutstoreSettings.webdavServerUrl settings = "" ->
        getWebDAVEndpoint NS_DAV_ENDPOINT settings = NS_DAV_ENDPOINT).
Proof.
  intros ns [serverType url basePath]. unfold getWebDAVEndpoint.
  cbn [NutstoreSettings.serverType NutstoreSettings.webdavServerUrl].
  split.
  - intros -> Hurl. cbn [isWebDAV andb].
    destruct (String.eqb_spec url "") as [->|_]; [contradiction|].
    cbn [negb]. split.
    + apply endsWith_slash_false. apply stripTrailingSlashes_no_slash.
    + apply stripTrailingSlashes_tail.
  - intros [->| ->]; [reflexivity|].
    destruct (isWebDAV serverType); reflexivity.
Qed.

(** The last step of [getWebDAVBasePath]. *)
Lemma trimmed_twoSlashes (rest : string) :
  (if negb (String.eqb (rest +:+ "//") "/") && Js.endsWith (rest +:+ "//") "/"
   then Js.dropLast (rest +:+ "//")
   else rest +:+ "//")
  = rest +:+ "/".
Proof.
  assert (Happ : rest +:+ "//" = (rest +:+ "/") +:+ "/")
    by now rewrite string_app_assoc.
  assert (Hne : String.eqb (rest +:+ "//") "/" = false).
  { apply String.eqb_neq. destruct rest as [|c [|d rest]]; discriminate. }
  assert (Hends : Js.endsWith (rest +:+ "//") "/" = true).
  { apply endsWith_slash_iff. eauto. }
  rewrite Hne, Hends. cbn [negb andb]. rewrite Happ.
  apply dropLast_app_char.
Qed.

Lemma trimmed_cases (normalized : string) :
  Js.startsWith normalized "/" = true ->
  Js.startsWith
    (if negb (String.eqb normalized "/") && Js.endsWith normalized "/"
     then Js.dropLast normalized else normalized) "/" = true
  /\ ((if negb (String.eqb normalized "/") && Js.endsWith normalized "/"
       then Js.dropLast normalized else normalized) = "/"
      \/ Js.endsWith
           (if negb (String.eqb normalized "/") && Js.endsWith normalized "/"
            then Js.dropLast normalized else normalized) "/" = false
      \/ exists rest, normalized = rest +:+ "//").
Proof.
  intros Hstart.
  destruct (String.eqb_spec normalized "/") as [->|Hne]; cbn [negb andb].
  { split; [reflexivity|now left]. }
  destruct (Js.endsWith normalized "/") eqn:Hends.
  - apply endsWith_slash_iff in Hends. destruct Hends as [kept ->].
    rewrite dropLast_app_char. split.
    + apply startsWith_slash_iff in Hstart. destruct Hstart as [tail Htail].
      apply startsWith_slash_iff.
      destruct kept as [|c kept]; [now contradiction Hne|].
      rewrite string_app_cons in Htail. injection Htail as -> _. eauto.
    + destruct (Js.endsWith kept "/") eqn:Hkept; [|now right; left].
      apply endsWith_slash_iff in Hkept. destruct Hkept as [rest ->].
      right. right. exists rest. apply string_app_assoc.
  - split; [exact Hstart|]. right. now left.
Qed.

(** X28.  [getWebDAVBasePath] starts with a slash.  It ends with a slash only
    if it is the root, or if the configured path ends with two slashes: of
    these one only is removed, the result being the configured path, with a
    leading slash if it had none, less its last slash. *)
Theorem getWebDAVBasePath_starts_with_a_slash :
  forall settings,
    Js.startsWith (getWebDAVBasePath settings) "/" = true
    /\ (getWebDAVBasePath settings = "/"
        \/ Js.endsWith (getWebDAVBasePath settings) "/" = false
        \/ exists rest,
             NutstoreSettings.webdavBasePath settings = rest +:+ "//")
    /\ (forall rest,
           NutstoreSettings.serverType settings = WEBDAV ->
           NutstoreSettings.webdavBasePath settings = rest +:+ "//" ->
           getWebDAVBasePath settings
           = (if Js.startsWith rest "/" || String.eqb rest ""
              then rest else "/" +:+ rest) +:+ "/").
Proof.
  intros [serverType url basePath]. unfold getWebDAVBasePath.
  cbn [NutstoreSettings.serverType NutstoreSettings.webdavBasePath].
  destruct serverType; cbn [isWebDAV].
  { split; [reflexivity|]. split; [right; left; reflexivity|].
    intros rest H. discriminate H. }
  destruct (String.eqb_spec basePath "") as [->|Hne].
  { split; [reflexivity|]. split; [now left|].
    intros rest _ H. destruct rest as [|c [|d rest]]; discriminate. }
  destruct (Js.startsWith basePath "/") eqn:Hstart.
  - destruct (trimmed_cases basePath Hstart) as [H1 H2].
    split; [exact H1|]. split; [exact H2|].
    intros rest _ ->. rewrite trimmed_twoSlashes.
    destruct rest as [|c rest]; [reflexivity|].
    apply startsWith_slash_iff in Hstart. destruct Hstart as [tail Htail].
    rewrite string_app_cons in Htail. injection Htail as -> _.
    assert (Hs : Js.startsWith (String "/" rest) "/" = true)
      by (apply startsWith_slash_iff; eauto).
    rewrite Hs. reflexivity.
  - assert (Hn : Js.startsWith ("/" +:+ basePath) "/" = true)
      by (apply startsWith_slash_iff; eauto).
    destruct (trimmed_cases ("/" +:+ basePath) Hn) as [H1 H2].
    split; [exact H1|]. split.
    + destruct H2 as [H2|[H2|[rest H2]]]; [now left|now right; left|].
      right. right.
      change ("/" +:+ basePath) with (String "/" basePath) in H2.
      destruct rest as [|c rest].
      * change ("" +:+ "//") with (String "/" "/") in H2.
        injection H2 as H2. subst basePath. discriminate Hstart.
      * rewrite string_app_cons in H2. injection H2 as _ H2.
        exists rest. exact H2.
    + intros rest _ ->.
      assert (Happ : "/" +:+ (rest +:+ "//") = ("/" +:+ rest) +:+ "//")
        by reflexivity.
      rewrite Happ, trimmed_twoSlashes.
      destruct rest as [|c rest]; [discriminate Hstart|].
      assert (Hc : Js.startsWith (String c rest) "/" = false).
      { destruct (Js.startsWith (String c rest) "/") eqn:Hs; [|reflexivity].
        apply startsWith_slash_iff in Hs. destruct Hs as [tail Hs].
        injection Hs as -> _.
        assert (Htrue : Js.startsWith (String "/" rest +:+ "//") "/" = true)
          by (apply startsWith_slash_iff; eauto).
        congruence. }
      rewrite Hc. reflexivity.
Qed.

(* ===================================================================== *)
(** ** The paths that [parsePropfindResponse] gives *)
(* ===================================================================== *)

Lemma itemPath_starts_with_slash basePath href :
  Js.startsWith (itemPath basePath href) "/" = true.
Proof.
  unfold itemPath.
  set (filePath := if String.eqb basePath "/" then href
                   else if Js.startsWith href basePath
                        then Js.sliceFrom href (String.length basePath)
                        else href).
  set (rooted := if negb (Js.startsWith filePath "/")
                 then "/" +:+ filePath else filePath).
  assert (Hrooted : Js.startsWith rooted "/" = true).
  { unfold rooted. destruct (Js.startsWith filePath "/") eqn:Hs; cbn [negb].
    - exact Hs.
    - apply startsWith_slash_iff. eauto. }
  rewrite andb_comm. apply (trimmed_cases rooted Hrooted).
Qed.

Lemma itemPath_of_resource basePath resource :
  Js.startsWith resource "/" = true ->
  Js.endsWith resource "/" = false ->
  (basePath <> "/" ->
   itemPath basePath (basePath +:+ resource) = resource
   /\ itemPath basePath (basePath +:+ resource +:+ "/") = resource)
  /\ (basePath = "/" ->
      itemPath basePath resource = resource
      /\ itemPath basePath (resource +:+ "/") = resource).
Proof.
  intros Hstart Hends.
  assert (Hplain : (if negb (Js.startsWith resource "/")
                    then "/" +:+ resource else resource) = resource)
    by now rewrite Hstart.
  assert (Hslash : Js.startsWith (resource +:+ "/") "/" = true).
  { apply startsWith_slash_iff in Hstart. destruct Hstart as [tail ->].
    apply startsWith_slash_iff. exists (tail +:+ "/"). reflexivity. }
  assert (Hne : String.eqb (resource +:+ "/") "/" = false).
  { apply String.eqb_neq. apply startsWith_slash_iff in Hstart.
    destruct Hstart as [tail ->]. destruct tail; discriminate. }
  assert (Htrail : Js.endsWith (resource +:+ "/") "/" = true)
    by (apply endsWith_slash_iff; eauto).
  assert (Hdir : (if Js.endsWith
                       (if negb (Js.startsWith (resource +:+ "/") "/")
                        then "/" +:+ (resource +:+ "/") else resource +:+ "/")
                       "/"
                     && negb (String.eqb
                                (if negb (Js.startsWith (resource +:+ "/") "/")
                                 then "/" +:+ (resource +:+ "/")
                                 else resource +:+ "/") "/")
                  then Js.dropLast
                         (if negb (Js.startsWith (resource +:+ "/") "/")
                          then "/" +:+ (resource +:+ "/") else resource +:+ "/")
                  else (if negb (Js.startsWith (resource +:+ "/") "/")
                        then "/" +:+ (resource +:+ "/") else resource +:+ "/"))
                 = resource).
  { rewrite Hslash. cbn [negb]. rewrite Htrail, Hne. cbn [negb andb].
    apply dropLast_app_char. }
  assert (Hfile : (if Js.endsWith
                        (if negb (Js.startsWith resource "/")
                         then "/" +:+ resource else resource) "/"
                      && negb (String.eqb
                                 (if negb (Js.startsWith resource "/")
                                  then "/" +:+ resource else resource) "/")
                   then Js.dropLast
                          (if negb (Js.startsWith resource "/")
                           then "/" +:+ resource else resource)
                   else (if negb (Js.startsWith resource "/")
                         then "/" +:+ resource else resource))
                  = resource).
  { rewrite Hplain, Hends. reflexivity. }
  split.
  - intros Hbase. unfold itemPath.
    apply String.eqb_neq in Hbase. rewrite Hbase.
    rewrite !startsWith_app, !sliceFrom_app. split; assumption.
  - intros ->. unfold itemPath. cbn [String.eqb Ascii.eqb Bool.eqb].
    split; assumption.
Qed.

(** X29.  The path that [parsePropfindResponse] gives a resource starts with a
    slash.  The decoded [href] made of the base path of the server followed
    by a path that starts with a slash and does not end with one, with or
    without a slash at its end, gives that path back.  The resource is
    marked as a directory when its [collection] element has content, and
    then only: an element without content gives [isDir = false]. *)
Theorem parsePropfindItem_normalises_the_path :
  forall decodeURIComponent dateValueOf parseInt10 basePath item,
    Js.startsWith
      (StatModel.path
         (parsePropfindItem decodeURIComponent dateValueOf parseInt10
            basePath item)) "/" = true
    /\ (forall resource,
           Js.startsWith resource "/" = true ->
           Js.endsWith resource "/" = false ->
           (if String.eqb basePath "/"
            then decodeURIComponent (PropfindItem.href item) = resource
                 \/ decodeURIComponent (PropfindItem.href item)
                    = resource +:+ "/"
            else decodeURIComponent (PropfindItem.href item)
                 = basePath +:+ resource
                 \/ decodeURIComponent (PropfindItem.href item)
                    = basePath +:+ resource +:+ "/") ->
           StatModel.path
             (parsePropfindItem decodeURIComponent dateValueOf parseInt10
                basePath item) = resource)
    /\ (StatModel.isDir
          (parsePropfindItem decodeURIComponent dateValueOf parseInt10
             basePath item) = true
        <-> PropfindItem.collection item = WithContent).
Proof.
  intros decode dateOf parseInt basePath item.
  assert (Hpath : StatModel.path
                    (parsePropfindItem decode dateOf parseInt basePath item)
                  = itemPath basePath (decode (PropfindItem.href item))).
  { unfold parsePropfindItem.
    destruct (truthy (PropfindItem.collection item)); reflexivity. }
  rewrite Hpath.
  pose proof (itemPath_starts_with_slash basePath
                (decode (PropfindItem.href item))) as Hstart.
  split; [exact Hstart|]. split.
  - intros resource Hres Hends Hhref.
    destruct (itemPath_of_resource basePath resource Hres Hends)
      as [Hother Hroot].
    destruct (String.eqb_spec basePath "/") as [Hbase|Hbase].
    + destruct (Hroot Hbase) as [Hfile Hdir].
      destruct Hhref as [-> | ->]; assumption.
    + destruct (Hother Hbase) as [Hfile Hdir].
      destruct Hhref as [-> | ->]; assumption.
  - rewrite parsePropfindItem_isDir.
    destruct (PropfindItem.collection item); simpl;
      split; intros H; try reflexivity; discriminate H.
Qed.

(* ===================================================================== *)
(** ** The mode in which [NutstoreFileSystem] walks *)
(* ===================================================================== *)

(** X30.  [NutstoreFileSystem.walk()]: while the server type is the one the
    instance was built with, it runs the Delta mode for Nutstore and the
    walk of the incremental file system for WebDAV, never the standard
    mode.  The standard mode runs when an instance built for Nutstore finds
    the settings changed to WebDAV.  [getIndexStats()], [clearIndex()] and
    [rebuildIndex()] do nothing on an instance built for Nutstore, and
    [getIndexStats()] is [getStats()] of the incremental file system on one
    built for WebDAV. *)
Theorem NutstoreFileSystem_walks_in_the_mode_of_its_server :
  forall walkWithDeltaMode walkWithStandardMode built now incremental fuel w,
    (NutstoreSettings.serverType now = NutstoreSettings.serverType built ->
     NutstoreFileSystem.walk walkWithDeltaMode walkWithStandardMode
       (NutstoreFileSystem.new built incremental) now fuel
     = match NutstoreSettings.serverType built with
       | NUTSTORE => walkWithDeltaMode
       | WEBDAV => walk incremental fuel
       end)
    /\ (NutstoreSettings.serverType built = NUTSTORE ->
        NutstoreSettings.serverType now = WEBDAV ->
        NutstoreFileSystem.walk walkWithDeltaMode walkWithStandardMode
          (NutstoreFileSystem.new built incremental) now fuel
        = walkWithStandardMode)
    /\ (NutstoreSettings.serverType built = WEBDAV ->
        NutstoreSettings.serverType now = NUTSTORE ->
        NutstoreFileSystem.walk walkWithDeltaMode walkWithStandardMode
          (NutstoreFileSystem.new built incremental) now fuel
        = walkWithDeltaMode)
    /\ (NutstoreSettings.serverType built = NUTSTORE ->
        NutstoreFileSystem.getIndexStats
          (NutstoreFileSystem.new built incremental) w = (Ret None, w)
        /\ NutstoreFileSystem.clearIndex
             (NutstoreFileSystem.new built incremental) w = (Ret tt, w)
        /\ NutstoreFileSystem.rebuildIndex
             (NutstoreFileSystem.new built incremental) fuel w = (Ret tt, w))
    /\ (NutstoreSettings.serverType built = WEBDAV ->
        NutstoreFileSystem.getIndexStats
          (NutstoreFileSystem.new built incremental) w
        = (Ret (Some (mkIndexStats
                        (length (fileRecords (fileIndex (store w))))
                        (length (dirRecords (fileIndex (store w))))
                        (negb (Nat.eqb (size (fileIndex (store w))) 0)))), w)).
Proof.
  intros delta standard [builtType url1 base1] [nowType url2 base2]
    incremental fuel w.
  unfold NutstoreFileSystem.walk, NutstoreFileSystem.walkWithIncrementalMode,
    NutstoreFileSystem.new, NutstoreFileSystem.getIndexStats,
    NutstoreFileSystem.clearIndex, NutstoreFileSystem.rebuildIndex,
    supportsDeltaAPI, isNutstoreServer.
  cbn [NutstoreSettings.serverType NutstoreFileSystem.incrementalFS].
  split; [|split; [|split; [|split]]].
  - intros ->. destruct builtType; reflexivity.
  - intros -> ->. reflexivity.
  - intros -> ->. reflexivity.
  - intros ->. cbn. repeat split.
  - intros ->. cbn [isWebDAV].
    rewrite (bind_eq _ _ _ _ _ (getStats_eq w)). reflexivity.
Qed.

(* ===================================================================== *)
(** * The detector against a server whose collection elements are empty *)
(* ===================================================================== *)

(* ===================================================================== *)
(** ** A detection that has no directory to descend into *)
(* ===================================================================== *)




(* ===================================================================== *)
(** ** The records of the index are children of the base directory *)
(* ===================================================================== *)









(* ===================================================================== *)
(** ** Invariant 1 between operations *)
(* ===================================================================== *)




(* ===================================================================== *)
(** ** The detection that follows a walk *)
(* ===================================================================== *)









(* ===================================================================== *)
(** ** A server that puts content into its collection elements *)
(* ===================================================================== *)

(** The condition on the [collection] elements is used.  Against a server
    that puts content into them the adapter tells the directories and the
    scans descend.  On scenario S4 the full scan then indexes [/base/sub]
    with [x], [y] and [z]; after the removal of [/base/sub] the detection
    reports the deletion of [/base/sub] alone, and the walk that applies it
    leaves the three children in the index, under a parent that is not
    indexed any more. *)
Lemma content_markup_leaves_the_children_of_a_removed_directory :
  size (fileIndex contentNestedStore) = 4%nat
  /\ parentsIndexed "/base" (fileIndex contentNestedStore) = true
  /\ fst (detectChanges (contentMarkupEnv emptyBaseTree 2000) 10
            (worldOf contentNestedStore))
     = Ret (DeltaDetectionResult.mk
              [RemoteChange.mk "/base/sub" deleted None] false 1 1)
  /\ size (fileIndex contentNestedStoreAfterRemoval) = 3%nat
  /\ FileIndexEntry.parentPath
       <$> (fileIndex contentNestedStoreAfterRemoval !! "/base/sub/x")
     = Some "/base/sub"
  /\ fileIndex contentNestedStoreAfterRemoval !! "/base/sub" = None
  /\ parentsIndexed "/base" (fileIndex contentNestedStoreAfterRemoval) = false.
Proof.
  repeat split; vm_compute; reflexivity.
Qed.

(** Against such a server a detection over an unchanged remote can issue
    more depth-0 PROPFINDs than there are cached directory mtimes: after
    the walk of scenario S1, a walk that finds two new directories and a
    walk that finds the mtime of [/base] moved with nothing else changed,
    there is one cached mtime, and the detection stats three
    directories. *)
Lemma content_markup_exceeds_the_cached_directory_count :
  size (dirMtimeStore contentTouchedStore) = 1%nat
  /\ fst (detectChanges (contentMarkupEnv touchedTree 4000) 10
            (worldOf contentTouchedStore))
     = Ret (DeltaDetectionResult.mk [] false 3 3)
  /\ depth0Count
       (requests
          (snd (detectChanges (contentMarkupEnv touchedTree 4000) 10
                  (worldOf contentTouchedStore))))
     = 3%nat.
Proof.
  repeat split; vm_compute; reflexivity.
Qed.
